(** * District consolidation estimator and its supporting layers

    A shallow embedding of the core of the Rhode Island school-consolidation
    map: the district-name normalizer ([scripts/lib/normalize.ts] and its
    copy in [frontend/src/lib/enrollment.ts]), the haversine distance
    ([frontend/src/lib/geoDistance.ts]) and the estimator
    ([frontend/src/lib/consolidationV1.ts]) with the records it joins
    ([budgets.ts], [enrollment.ts], [anchors.ts]); then the layers around
    them: the sandbox of the sidebar that calls the estimator
    ([frontend/src/components/Sidebar.tsx]), and the build steps that
    produce the budget records ([scripts/build-budgets.ts]), the anchors
    ([scripts/build-anchors.ts]) and the school keys
    ([scripts/build-enrollment.ts]).

    Conventions of the embedding.
    - A JavaScript [number] is a real number ([R]); IEEE rounding and the
      infinities are outside the model, and the statements about numbers
      are statements over the reals.  [NaN] appears in two places: in
      [Math.max] and [Math.min] on [number], which show what [clamp] does
      with it, and as the outcome [ResultNaN] of the estimator.
    - A JavaScript object used as a dictionary ([Record<string, T>]) is a
      [gmap string T] of its own properties, and [undefined] is [None].
      A read [m[k]] also finds the properties inherited from
      [Object.prototype]: the presence check of the estimator models
      this ([notFound]), the alias tables of the normalizers are read as
      finite maps, and the results that depend on it say so.
    - Reading a property of [undefined] throws a [TypeError]; a function
      that can do so returns [option], with [None] for the throw.
    - In the normalizer a string is the list of its UTF-16 code units. *)

From Stdlib Require Import Reals Lra ZArith.
From stdpp Require Import gmap strings list sorting pretty.

(* ===================================================================== *)
(** * Part I: the program                                                *)
(* ===================================================================== *)

(** ** JavaScript strings and the [String.prototype] methods used

    A string is the list of its UTF-16 code units; [lit] embeds a literal
    written in ASCII. *)
Module jsString.
Local Open Scope N_scope.

Definition lit (s : string) : list N :=
  Ascii.N_of_ascii <$> String.list_ascii_of_string s.

(** [\s] of a regular expression, which is also what [trim] removes:
    WhiteSpace and LineTerminator of ECMAScript. *)
Definition isSpace (c : N) : bool :=
  bool_decide (c ∈ [9; 10; 11; 12; 13; 32; 160; 5760; 8232; 8233; 8239;
                    8287; 12288; 65279])
  || ((8192 <=? c) && (c <=? 8202)).

Definition isUpper (c : N) : bool := (65 <=? c) && (c <=? 90).

(** [\w]: the ASCII letters and digits and the underscore. *)
Definition isWord (c : N) : bool :=
  ((48 <=? c) && (c <=? 57)) || isUpper c || (c =? 95)
  || ((97 <=? c) && (c <=? 122)).

(** The class [[-–—]]: hyphen-minus, en dash, em dash. *)
Definition isDash (c : N) : bool := (c =? 45) || (c =? 8211) || (c =? 8212).

(** [toLowerCase]. Of the Unicode lower-case mappings the ones written out
    are those that involve a word character: the ASCII capitals, U+0130
    (to [i] followed by U+0307) and U+212A, the Kelvin sign (to [k]).
    Every other mapping takes a code unit that is neither a word character
    nor white space to code units that are neither; the normalizer deletes
    such code units in its third replacement, mapped or not, and no
    earlier step tells them apart. *)
Definition lowerUnit (c : N) : list N :=
  if isUpper c then [c + 32]
  else if c =? 304 then [105; 775]
  else if c =? 8490 then [107]
  else [c].

Definition toLowerCase (s : list N) : list N := s ≫= lowerUnit.

Fixpoint dropWhile (p : N → bool) (s : list N) : list N :=
  match s with
  | c :: rest => if p c then dropWhile p rest else s
  | [] => []
  end.

Fixpoint takeWhile (p : N → bool) (s : list N) : list N :=
  match s with
  | c :: rest => if p c then c :: takeWhile p rest else []
  | [] => []
  end.

Definition trim (s : list N) : list N :=
  reverse (dropWhile isSpace (reverse (dropWhile isSpace s))).

(** [t.endsWith(suf)] *)
Definition endsWith (t suf : list N) : bool :=
  bool_decide (length suf ≤ length t)%nat &&
  bool_decide (drop (length t - length suf) t = suf).

(** [t.slice(0, -n)] for [n > 0] *)
Definition sliceOff (t : list N) (n : nat) : list N := take (length t - n) t.

(** [s.replace(/re/g, rep)] for a pattern that matches no empty string.
    The pattern is given by its matcher: applied to the rest of the
    subject, the number of code units of the match that starts there
    (greedy quantifiers, so the longest one), if there is one. The scan
    goes left to right; after a match it resumes behind the match
    ([skip] counts the code units of the match still to pass), otherwise
    it copies one code unit and moves on. *)
Fixpoint replaceAll (m : list N → option nat) (rep : list N) (skip : nat)
    (s : list N) : list N :=
  match s with
  | [] => []
  | c :: rest =>
      match skip with
      | S n => replaceAll m rep n rest
      | O =>
          match m s with
          | Some len => rep ++ replaceAll m rep (pred len) rest
          | None => c :: replaceAll m rep 0 rest
          end
      end
  end.

(** A pattern that is one character class. *)
Definition matchClass (p : N → bool) (s : list N) : option nat :=
  match s with
  | c :: _ => if p c then Some 1%nat else None
  | [] => None
  end.

Definition spaces (s : list N) : nat := length (takeWhile isSpace s).

(** [/\s*&\s*/] *)
Definition matchAmp (s : list N) : option nat :=
  let n1 := spaces s in
  match drop n1 s with
  | c :: rest => if c =? 38 then Some (n1 + 1 + spaces rest)%nat else None
  | [] => None
  end.

(** [/\s*\([^)]*\)\s*/]: past the run of code units other than [)] the
    subject either ends, and there is no match, or goes on with [)]. *)
Definition matchParen (s : list N) : option nat :=
  let n1 := spaces s in
  match drop n1 s with
  | c :: rest =>
      if c =? 40 then
        let n2 := length (takeWhile (λ c, negb (c =? 41)) rest) in
        match drop n2 rest with
        | _ :: rest' => Some (n1 + 1 + n2 + 1 + spaces rest')%nat
        | [] => None
        end
      else None
  | [] => None
  end.

(** [/\s+/] *)
Definition matchSpaces (s : list N) : option nat :=
  match s with
  | c :: rest => if isSpace c then Some (1 + spaces rest)%nat else None
  | [] => None
  end.

End jsString.

(** ** [scripts/lib/normalize.ts] *)
Module normalize.
Import jsString.
Local Open Scope N_scope.

(** [for (const suf of sufs) if (t.endsWith(suf)) { ...; break; }] *)
Fixpoint stripSuffix (sufs : list (list N)) (t : list N) : list N :=
  match sufs with
  | [] => t
  | suf :: rest =>
      if endsWith t suf then trim (sliceOff t (length suf))
      else stripSuffix rest t
  end.

Definition normalizeDistrictName (s : list N) : list N :=
  if bool_decide (s = []) then []
  else
    let t := toLowerCase s in
    let t := trim t in
    let t := replaceAll matchAmp (lit " and ") 0 t in
    let t := replaceAll (matchClass isDash) (lit " ") 0 t in
    let t := replaceAll (matchClass (λ c, negb (isWord c || isSpace c))) [] 0 t in
    let t := replaceAll matchParen (lit " ") 0 t in
    let t := replaceAll matchSpaces (lit " ") 0 t in
    let t := trim t in
    let suffixes :=
      [lit " regional school district"; lit " school district";
       lit " public schools"] in
    let t := stripSuffix suffixes t in
    let levelSuffixes := [lit " elementary"; lit " secondary"] in
    let t := stripSuffix levelSuffixes t in
    t.

Definition DISTRICT_ALIASES : gmap (list N) (list N) :=
  {[ lit "bistol warren regional district" := lit "bristol warren" ]}.

(** [DISTRICT_ALIASES[n] ?? n], the table read as a finite map of its own
    entries: this is the key for every name whose normal form is not the
    name of a property of [Object.prototype] (for ["constructor"] and
    ["__proto__"] the read finds the inherited value, which is not a
    string). *)
Definition districtKey (name : list N) : list N :=
  let k := normalizeDistrictName name in
  default k (DISTRICT_ALIASES !! k).

End normalize.

(** ** [frontend/src/lib/enrollment.ts]: the key functions *)
Module enrollment.
Import jsString.
Local Open Scope N_scope.

Definition normalizeForKey (s : list N) : list N :=
  if bool_decide (s = []) then []
  else
    let t := toLowerCase s in
    let t := trim t in
    let t := replaceAll matchAmp (lit " and ") 0 t in
    let t := replaceAll (matchClass isDash) (lit " ") 0 t in
    let t := replaceAll (matchClass (λ c, negb (isWord c || isSpace c))) [] 0 t in
    let t := replaceAll matchParen (lit " ") 0 t in
    let t := replaceAll matchSpaces (lit " ") 0 t in
    let t := trim t in
    let suffixes :=
      [lit " regional school district"; lit " school district";
       lit " public schools"] in
    let t := normalize.stripSuffix suffixes t in
    let levelSuffixes := [lit " elementary"; lit " secondary"] in
    let t := normalize.stripSuffix levelSuffixes t in
    t.

Definition DISTRICT_ALIASES : gmap (list N) (list N) := ∅.

(** [DISTRICT_ALIASES[n] ?? n], read as in [normalize.districtKey]. *)
Definition districtKey (name : list N) : list N :=
  let k := normalizeForKey name in
  default k (DISTRICT_ALIASES !! k).

Definition schoolKey (districtName schoolName : list N) : list N :=
  districtKey districtName ++ lit "||" ++ normalizeForKey schoolName.

End enrollment.

(** ** [frontend/src/lib/geoDistance.ts] *)
Module geoDistance.
Local Open Scope R_scope.

Record LatLon : Type := { lat : R; lon : R }.

Definition EARTH_RADIUS_MILES : R := 39588 / 10.

Definition toRad (deg : R) : R := (deg * PI) / 180.

Definition milesBetween (a b : LatLon) : R :=
  let dLat := toRad (lat b - lat a) in
  let dLon := toRad (lon b - lon a) in
  let sinHalfDLat := sin (dLat / 2) in
  let sinHalfDLon := sin (dLon / 2) in
  let h :=
    sinHalfDLat * sinHalfDLat +
    cos (toRad (lat a)) * cos (toRad (lat b)) * sinHalfDLon * sinHalfDLon in
  2 * EARTH_RADIUS_MILES * asin (sqrt h).
End geoDistance.

(** ** [frontend/src/lib/budgets.ts]: the fields of a budget record *)
Module budgets.
Record BudgetComponents : Type := {
  districtManagement : R;
  programOperationsManagement : R;
}.

Record DistrictBudget : Type := {
  displayName : string;
  sourceFile : string;
  fiscalYear : string;
  totalExpenditures : R;
  centralAdministration : R;
  centralAdministrationModel : R;
  adminShareOfTotal : option R;
  adminShareOfTotalModel : option R;
  components : BudgetComponents;
  componentsModel : BudgetComponents;
  flags : list string;
}.
End budgets.

(** ** [frontend/src/lib/anchors.ts] *)
Module anchors.
Record AnchorSchool : Type := {
  name : string;
  ncesId : string;
  enrollment : option R;
  gradeLow : option R;
  gradeHigh : option R;
  gradeBucket : string;
  districtGeoid : string;
  districtName : string;
}.

Record DistrictAnchor : Type := {
  displayName : string;
  lat : R;
  lon : R;
  anchorType : string;
  anchorSchool : option AnchorSchool;
  flags : list string;
}.
End anchors.

(** ** [frontend/src/lib/enrollment.ts]: the record read by the estimator
  (the optional sub-population and demographic counts are not read by
  any function embedded here and are left out). *)
Module enrollmentData.
Record DistrictEnrollment : Type := {
  distcode : string;
  distname : string;
  total : R;
}.
End enrollmentData.

(** ** [frontend/src/lib/consolidationV1.ts] *)
Module consolidationV1.
Import geoDistance.
Local Open Scope R_scope.

Abbreviation BudgetsMap := (gmap string budgets.DistrictBudget).
Abbreviation LeaEnrollmentMap := (gmap string enrollmentData.DistrictEnrollment).
Abbreviation DistrictAnchorsMap := (gmap string anchors.DistrictAnchor).

Record ConsolidationParamsV1 : Type := {
  adminReductionRate : R;
  costPerStudentMile : R;
  affectedShare : R;
}.

Record SpokeDetail : Type := {
  key : string;
  name : string;
  enrollment : R;
  distanceMiles : R;
  cost : R;
}.

(** The object under [missing] in the result. *)
Record MissingKeys : Type := {
  missing_budgets : list string;
  missing_enrollment : list string;
  missing_anchors : list string;
}.

Record ConsolidationResultV1 : Type := {
  hubKey : string;
  hubName : string;
  combinedEnrollment : R;
  combinedSpending : R;
  hubSpending : R;
  spokesSpending : R;
  baselinePerPupil : R;
  adminBaselineHub : R;
  adminBaselineSpokes : R;
  adminSavings : R;
  transportationIncrease : R;
  netImpact : R;
  projectedSpending : R;
  projectedPerPupil : R;
  adminSavingsPctCombined : R;
  transportIncreasePctCombined : R;
  netImpactPctCombined : R;
  adminSavingsPctSpokesSpending : R;
  transportIncreasePctSpokesSpending : R;
  netImpactPctSpokesSpending : R;
  spokeBreakdown : list SpokeDetail;
  warnings : list string;
  missing : MissingKeys;
  ok : bool;
}.

(** [Math.max(lo, Math.min(hi, v))] *)
Definition clamp (v lo hi : R) : R := Rmax lo (Rmin hi v).

(** A JavaScript number as a caller may supply it: a real number, or
    [NaN] (the infinities and IEEE rounding are not modelled). *)
Inductive number : Type :=
  | Num (x : R)
  | NaN.

(** [Math.min] and [Math.max] of two numbers: [NaN] as soon as one of
    them is [NaN]. *)
Definition Math_min (a b : number) : number :=
  match a, b with
  | Num x, Num y => Num (Rmin x y)
  | _, _ => NaN
  end.

Definition Math_max (a b : number) : number :=
  match a, b with
  | Num x, Num y => Num (Rmax x y)
  | _, _ => NaN
  end.

(** [clamp] (lines 47-49) on any number; [clamp] above is what it does
    on the reals. *)
Definition clampNumber (v lo hi : number) : number :=
  Math_max lo (Math_min hi v).

(** The names of the properties of [Object.prototype].  The datasets are
    plain objects (parsed from JSON): a read [obj[k]] that finds no own
    property [k] finds the property of the prototype when [k] is one of
    these names, a function or, for ["__proto__"], the prototype itself,
    all of them truthy and without any of the fields of a record. *)
Definition objectPrototypeNames : list string :=
  ["constructor"; "__defineGetter__"; "__defineSetter__"; "hasOwnProperty";
   "__lookupGetter__"; "__lookupSetter__"; "isPrototypeOf";
   "propertyIsEnumerable"; "toString"; "valueOf"; "__proto__";
   "toLocaleString"].

(** [!obj[k]]: nothing is found for [k], neither among the own
    properties of [obj] nor on [Object.prototype]. *)
Definition notFound {T : Type} (obj : gmap string T) (k : string) : bool :=
  match obj !! k with
  | Some _ => false
  | None => negb (bool_decide (k ∈ objectPrototypeNames))
  end.

(** [Math.round]: the nearest integer, a tie going up. *)
Definition Math_round (x : R) : R := IZR (Int_part (x + / 2)).

(** [x.toFixed(1)] for a number below 1e21: the decimal digits of the
    integer nearest to [10 * |x|] (a tie going up), with the point before
    the last digit and the sign in front. *)
Definition toFixed1 (x : R) : string :=
  let n := Int_part (Rabs x * 10 + / 2) in
  (if Rlt_dec x 0 then "-" else "") +:+
  pretty (n / 10)%Z +:+ "." +:+ pretty (n mod 10)%Z.

(** [[...new Set(selectedKeys)]]: the distinct keys in the order of their
    first occurrence; [seen] is the set built so far. *)
Fixpoint uniqueFrom (seen : gset string) (keys : list string) : list string :=
  match keys with
  | [] => []
  | k :: rest =>
      if decide (k ∈ seen) then uniqueFrom seen rest
      else k :: uniqueFrom ({[k]} ∪ seen) rest
  end.

Definition uniqueKeys (selectedKeys : list string) : list string :=
  uniqueFrom ∅ selectedKeys.

(** A [for (const k of unique)] loop whose body may throw. *)
Fixpoint forOf {S A : Type} (body : S → A → option S) (st : S) (l : list A)
  : option S :=
  match l with
  | [] => Some st
  | k :: rest => st' ← body st k; forOf body st' rest
  end.

(** [arr.sort(cmp)].  [Array.prototype.sort] is stable, and with a
    comparator that is a consistent ordering its result is the one of
    every stable sort.  Here the elements are inserted from the right,
    each in front of the first element that it does not sort after:
    [cmp x y > 0] moves [x] behind [y], and elements that compare equal
    keep the order they had. *)
Fixpoint insertBy {A : Type} (cmp : A → A → R) (x : A) (l : list A)
  : list A :=
  match l with
  | [] => [x]
  | y :: rest =>
      if Rgt_dec (cmp x y) 0 then y :: insertBy cmp x rest else x :: l
  end.

Definition sortBy {A : Type} (cmp : A → A → R) (l : list A) : list A :=
  foldr (insertBy cmp) [] l.

Definition empty : ConsolidationResultV1 := {|
  hubKey := ""; hubName := ""; combinedEnrollment := 0; combinedSpending := 0;
  hubSpending := 0; spokesSpending := 0;
  baselinePerPupil := 0; adminBaselineHub := 0; adminBaselineSpokes := 0;
  adminSavings := 0; transportationIncrease := 0; netImpact := 0;
  projectedSpending := 0; projectedPerPupil := 0;
  adminSavingsPctCombined := 0; transportIncreasePctCombined := 0;
  netImpactPctCombined := 0;
  adminSavingsPctSpokesSpending := 0; transportIncreasePctSpokesSpending := 0;
  netImpactPctSpokesSpending := 0;
  spokeBreakdown := [];
  warnings := [];
  missing := {| missing_budgets := []; missing_enrollment := [];
                missing_anchors := [] |};
  ok := false;
|}.

(** [{ ...empty, warnings: w, missing: m }] *)
Definition emptyWith (w : list string) (m : MissingKeys) : ConsolidationResultV1 := {|
  hubKey := hubKey empty; hubName := hubName empty;
  combinedEnrollment := combinedEnrollment empty;
  combinedSpending := combinedSpending empty;
  hubSpending := hubSpending empty; spokesSpending := spokesSpending empty;
  baselinePerPupil := baselinePerPupil empty;
  adminBaselineHub := adminBaselineHub empty;
  adminBaselineSpokes := adminBaselineSpokes empty;
  adminSavings := adminSavings empty;
  transportationIncrease := transportationIncrease empty;
  netImpact := netImpact empty;
  projectedSpending := projectedSpending empty;
  projectedPerPupil := projectedPerPupil empty;
  adminSavingsPctCombined := adminSavingsPctCombined empty;
  transportIncreasePctCombined := transportIncreasePctCombined empty;
  netImpactPctCombined := netImpactPctCombined empty;
  adminSavingsPctSpokesSpending := adminSavingsPctSpokesSpending empty;
  transportIncreasePctSpokesSpending := transportIncreasePctSpokesSpending empty;
  netImpactPctSpokesSpending := netImpactPctSpokesSpending empty;
  spokeBreakdown := spokeBreakdown empty;
  warnings := w;
  missing := m;
  ok := ok empty;
|}.

(** What a call returns.  [Result r] is the object [r], all of whose
    numbers are reals.  [ResultNaN] stands for an object with [ok: true]
    in which numbers are [NaN]: the object returned when the presence
    check was passed by a record found on [Object.prototype] (see
    [computeConsolidationV1]); the embedding, whose numbers are reals,
    does not follow its fields. *)
Inductive Returned : Type :=
  | Result (r : ConsolidationResultV1)
  | ResultNaN.

(** The field [ok] of the object returned. *)
Definition returned_ok (o : Returned) : bool :=
  match o with
  | Result r => ok r
  | ResultNaN => true
  end.

Section compute.
Variable budgets : BudgetsMap.
Variable enrollments : LeaEnrollmentMap.
Variable anchors : DistrictAnchorsMap.

(** State of the first loop (source lines 84-94): the three lists of
    missing keys and the warnings, each grown by [push]. *)
Record Presence : Type := {
  missingBudgets : list string;
  missingEnrollment : list string;
  missingAnchors : list string;
  flagWarnings : list string;
}.

(** [!e || !e.total || e.total <= 0]; a value [e] found on
    [Object.prototype] has no [total], so that the test holds for it as
    it does for [undefined]. *)
Definition enrollmentMissing (e : option enrollmentData.DistrictEnrollment) : bool :=
  match e with
  | None => true
  | Some e =>
      if Req_dec_T (enrollmentData.total e) 0 then true
      else if Rle_dec (enrollmentData.total e) 0 then true else false
  end.

(** The warnings pushed for one budget record:
    [`${b.displayName}: ${f}`] for each flag [f].  (A value found on
    [Object.prototype] has no [flags]: [b?.flags?.length] is [undefined]
    and nothing is pushed for it.) *)
Definition budgetWarnings (b : budgets.DistrictBudget) : list string :=
  (λ f, budgets.displayName b +:+ ": " +:+ f) <$> budgets.flags b.

Definition presenceStep (st : Presence) (k : string) : Presence :=
  let b := budgets !! k in
  let e := enrollments !! k in
  let a := anchors !! k in
  {| missingBudgets :=
       if notFound budgets k then missingBudgets st ++ [k]
       else missingBudgets st;
     missingEnrollment :=
       if enrollmentMissing e then missingEnrollment st ++ [k]
       else missingEnrollment st;
     missingAnchors :=
       if notFound anchors k then missingAnchors st ++ [k]
       else missingAnchors st;
     flagWarnings :=
       match b with
       | Some b => flagWarnings st ++ budgetWarnings b
       | None => flagWarnings st
       end |}.

Definition presence (unique : list string) : Presence :=
  foldl presenceStep
    {| missingBudgets := []; missingEnrollment := [];
       missingAnchors := []; flagWarnings := [] |} unique.

(** Hub loop (lines 104-109); the state is [(hubKey, hubEnroll)]. *)
Definition hubStep (st : string * R) (k : string) : option (string * R) :=
  e ← enrollments !! k;
  let total := enrollmentData.total e in
  Some (if Rgt_dec total st.2 then (k, total) else st).

(** Totals loop (lines 119-125); the state is
    [(combinedEnrollment, combinedSpending, adminBaselineSpokes)]. *)
Definition totalsStep (hubKey : string) (st : R * R * R) (k : string)
  : option (R * R * R) :=
  let '(combinedEnrollment, combinedSpending, adminBaselineSpokes) := st in
  e ← enrollments !! k;
  b ← budgets !! k;
  Some (combinedEnrollment + enrollmentData.total e,
        combinedSpending + budgets.totalExpenditures b,
        if decide (k ≠ hubKey)
        then adminBaselineSpokes + budgets.centralAdministrationModel b
        else adminBaselineSpokes).

(** Spoke loop (lines 133-151); the state is
    [(spokeBreakdown, transportationIncrease, warnings)]. *)
Definition spokeStep (hubKey : string) (hubAnchor : anchors.DistrictAnchor)
    (share cpsm : R) (st : list SpokeDetail * R * list string) (k : string)
  : option (list SpokeDetail * R * list string) :=
  let '(spokeBreakdown, transportationIncrease, warnings) := st in
  if decide (k = hubKey) then Some st
  else
    a ← anchors !! k;
    let dist :=
      milesBetween {| lat := anchors.lat a; lon := anchors.lon a |}
                   {| lat := anchors.lat hubAnchor; lon := anchors.lon hubAnchor |} in
    let warnings :=
      if Rgt_dec dist 60
      then warnings ++
           [anchors.displayName a +:+ ": distance " +:+ toFixed1 dist +:+ " mi seems high"]
      else warnings in
    e ← enrollments !! k;
    let enr := enrollmentData.total e in
    let cost := dist * enr * share * cpsm in
    a' ← anchors !! k;
    Some (spokeBreakdown ++
            [{| key := k;
                name := anchors.displayName a';
                enrollment := enr;
                distanceMiles := Math_round (dist * 10) / 10;
                cost := Math_round cost |}],
          transportationIncrease + cost,
          warnings).

Definition safePct (num den : R) : R :=
  if Rgt_dec den 0 then num / den else 0.

(** The parameters are real numbers here ([clampNumber] shows what
    [clamp] does with [NaN]).

    Past the presence check every [budgets[k]] and [anchors[k]] was
    found.  One that is not an own property was found on
    [Object.prototype]: the fields read from it below are [undefined],
    no read throws, the sum [combinedSpending] (every key is added) or
    the distance of a spoke (every spoke has a distance to the hub) is
    [NaN], and the object returned, with [ok: true], carries it:
    [ResultNaN].  Otherwise the records are own properties and the
    computation is followed step by step, [None] being a [TypeError]. *)
Definition computeConsolidationV1
    (selectedKeys : list string) (params : ConsolidationParamsV1)
  : option Returned :=
  let rate := clamp (adminReductionRate params) 0 1 in
  let cpsm := Rmax 0 (costPerStudentMile params) in
  let share := clamp (affectedShare params) 0 1 in
  let unique := uniqueKeys selectedKeys in
  if decide (length unique < 2)%nat then
    Some (Result (emptyWith ["Select at least 2 districts"] (missing empty)))
  else
    let p := presence unique in
    if negb (bool_decide (missingBudgets p = []) &&
             bool_decide (missingEnrollment p = []) &&
             bool_decide (missingAnchors p = []))
    then
      Some (Result (emptyWith (flagWarnings p)
              {| missing_budgets := missingBudgets p;
                 missing_enrollment := missingEnrollment p;
                 missing_anchors := missingAnchors p |}))
    else if negb (bool_decide
                    (Forall (λ k, is_Some (budgets !! k) ∧
                                  is_Some (anchors !! k)) unique))
    then Some ResultNaN
    else
      first ← head unique;
      '(hubKey, hubEnroll) ← forOf hubStep (first, 0) unique;
      hubAnchor ← anchors !! hubKey;
      hubBudget ← budgets !! hubKey;
      let adminBaselineHub := budgets.centralAdministrationModel hubBudget in
      '(combinedEnrollment, combinedSpending, adminBaselineSpokes) ←
        forOf (totalsStep hubKey) (0, 0, 0) unique;
      let baselinePerPupil :=
        if Rgt_dec combinedEnrollment 0
        then combinedSpending / combinedEnrollment else 0 in
      let adminSavings := rate * adminBaselineSpokes in
      '(spokeBreakdown, transportationIncrease, warnings) ←
        forOf (spokeStep hubKey hubAnchor share cpsm)
              ([], 0, flagWarnings p) unique;
      let spokeBreakdown := sortBy (λ a b, cost b - cost a) spokeBreakdown in
      let netImpact := adminSavings - transportationIncrease in
      let projectedSpending := combinedSpending - netImpact in
      let projectedPerPupil :=
        if Rgt_dec combinedEnrollment 0
        then projectedSpending / combinedEnrollment else 0 in
      let hubSpending := budgets.totalExpenditures hubBudget in
      let spokesSpending := combinedSpending - hubSpending in
      Some (Result {|
        hubKey := hubKey;
        hubName := anchors.displayName hubAnchor;
        combinedEnrollment := combinedEnrollment;
        combinedSpending := combinedSpending;
        hubSpending := hubSpending;
        spokesSpending := spokesSpending;
        baselinePerPupil := baselinePerPupil;
        adminBaselineHub := adminBaselineHub;
        adminBaselineSpokes := adminBaselineSpokes;
        adminSavings := adminSavings;
        transportationIncrease := transportationIncrease;
        netImpact := netImpact;
        projectedSpending := projectedSpending;
        projectedPerPupil := projectedPerPupil;
        adminSavingsPctCombined := safePct adminSavings combinedSpending;
        transportIncreasePctCombined := safePct transportationIncrease combinedSpending;
        netImpactPctCombined := safePct netImpact combinedSpending;
        adminSavingsPctSpokesSpending := safePct adminSavings spokesSpending;
        transportIncreasePctSpokesSpending := safePct transportationIncrease spokesSpending;
        netImpactPctSpokesSpending := safePct netImpact spokesSpending;
        spokeBreakdown := spokeBreakdown;
        warnings := warnings;
        missing := {| missing_budgets := []; missing_enrollment := [];
                      missing_anchors := [] |};
        ok := true;
      |}).
End compute.
End consolidationV1.

(** ** [frontend/src/components/Sidebar.tsx]: the consolidation sandbox *)
Module Sidebar.
Import consolidationV1.

(** [(prev) => (prev.includes(key) ? prev : [...prev, key])] *)
Definition addToSandbox (key : string) (prev : list string) : list string :=
  if bool_decide (key ∈ prev) then prev else prev ++ [key].

(** [(prev) => prev.filter((k) => k !== key)] *)
Definition removeFromSandbox (key : string) (prev : list string) : list string :=
  filter (λ k, k ≠ key) prev.

(** [sandboxResult]; the datasets are [null] until they are loaded, and the
    inner [None] is the [null] result. *)
Definition sandboxResult (sandboxDistrictKeys : list string)
    (budgets : option BudgetsMap) (leaEnrollment : option LeaEnrollmentMap)
    (anchors : option DistrictAnchorsMap)
    (consolidationParams : ConsolidationParamsV1)
  : option (option Returned) :=
  match budgets, leaEnrollment, anchors with
  | Some budgets, Some leaEnrollment, Some anchors =>
      if decide (length sandboxDistrictKeys < 2)%nat then Some None
      else
        Some <$> computeConsolidationV1 budgets leaEnrollment anchors
                   sandboxDistrictKeys consolidationParams
  | _, _, _ => Some None
  end.

End Sidebar.

(** ** [scripts/build-budgets.ts]: from the extracted figures to the budget
    record. Reading and parsing the file ([extractRaw]) is outside the
    embedding; [processFile] takes its result, [None] for [null]. *)
Module buildBudgets.
Import consolidationV1.
Local Open Scope R_scope.

Record RawBudget : Type := {
  displayName : string;
  sourceFile : string;
  fiscalYear : string;
  totalExpenditures : R;
  districtManagement : R;
  programOpsManagement : R;
  flags : list string;
}.

Definition ADMIN_SHARE_OUTLIER : R := 15 / 100.
Definition ADMIN_SHARE_CAP : R := 10 / 100.

Definition FY_PREFERENCE : list string := ["2025-26"; "2024-25"; "2023-24"].

(** [available.find((a) => a.fy === preferred)] *)
Definition findFy (available : list (string * nat)) (preferred : string)
  : option (string * nat) :=
  list_find (λ a, a.1 = preferred) available ≫= λ ia, Some ia.2.

(** The entries of [available] are pairs [(fy, colIndex)]; [None] is
    [null]. *)
Fixpoint pickFrom (prefs : list string) (available : list (string * nat))
  : option (string * nat) :=
  match prefs with
  | preferred :: rest =>
      match findFy available preferred with
      | Some m => Some m
      | None => pickFrom rest available
      end
  | [] => last available
  end.

Definition pickLatestFiscalYear (available : list (string * nat))
  : option (string * nat) :=
  pickFrom FY_PREFERENCE available.

Definition emptyBudget (displayName sourceFile : string) (flags : list string)
  : budgets.DistrictBudget :=
  {| budgets.displayName := displayName;
     budgets.sourceFile := sourceFile;
     budgets.fiscalYear := "";
     budgets.totalExpenditures := 0;
     budgets.centralAdministration := 0;
     budgets.centralAdministrationModel := 0;
     budgets.adminShareOfTotal := None;
     budgets.adminShareOfTotalModel := None;
     budgets.components :=
       {| budgets.districtManagement := 0;
          budgets.programOperationsManagement := 0 |};
     budgets.componentsModel :=
       {| budgets.districtManagement := 0;
          budgets.programOperationsManagement := 0 |};
     budgets.flags := flags |}.

(** [Math.round(x * 1e6) / 1e6], on the reals.  The code rounds the
    double nearest to the product, which on a tie of the real product
    can fall one millionth away from this value. *)
Definition round6 (x : R) : R := Math_round (x * 1000000) / 1000000.

(** [file] is [path.basename(filePath)], [name] is
    [extractDistrictName(file)] and [raw] is [extractRaw(filePath)]. *)
Definition processFile (name file : string) (raw : option RawBudget)
  : budgets.DistrictBudget :=
  match raw with
  | None => emptyBudget name file ["parse_failed"]
  | Some raw =>
      let flags := flags raw in
      let totalExpenditures := totalExpenditures raw in
      let districtManagement := districtManagement raw in
      let programOpsManagement := programOpsManagement raw in
      let fiscalYear := fiscalYear raw in
      let centralAdministration := districtManagement + programOpsManagement in
      let flags :=
        if Rgt_dec centralAdministration totalExpenditures then
          if Rgt_dec totalExpenditures 0 then flags ++ ["admin_gt_total"]
          else flags
        else flags in
      let '(flags, dmModel) :=
        if Rlt_dec districtManagement 0
        then (flags ++ ["district_management_negative"], 0)
        else (flags, districtManagement) in
      let '(flags, pomModel) :=
        if Rlt_dec programOpsManagement 0
        then (flags ++ ["program_operations_management_negative"], 0)
        else (flags, programOpsManagement) in
      let centralAdminModel := dmModel + pomModel in
      let '(flags, centralAdminModel, adminShareOfTotal, adminShareOfTotalModel) :=
        if Rgt_dec totalExpenditures 0 then
          let adminShareOfTotal := centralAdministration / totalExpenditures in
          let rawModelShare := centralAdminModel / totalExpenditures in
          let '(flags, centralAdminModel) :=
            if Rgt_dec rawModelShare ADMIN_SHARE_OUTLIER then
              let flags := flags ++ ["admin_share_outlier"] in
              let cap := totalExpenditures * ADMIN_SHARE_CAP in
              (flags ++ ["admin_share_capped_model"],
               Math_round (Rmin centralAdminModel cap))
            else (flags, centralAdminModel) in
          (flags, centralAdminModel, Some adminShareOfTotal,
           Some (centralAdminModel / totalExpenditures))
        else
          (flags ++ ["total_expenditures_missing_or_zero"],
           Rmax 0 centralAdminModel, None, None) in
      {| budgets.displayName := displayName raw;
         budgets.sourceFile := sourceFile raw;
         budgets.fiscalYear := fiscalYear;
         budgets.totalExpenditures := totalExpenditures;
         budgets.centralAdministration := centralAdministration;
         budgets.centralAdministrationModel := centralAdminModel;
         budgets.adminShareOfTotal := round6 <$> adminShareOfTotal;
         budgets.adminShareOfTotalModel := round6 <$> adminShareOfTotalModel;
         budgets.components :=
           {| budgets.districtManagement := districtManagement;
              budgets.programOperationsManagement := programOpsManagement |};
         budgets.componentsModel :=
           {| budgets.districtManagement := dmModel;
              budgets.programOperationsManagement := pomModel |};
         budgets.flags := flags |}
  end.

End buildBudgets.

(** ** The composite school keys of the build scripts

    [lookupEnrollment] is the local function of [main] in
    [scripts/build-anchors.ts]; [schoolMapKey] is the key under which
    [main] of [scripts/build-enrollment.ts] stores a school row. *)
Module buildScripts.
Import jsString normalize.
Local Open Scope R_scope.

(** An entry of the school enrollment file, of which only [total] is
    read. *)
Record SchoolEntry : Type := { total : option R }.

Definition lookupEnrollment (enrollmentMap : gmap (list N) SchoolEntry)
    (districtName schoolName : list N) : option R :=
  let dk := normalizeDistrictName districtName in
  let sk := normalizeDistrictName schoolName in
  let compositeKey := dk ++ lit "||" ++ sk in
  match enrollmentMap !! compositeKey with
  | Some entry =>
      match total entry with
      | Some t => if Rgt_dec t 0 then Some t else None
      | None => None
      end
  | None => None
  end.

(** [normalize(distname) + '||' + normalize(schname)] *)
Definition schoolMapKey (distname schname : list N) : list N :=
  normalizeDistrictName distname ++ lit "||" ++ normalizeDistrictName schname.

End buildScripts.

(** ** [scripts/build-anchors.ts]: the choice of a district's anchor

    [localeCompare] stands for [String.prototype.localeCompare], the last
    tie-break of the ranking; [buildAnchor] is the body of the loop over
    the districts in [main], for one district's fallback point and school
    candidates. *)
Module buildAnchors.
Import consolidationV1.
Local Open Scope R_scope.

Record SchoolCandidate : Type := {
  name : string;
  ncesId : string;
  gradeLow : option R;
  gradeHigh : option R;
  gradeBucket : string;
  districtGeoid : string;
  districtName : string;
  lat : R;
  lon : R;
  enrollment : option R;
  likelyCharter : bool;
}.

(** The fields [lat] and [lon] of the fallback point are [fb_lat] and
    [fb_lon] here, the names being taken by the school candidate. *)
Record FallbackInfo : Type := {
  displayName : string;
  fb_lat : R;
  fb_lon : R;
  geoid : string;
  flags : list string;
}.

Definition isHighSchool (s : SchoolCandidate) : bool :=
  match gradeHigh s with
  | None => bool_decide (gradeBucket s = "High")
  | Some gh =>
      if Rlt_dec gh 12 then false
      else
        match gradeLow s with
        | Some gl =>
            if Rge_dec gl 9 then true
            else bool_decide (gradeBucket s = "High")
        | None => bool_decide (gradeBucket s = "High")
        end
  end.

Definition isElementary (s : SchoolCandidate) : bool :=
  if bool_decide (gradeBucket s = "Elementary") then true
  else
    match gradeHigh s with
    | Some gh => if Rle_dec gh 6 then true else false
    | None => false
    end.

Definition bucketPriority (b : string) : R :=
  if bool_decide (b = "High") then 0
  else if bool_decide (b = "Middle") then 1
  else if bool_decide (b = "Elementary") then 2
  else 3.

(** [c.enrollment != null && c.enrollment > 0] *)
Definition hasPositiveEnrollment (c : SchoolCandidate) : bool :=
  match enrollment c with
  | Some e => if Rgt_dec e 0 then true else false
  | None => false
  end.

(** [winner.enrollment == null || winner.enrollment <= 0] *)
Definition lacksEnrollment (c : SchoolCandidate) : bool :=
  match enrollment c with
  | Some e => if Rle_dec e 0 then true else false
  | None => true
  end.

(** [(h != null && l != null) ? h - l : -1] *)
Definition gradeSpan (c : SchoolCandidate) : R :=
  match gradeHigh c, gradeLow c with
  | Some h, Some l => h - l
  | _, _ => -1
  end.

(** [Math.round(x * 1e6) / 1e6], on the reals.  The code rounds the
    double nearest to the product, which on a tie of the real product
    can fall one millionth away from this value. *)
Definition round6 (x : R) : R := Math_round (x * 1000000) / 1000000.

Definition anchorSchoolOf (winner : SchoolCandidate) : anchors.AnchorSchool :=
  {| anchors.name := name winner;
     anchors.ncesId := ncesId winner;
     anchors.enrollment := enrollment winner;
     anchors.gradeLow := gradeLow winner;
     anchors.gradeHigh := gradeHigh winner;
     anchors.gradeBucket := gradeBucket winner;
     anchors.districtGeoid := districtGeoid winner;
     anchors.districtName := districtName winner |}.

Section ranking.
Variable localeCompare : string → string → R.

(** The comparator of [rankCandidates]. *)
Definition rankCmp (a b : SchoolCandidate) : R :=
  let ea := default (-1) (enrollment a) in
  let eb := default (-1) (enrollment b) in
  if Req_dec_T eb ea then
    let pa := bucketPriority (gradeBucket a) in
    let pb := bucketPriority (gradeBucket b) in
    if Req_dec_T pa pb then
      let spanA := gradeSpan a in
      let spanB := gradeSpan b in
      if Req_dec_T spanB spanA then localeCompare (name a) (name b)
      else spanB - spanA
    else pa - pb
  else eb - ea.

Definition rankCandidates (candidates : list SchoolCandidate)
  : list SchoolCandidate :=
  sortBy rankCmp candidates.

(** [None] is the [TypeError] of reading [winner.enrollment] when
    [ranked[0]] is [undefined]. *)
Definition pickBest (candidates : list SchoolCandidate)
  : option (SchoolCandidate * list string) :=
  let flags : list string := [] in
  let nonCharter := filter (λ c, likelyCharter c = false) candidates in
  let withEnrollment :=
    filter (λ c, hasPositiveEnrollment c = true) nonCharter in
  let pool :=
    if decide (0 < length withEnrollment)%nat then withEnrollment
    else if decide (0 < length nonCharter)%nat then nonCharter
    else candidates in
  let ranked := rankCandidates pool in
  winner ← head ranked;
  let flags :=
    if lacksEnrollment winner
    then flags ++ ["anchor_used_heuristic_no_enrollment"] else flags in
  let flags :=
    if likelyCharter winner then flags ++ ["anchor_may_be_charter"]
    else flags in
  let flags :=
    match gradeLow winner, gradeHigh winner with
    | None, None => flags ++ ["anchor_missing_grade_span"]
    | _, _ => flags
    end in
  Some (winner, flags).

Definition buildAnchor (fb : FallbackInfo) (candidates : list SchoolCandidate)
  : option anchors.DistrictAnchor :=
  let hsCandidates := filter (λ c, isHighSchool c = true) candidates in
  let elemCandidates := filter (λ c, isElementary c = true) candidates in
  if decide (0 < length hsCandidates)%nat then
    '(winner, flags) ← pickBest hsCandidates;
    let flags := flags ++ ["anchor_high_school"] in
    Some {| anchors.displayName := displayName fb;
            anchors.lat := round6 (lat winner);
            anchors.lon := round6 (lon winner);
            anchors.anchorType := "high_school";
            anchors.anchorSchool := Some (anchorSchoolOf winner);
            anchors.flags := flags |}
  else if decide (0 < length elemCandidates)%nat then
    '(winner, flags) ← pickBest elemCandidates;
    let flags := flags ++ ["anchor_elementary_school"] in
    Some {| anchors.displayName := displayName fb;
            anchors.lat := round6 (lat winner);
            anchors.lon := round6 (lon winner);
            anchors.anchorType := "elementary_school";
            anchors.anchorSchool := Some (anchorSchoolOf winner);
            anchors.flags := flags |}
  else
    Some {| anchors.displayName := displayName fb;
            anchors.lat := round6 (fb_lat fb);
            anchors.lon := round6 (fb_lon fb);
            anchors.anchorType := "fallback";
            anchors.anchorSchool := None;
            anchors.flags := flags fb ++ ["anchor_fallback_no_school_candidates"] |}.

End ranking.
End buildAnchors.

(* ===================================================================== *)
(** * Part II: vocabulary of the statements                              *)
(* ===================================================================== *)

Module EstimatorSpec.
Import consolidationV1.
Local Open Scope R_scope.

(** What the enrollment test decides: no record with a positive total. *)
Definition hasEnrollment (enrollments : LeaEnrollmentMap) (k : string) : Prop :=
  ∃ e, enrollments !! k = Some e ∧ 0 < enrollmentData.total e.

(** Every field of the result other than [warnings], [missing] and [ok]
    has the value it has in [empty]. *)
Definition fieldsDefaulted (r : ConsolidationResultV1) : Prop :=
  hubKey r = "" ∧ hubName r = "" ∧
  combinedEnrollment r = 0 ∧ combinedSpending r = 0 ∧
  hubSpending r = 0 ∧ spokesSpending r = 0 ∧
  baselinePerPupil r = 0 ∧ adminBaselineHub r = 0 ∧
  adminBaselineSpokes r = 0 ∧ adminSavings r = 0 ∧
  transportationIncrease r = 0 ∧ netImpact r = 0 ∧
  projectedSpending r = 0 ∧ projectedPerPupil r = 0 ∧
  adminSavingsPctCombined r = 0 ∧ transportIncreasePctCombined r = 0 ∧
  netImpactPctCombined r = 0 ∧ adminSavingsPctSpokesSpending r = 0 ∧
  transportIncreasePctSpokesSpending r = 0 ∧
  netImpactPctSpokesSpending r = 0.

(** A rate or a share brought into [0,1], in the words of the
    specification: a value below 0 becomes 0, a value above 1 becomes 1,
    and a value of [0,1] is kept as it is. *)
Definition intoUnitInterval (v : R) : R :=
  if Rlt_dec v 0 then 0 else if Rgt_dec v 1 then 1 else v.

(** A cost brought into [0,∞): a negative value becomes 0, any other
    value is kept as it is. *)
Definition intoNonNegative (v : R) : R := if Rlt_dec v 0 then 0 else v.

(** ** A worked selection

    Three districts with all three records (two of them with the figures
    of the third example scenario: 10,000 and 2,000 pupils, modelled
    administration of $500,000 and $100,000), and a fourth key that has no
    anchor. *)

Definition sampleBudget (n : string) (spend admin : R) (fl : list string)
  : budgets.DistrictBudget :=
  {| budgets.displayName := n; budgets.sourceFile := "uca.csv";
     budgets.fiscalYear := "FY2024";
     budgets.totalExpenditures := spend;
     budgets.centralAdministration := admin;
     budgets.centralAdministrationModel := admin;
     budgets.adminShareOfTotal := None;
     budgets.adminShareOfTotalModel := None;
     budgets.components :=
       {| budgets.districtManagement := admin;
          budgets.programOperationsManagement := 0 |};
     budgets.componentsModel :=
       {| budgets.districtManagement := admin;
          budgets.programOperationsManagement := 0 |};
     budgets.flags := fl |}.

Definition sampleAnchor (n : string) (la lo : R) : anchors.DistrictAnchor :=
  {| anchors.displayName := n; anchors.lat := la; anchors.lon := lo;
     anchors.anchorType := "fallback"; anchors.anchorSchool := None;
     anchors.flags := [] |}.

Definition sampleBudgets : BudgetsMap :=
  <["providence" := sampleBudget "Providence" 400000000 500000 ["admin_share_outlier"]]>
  (<["barrington" := sampleBudget "Barrington" 60000000 100000 []]>
  (<["cranston" := sampleBudget "Cranston" 190000000 300000 []]>
  (<["newport" := sampleBudget "Newport" 50000000 90000 []]> ∅))).

Definition sampleEnrollments : LeaEnrollmentMap :=
  <["providence" := {| enrollmentData.distcode := "28";
                       enrollmentData.distname := "Providence";
                       enrollmentData.total := 10000 |}]>
  (<["barrington" := {| enrollmentData.distcode := "01";
                        enrollmentData.distname := "Barrington";
                        enrollmentData.total := 2000 |}]>
  (<["cranston" := {| enrollmentData.distcode := "07";
                      enrollmentData.distname := "Cranston";
                      enrollmentData.total := 10000 |}]>
  (<["newport" := {| enrollmentData.distcode := "21";
                     enrollmentData.distname := "Newport";
                     enrollmentData.total := 1900 |}]> ∅))).

Definition sampleAnchors : DistrictAnchorsMap :=
  <["providence" := sampleAnchor "Providence" (4182 / 100) (- 7141 / 100)]>
  (<["barrington" := sampleAnchor "Barrington" (4174 / 100) (- 7131 / 100)]>
  (<["cranston" := sampleAnchor "Cranston" (4178 / 100) (- 7144 / 100)]> ∅)).

Definition sampleParams : ConsolidationParamsV1 :=
  {| adminReductionRate := 1 / 2; costPerStudentMile := 3; affectedShare := 1 |}.

Definition sampleKeys : list string :=
  ["barrington"; "providence"; "barrington"; "cranston"].

(** ** Keys that name a property of [Object.prototype] *)

(** Nothing stands for the key [k] in a dataset: no record of its own,
    and [k] is not the name of a property that every object inherits. *)
Definition absentFrom {T : Type} (obj : gmap string T) (k : string) : Prop :=
  obj !! k = None ∧ k ∉ objectPrototypeNames.

(** The warning of one budget flag: the display name of the district, a
    colon, a space, and the flag. *)
Definition flagWarning (displayName flag : string) : string :=
  displayName +:+ ": " +:+ flag.

(** The warnings of the budget flags of the keys [l], in the order of the
    keys and, for each key, of its flags. *)
Definition expectedFlagWarnings (budgets : BudgetsMap) (l : list string)
  : list string :=
  k ← l;
  match budgets !! k with
  | Some b => flagWarning (budgets.displayName b) <$> budgets.flags b
  | None => []
  end.

(** The worked enrollments with a record under the key ["constructor"],
    a key for which the worked budgets and anchors have no record. *)
Definition strayEnrollments : LeaEnrollmentMap :=
  <["constructor" := {| enrollmentData.distcode := "99";
                        enrollmentData.distname := "Constructor";
                        enrollmentData.total := 500 |}]> sampleEnrollments.

End EstimatorSpec.

Module DistanceSpec.
Import geoDistance.
Local Open Scope R_scope.

(** The haversine term of [milesBetween]. *)
Definition haversine (a b : LatLon) : R :=
  sin (toRad (lat b - lat a) / 2) * sin (toRad (lat b - lat a) / 2) +
  cos (toRad (lat a)) * cos (toRad (lat b)) *
    sin (toRad (lon b - lon a) / 2) * sin (toRad (lon b - lon a) / 2).



End DistanceSpec.

Module NormalizerSpec.
Import jsString normalize.
Local Open Scope N_scope.

(** The first part of [normalizeDistrictName]: the chain of [toLowerCase],
    [trim] and the five [replace] calls. *)
Definition cleanName (s : list N) : list N :=
  trim
    (replaceAll matchSpaces (lit " ") 0
    (replaceAll matchParen (lit " ") 0
    (replaceAll (matchClass (λ c, negb (isWord c || isSpace c))) [] 0
    (replaceAll (matchClass isDash) (lit " ") 0
    (replaceAll matchAmp (lit " and ") 0
    (trim (toLowerCase s))))))).

(** The two suffix lists of [normalizeDistrictName]. *)
Definition suffixes : list (list N) :=
  [lit " regional school district"; lit " school district";
   lit " public schools"].

Definition levelSuffixes : list (list N) := [lit " elementary"; lit " secondary"].

(** The code units of a normalized name: lower-case letters, digits, the
    underscore and the space. *)
Definition keyChar (c : N) : Prop :=
  48 <= c <= 57 ∨ c = 95 ∨ 97 <= c <= 122 ∨ c = 32.

(** The code units left by the third replacement: word characters that
    are not capitals, and white space. *)
Definition keptChar (c : N) : Prop :=
  isUpper c = false ∧ (isWord c = true ∨ isSpace c = true).

(** [spaced prev t]: no two neighbours in [t] are both white space, and
    [t] does not start with white space if [prev] is set. *)
Fixpoint spaced (prev : bool) (t : list N) : bool :=
  match t with
  | [] => true
  | c :: rest => negb (prev && isSpace c) && spaced (isSpace c) rest
  end.

(** Key characters only, single spaces between the words, none at either
    end. *)
Definition Clean (t : list N) : Prop :=
  Forall keyChar t ∧ spaced true t = true ∧
  ∀ c, last t = Some c → isSpace c = false.

(** All five suffixes start with a space. *)
Definition spaceLed (sufs : list (list N)) : Prop :=
  Forall (λ suf, ∃ rest, suf = 32 :: rest) sufs.

(** The names, as strings of code units, of the properties that every
    object inherits from [Object.prototype].  Reading an alias table at
    such a name finds the inherited property and not [undefined], so the
    alias tables are finite maps only away from these names; of the
    twelve, ["constructor"] and ["__proto__"] are normal forms. *)
Definition inheritedName (n : list N) : Prop :=
  n ∈ (lit <$> consolidationV1.objectPrototypeNames).

End NormalizerSpec.

(** Figures and sample inputs for the statements on the build scripts. *)
Module BuildSpec.
Import consolidationV1.
Local Open Scope R_scope.

(** A raw figure as the model counts it: a negative one as zero. *)
Definition modelPart (x : R) : R := if Rlt_dec x 0 then 0 else x.

(** Every record of the map is an output of [processFile]. *)
Definition builtBy (budgets : BudgetsMap) : Prop :=
  ∀ k b, budgets !! k = Some b → ∃ name file raw, b = buildBudgets.processFile name file raw.

Definition sampleRaw (n : string) (total dm pom : R) (fl : list string)
  : buildBudgets.RawBudget :=
  {| buildBudgets.displayName := n; buildBudgets.sourceFile := "uca.csv";
     buildBudgets.fiscalYear := "FY2024-25";
     buildBudgets.totalExpenditures := total;
     buildBudgets.districtManagement := dm;
     buildBudgets.programOpsManagement := pom; buildBudgets.flags := fl |}.

(** Providence with an administration share of 18 percent, Barrington
    with a negative district management figure. *)
Definition rawProvidence : buildBudgets.RawBudget :=
  sampleRaw "Providence" 400000000 70000000 2000000 [].

Definition rawBarrington : buildBudgets.RawBudget :=
  sampleRaw "Barrington" 60000000 (-5) 100000 ["missing_district_management"].

Definition rawUnknown : buildBudgets.RawBudget :=
  sampleRaw "Foster" 0 300 (-20) ["missing_total_expenditures"].

Definition builtBudgets : BudgetsMap :=
  <["providence" := buildBudgets.processFile "Providence" "uca.csv" (Some rawProvidence)]>
  (<["barrington" := buildBudgets.processFile "Barrington" "uca.csv" (Some rawBarrington)]>
  (<["cranston" := buildBudgets.processFile "Cranston" "uca.csv" None]> ∅)).

(** A comparison of names by code units, standing for [localeCompare]. *)
Definition sampleCompare (a b : string) : R :=
  match String.compare a b with
  | Lt => -1
  | Eq => 0
  | Gt => 1
  end.

Definition sampleSchool (n bucket : string) (lo hi : option R) (la lg : R)
    (enr : option R) (charter : bool) : buildAnchors.SchoolCandidate :=
  {| buildAnchors.name := n; buildAnchors.ncesId := "440000000000";
     buildAnchors.gradeLow := lo; buildAnchors.gradeHigh := hi;
     buildAnchors.gradeBucket := bucket;
     buildAnchors.districtGeoid := "4400000";
     buildAnchors.districtName := "Providence";
     buildAnchors.lat := la; buildAnchors.lon := lg;
     buildAnchors.enrollment := enr; buildAnchors.likelyCharter := charter |}.

Definition classical : buildAnchors.SchoolCandidate :=
  sampleSchool "Classical High School" "High" (Some 9) (Some 12)
    (4182 / 100) (- 7142 / 100) (Some 1200) false.

Definition sampleCandidates : list buildAnchors.SchoolCandidate :=
  [ sampleSchool "Times2 Academy" "High" (Some 9) (Some 12)
      (4183 / 100) (- 7141 / 100) (Some 1500) true;
    classical;
    sampleSchool "Hope High School" "High" (Some 9) (Some 12)
      (4184 / 100) (- 7140 / 100) None false;
    sampleSchool "Vartan Gregorian Elementary" "Elementary" None (Some 5)
      (4181 / 100) (- 7139 / 100) (Some 400) false ].

Definition sampleFallback : buildAnchors.FallbackInfo :=
  {| buildAnchors.displayName := "Providence";
     buildAnchors.fb_lat := 4182 / 100; buildAnchors.fb_lon := - 7141 / 100;
     buildAnchors.geoid := "4400000"; buildAnchors.flags := [] |}.

End BuildSpec.

(** Sums and per-district figures used to state what the estimator adds
    up. *)
Module EstimatorTerms.
Import geoDistance consolidationV1.
Local Open Scope R_scope.

Definition sumOf {A : Type} (f : A → R) (l : list A) : R :=
  foldr (λ k acc, f k + acc) 0 l.

Definition totalOf (enrollments : LeaEnrollmentMap) (k : string) : R :=
  from_option enrollmentData.total 0 (enrollments !! k).

Definition spendingOf (budgets : BudgetsMap) (k : string) : R :=
  from_option budgets.totalExpenditures 0 (budgets !! k).

Definition adminOf (budgets : BudgetsMap) (k : string) : R :=
  from_option budgets.centralAdministrationModel 0 (budgets !! k).

Definition anchorPoint (a : anchors.DistrictAnchor) : LatLon :=
  {| lat := anchors.lat a; lon := anchors.lon a |}.

Definition anchorPointOf (anchors : DistrictAnchorsMap) (k : string) : LatLon :=
  from_option anchorPoint {| lat := 0; lon := 0 |} (anchors !! k).

Definition anchorNameOf (anchors : DistrictAnchorsMap) (k : string) : string :=
  from_option anchors.displayName "" (anchors !! k).

(** The distance from the anchor of [k] to the anchor of [hub]. *)
Definition spokeDistance (anchors : DistrictAnchorsMap) (hub k : string) : R :=
  milesBetween (anchorPointOf anchors k) (anchorPointOf anchors hub).

(** The unrounded transportation cost of the spoke [k]. *)
Definition spokeCost (enrollments : LeaEnrollmentMap)
    (anchors : DistrictAnchorsMap) (params : ConsolidationParamsV1)
    (hub k : string) : R :=
  spokeDistance anchors hub k * totalOf enrollments k *
  clamp (affectedShare params) 0 1 * Rmax 0 (costPerStudentMile params).

(** The breakdown entry pushed for the spoke [k]. *)
Definition spokeEntry (enrollments : LeaEnrollmentMap)
    (anchors : DistrictAnchorsMap) (params : ConsolidationParamsV1)
    (hub k : string) : SpokeDetail :=
  {| key := k;
     name := anchorNameOf anchors k;
     enrollment := totalOf enrollments k;
     distanceMiles := Math_round (spokeDistance anchors hub k * 10) / 10;
     cost := Math_round (spokeCost enrollments anchors params hub k) |}.

(** The warning pushed for the spoke [k], if its distance exceeds 60. *)
Definition spokeWarning (anchors : DistrictAnchorsMap) (hub k : string)
  : list string :=
  if Rgt_dec (spokeDistance anchors hub k) 60
  then [anchorNameOf anchors k +:+ ": distance " +:+
        toFixed1 (spokeDistance anchors hub k) +:+ " mi seems high"]
  else [].

(** The distinct selected keys other than [hub], in selection order. *)
Definition spokesOf (selectedKeys : list string) (hub : string) : list string :=
  filter (λ k, k ≠ hub) (uniqueKeys selectedKeys).

(** Every selected key has its three records. *)
Definition allPresent (budgets : BudgetsMap) (enrollments : LeaEnrollmentMap)
    (anchors : DistrictAnchorsMap) (selectedKeys : list string) : Prop :=
  ∀ k, k ∈ selectedKeys →
    is_Some (budgets !! k) ∧ EstimatorSpec.hasEnrollment enrollments k ∧
    is_Some (anchors !! k).

(** Latitudes within the range of WGS84. *)
Definition validLat (p : LatLon) : Prop := -90 <= lat p <= 90.

End EstimatorTerms.

(* ===================================================================== *)
(** * Part III: properties of the estimator                               *)
(* ===================================================================== *)

Module EstimatorFacts.
Import consolidationV1 EstimatorSpec.
Local Open Scope R_scope.

(** ** Lists *)

Lemma filter_none {A : Type} (P : A → Prop) `{∀ x, Decision (P x)} (l : list A) :
  (∀ x, x ∈ l → ¬ P x) → filter P l = [].
Proof.
  induction l as [|x l IH]; intros Hl; [done|].
  rewrite filter_cons_False by (apply Hl; left).
  apply IH. intros y Hy. apply Hl. by right.
Qed.

(** ** Deduplication *)

Lemma uniqueFrom_elem (seen : gset string) (keys : list string) (k : string) :
  k ∈ uniqueFrom seen keys ↔ k ∈ keys ∧ k ∉ seen.
Proof.
  revert seen. induction keys as [|x keys IH]; intros seen; simpl.
  - split; [intros H; inversion H | intros [H _]; inversion H].
  - case_decide as Hx.
    + rewrite IH, elem_of_cons. split; [tauto|].
      intros [[->|Hk] Hn]; [contradiction | tauto].
    + rewrite !elem_of_cons, IH. split.
      * intros [->|[Hk Hn]]; [tauto|]. split; [tauto|]. set_solver.
      * intros [[->|Hk] Hn]; [tauto|].
        destruct (decide (k = x)) as [->|Hne]; [tauto|]. right. split; [done|].
        set_solver.
Qed.

Lemma uniqueFrom_NoDup (seen : gset string) (keys : list string) :
  NoDup (uniqueFrom seen keys).
Proof.
  revert seen. induction keys as [|x keys IH]; intros seen; simpl.
  - constructor.
  - case_decide; [apply IH|]. constructor; [|apply IH].
    rewrite uniqueFrom_elem. set_solver.
Qed.

Lemma uniqueKeys_elem (keys : list string) (k : string) :
  k ∈ uniqueKeys keys ↔ k ∈ keys.
Proof. unfold uniqueKeys. rewrite uniqueFrom_elem. set_solver. Qed.

Lemma uniqueKeys_NoDup (keys : list string) : NoDup (uniqueKeys keys).
Proof. apply uniqueFrom_NoDup. Qed.

(** ** The presence check (first loop) *)

Section presence.
Variable budgets : BudgetsMap.
Variable enrollments : LeaEnrollmentMap.
Variable anchors : DistrictAnchorsMap.

Lemma enrollmentMissing_spec (k : string) :
  enrollmentMissing (enrollments !! k) = false ↔ hasEnrollment enrollments k.
Proof.
  unfold hasEnrollment, enrollmentMissing.
  destruct (enrollments !! k) as [e|].
  - destruct (Req_dec_T _ _) as [Hz|Hz]; [|destruct (Rle_dec _ _) as [Hl|Hl]].
    + split; [done|]. intros (e' & [= <-] & Hp). lra.
    + split; [done|]. intros (e' & [= <-] & Hp). lra.
    + split; [|done]. intros _. exists e. split; [done|lra].
  - split; [done|]. intros (e' & [=] & _).
Qed.

Lemma presence_foldl (st : Presence) (l : list string) :
  let r := foldl (presenceStep budgets enrollments anchors) st l in
  missingBudgets r =
    missingBudgets st ++ filter (λ k, notFound budgets k = true) l ∧
  missingEnrollment r =
    missingEnrollment st ++
    filter (λ k, enrollmentMissing (enrollments !! k) = true) l ∧
  missingAnchors r =
    missingAnchors st ++ filter (λ k, notFound anchors k = true) l ∧
  flagWarnings r =
    flagWarnings st ++
    concat ((λ k, from_option budgetWarnings [] (budgets !! k)) <$> l).
Proof.
  revert st. induction l as [|k l IH]; intros st; simpl.
  - rewrite !app_nil_r. done.
  - destruct (IH (presenceStep budgets enrollments anchors st k))
      as (H1 & H2 & H3 & H4).
    simpl. rewrite H1, H2, H3, H4. clear IH H1 H2 H3 H4.
    unfold presenceStep; simpl. rewrite !filter_cons.
    repeat split.
    + destruct (notFound budgets k); case_decide; simplify_eq;
        by rewrite <- ?app_assoc.
    + destruct (enrollmentMissing (enrollments !! k)); case_decide;
        simplify_eq; by rewrite <- ?app_assoc.
    + destruct (notFound anchors k); case_decide; simplify_eq;
        by rewrite <- ?app_assoc.
    + destruct (budgets !! k); simpl; [by rewrite <- app_assoc | done].
Qed.

Lemma presence_spec (l : list string) :
  let r := presence budgets enrollments anchors l in
  missingBudgets r = filter (λ k, notFound budgets k = true) l ∧
  missingEnrollment r =
    filter (λ k, enrollmentMissing (enrollments !! k) = true) l ∧
  missingAnchors r = filter (λ k, notFound anchors k = true) l ∧
  flagWarnings r =
    concat ((λ k, from_option budgetWarnings [] (budgets !! k)) <$> l).
Proof.
  pose proof (presence_foldl (Build_Presence [] [] [] []) l) as H.
  simpl in H. exact H.
Qed.

(** When the three lists are empty, every key passed the three tests. *)
Lemma presence_all (l : list string) (k : string) :
  let r := presence budgets enrollments anchors l in
  missingBudgets r = [] → missingEnrollment r = [] → missingAnchors r = [] →
  k ∈ l →
  notFound budgets k = false ∧ hasEnrollment enrollments k ∧
  notFound anchors k = false.
Proof.
  intros r. destruct (presence_spec l) as (H1 & H2 & H3 & _). fold r in H1, H2, H3.
  rewrite H1, H2, H3. intros Hb He Ha Hk. repeat split.
  - destruct (notFound budgets k) eqn:E; [|done].
    exfalso. eapply (filter_nil_not_elem_of _ _ k Hb); done.
  - apply enrollmentMissing_spec.
    destruct (enrollmentMissing (enrollments !! k)) eqn:E; [|done].
    exfalso. eapply (filter_nil_not_elem_of _ _ k He); done.
  - destruct (notFound anchors k) eqn:E; [|done].
    exfalso. eapply (filter_nil_not_elem_of _ _ k Ha); done.
Qed.

Lemma notFound_own {T : Type} (obj : gmap string T) (k : string) :
  is_Some (obj !! k) → notFound obj k = false.
Proof. intros [v Hv]. unfold notFound. by rewrite Hv. Qed.

Lemma notFound_spec {T : Type} (obj : gmap string T) (k : string) :
  notFound obj k = true ↔ obj !! k = None ∧ k ∉ objectPrototypeNames.
Proof.
  unfold notFound. destruct (obj !! k) as [v|].
  - split; [done|]. by intros [? _].
  - rewrite negb_true_iff, bool_decide_eq_false. tauto.
Qed.

End presence.
(** ** The three loops of the estimate *)

Lemma forOf_cons {S A : Type} (body : S → A → option S) (st : S) (k : A)
    (l : list A) :
  forOf body st (k :: l) = body st k ≫= λ st', forOf body st' l.
Proof. reflexivity. Qed.

(** Splits the first iteration off a loop hypothesis [H]; the step taken is
    left in [Hs], unfolded. *)
Ltac loop_step H step Hs :=
  rewrite forOf_cons in H;
  match type of H with
  | (?b ≫= _) = Some _ =>
      let st := fresh "st" in
      destruct b as [st|] eqn:Hs; simpl in H; [|discriminate H];
      unfold step in Hs
  end.

Section loops.
Variable budgets : BudgetsMap.
Variable enrollments : LeaEnrollmentMap.
Variable anchors : DistrictAnchorsMap.

(** Hub loop: the state only grows, it ends at least as large as every
    total met, and when the hub changes it is the first key whose total
    reaches the final value. *)
Lemma hub_loop (l : list string) (hk hk' : string) (he he' : R) :
  forOf (hubStep enrollments) (hk, he) l = Some (hk', he') →
  he <= he' ∧
  (∀ k e, k ∈ l → enrollments !! k = Some e → enrollmentData.total e <= he') ∧
  ((hk' = hk ∧ he' = he) ∨
   ∃ l1 l2 e,
     l = l1 ++ hk' :: l2 ∧ enrollments !! hk' = Some e ∧
     enrollmentData.total e = he' ∧ he < he' ∧
     ∀ k e', k ∈ l1 → enrollments !! k = Some e' → enrollmentData.total e' < he').
Proof.
  revert hk he. induction l as [|k l IH]; intros hk he H.
  - injection H as <- <-. split; [lra|]. split; [|by left].
    intros k e Hk. inversion Hk.
  - loop_step H hubStep Hs.
    destruct (enrollments !! k) as [e|] eqn:Ek; simpl in Hs; [|done].
    injection Hs as <-.
    destruct (Rgt_dec (enrollmentData.total e) he) as [Hgt|Hle].
    + apply IH in H as (H1 & H2 & H3). split; [lra|]. split.
      * intros k0 e0 [->|Hk0]%elem_of_cons E0; [|eauto].
        rewrite Ek in E0. injection E0 as <-. done.
      * right. destruct H3 as [[-> ->]|(l1 & l2 & e1 & -> & E1 & Ht & Hlt & Hl1)].
        -- exists [], l, e. repeat split; try done; try lra.
           intros k0 e0 Hk0. inversion Hk0.
        -- exists (k :: l1), l2, e1. repeat split; try done; try lra.
           intros k0 e0 [->|Hk0]%elem_of_cons E0; [|eauto].
           rewrite Ek in E0. injection E0 as <-. lra.
    + apply IH in H as (H1 & H2 & H3). split; [lra|]. split.
      * intros k0 e0 [->|Hk0]%elem_of_cons E0; [|eauto].
        rewrite Ek in E0. injection E0 as <-. lra.
      * destruct H3 as [[-> ->]|(l1 & l2 & e1 & -> & E1 & Ht & Hlt & Hl1)]; [by left|].
        right. exists (k :: l1), l2, e1. repeat split; try done.
        intros k0 e0 [->|Hk0]%elem_of_cons E0; [|eauto].
        rewrite Ek in E0. injection E0 as <-. lra.
Qed.

(** Spoke loop: one entry is pushed for every key other than the hub, in
    the order of the keys, carrying the key and its enrollment total. *)
Lemma spoke_loop (hk : string) (ha : anchors.DistrictAnchor) (share cpsm : R)
    (l : list string) (bd bd' : list SpokeDetail) (ti ti' : R)
    (w w' : list string) :
  forOf (spokeStep enrollments anchors hk ha share cpsm) (bd, ti, w) l
    = Some (bd', ti', w') →
  ∃ new,
    bd' = bd ++ new ∧
    key <$> new = filter (λ k, k ≠ hk) l ∧
    ∀ d, d ∈ new →
      ∃ e, enrollments !! key d = Some e ∧ enrollment d = enrollmentData.total e.
Proof.
  revert bd bd' ti ti' w w'.
  induction l as [|k l IH]; intros bd bd' ti ti' w w' H.
  - injection H as <- <- <-. exists []. rewrite app_nil_r. repeat split.
    intros d Hd. inversion Hd.
  - loop_step H spokeStep Hs. rewrite filter_cons.
    destruct (decide (k = hk)) as [->|Hne].
    + injection Hs as <-.
      rewrite decide_False by (intros Hc; by apply Hc). by apply IH in H.
    + rewrite decide_True by done.
      destruct (anchors !! k) as [a|] eqn:Ea; simpl in Hs; [|done].
      destruct (enrollments !! k) as [e|] eqn:Ee; simpl in Hs; [|done].
      injection Hs as <-.
      apply IH in H as (new & -> & Hkeys & Hnew).
      eexists (_ :: new). split; [by rewrite <- app_assoc|].
      split; [by rewrite fmap_cons, Hkeys|].
      intros d [->|Hd]%elem_of_cons; [|eauto]. simpl. eauto.
Qed.

(** The loops cannot throw once every key has its records. *)
Lemma hub_loop_total (l : list string) (st : string * R) :
  (∀ k, k ∈ l → is_Some (enrollments !! k)) →
  is_Some (forOf (hubStep enrollments) st l).
Proof.
  revert st. induction l as [|k l IH]; intros st Hl; [by eexists|].
  rewrite forOf_cons. destruct (Hl k) as [e Ee]; [left|].
  destruct (hubStep enrollments st k) as [st'|] eqn:Hs; simpl.
  - apply IH. intros k' Hk'. apply Hl. by right.
  - unfold hubStep in Hs. rewrite Ee in Hs. discriminate Hs.
Qed.

Lemma totals_loop_total (hk : string) (l : list string) (st : R * R * R) :
  (∀ k, k ∈ l → is_Some (enrollments !! k) ∧ is_Some (budgets !! k)) →
  is_Some (forOf (totalsStep budgets enrollments hk) st l).
Proof.
  revert st. induction l as [|k l IH]; intros [[cE cS] aS] Hl; [by eexists|].
  rewrite forOf_cons. destruct (Hl k) as [[e Ee] [b Eb]]; [left|].
  destruct (totalsStep budgets enrollments hk (cE, cS, aS) k) as [st'|] eqn:Hs;
    simpl.
  - apply IH. intros k' Hk'. apply Hl. by right.
  - unfold totalsStep in Hs. rewrite Ee, Eb in Hs. discriminate Hs.
Qed.

Lemma spoke_loop_total (hk : string) (ha : anchors.DistrictAnchor)
    (share cpsm : R) (l : list string) (st : list SpokeDetail * R * list string) :
  (∀ k, k ∈ l → is_Some (enrollments !! k) ∧ is_Some (anchors !! k)) →
  is_Some (forOf (spokeStep enrollments anchors hk ha share cpsm) st l).
Proof.
  revert st. induction l as [|k l IH]; intros [[bd ti] w] Hl; [by eexists|].
  assert (∀ k', k' ∈ l → is_Some (enrollments !! k') ∧ is_Some (anchors !! k'))
    as Hl' by (intros k' Hk'; apply Hl; by right).
  rewrite forOf_cons.
  destruct (spokeStep enrollments anchors hk ha share cpsm (bd, ti, w) k)
    as [st'|] eqn:Hs; simpl; [by apply IH|].
  unfold spokeStep in Hs. destruct (decide (k = hk)); [discriminate Hs|].
  destruct (Hl k) as [[e Ee] [a Ea]]; [left|]. rewrite Ea, Ee in Hs.
  discriminate Hs.
Qed.

End loops.
(** ** The shape of a successful estimate *)

Section estimate.
Variable budgets : BudgetsMap.
Variable enrollments : LeaEnrollmentMap.
Variable anchors : DistrictAnchorsMap.

(** What an [ok: true] result was computed from: the selection passed both
    guards, the three loops ran to their end, and the fields of the result
    are the values named in the source. *)
Lemma compute_ok_inv (keys : list string) (params : ConsolidationParamsV1)
    (r : ConsolidationResultV1) :
  computeConsolidationV1 budgets enrollments anchors keys params = Some (Result r) →
  ok r = true →
  let unique := uniqueKeys keys in
  let p := presence budgets enrollments anchors unique in
  ∃ first hubEnroll hubAnchor hubBudget cE cS aS bd w,
    (2 <= length unique)%nat ∧
    missingBudgets p = [] ∧ missingEnrollment p = [] ∧ missingAnchors p = [] ∧
    head unique = Some first ∧
    forOf (hubStep enrollments) (first, 0) unique = Some (hubKey r, hubEnroll) ∧
    anchors !! hubKey r = Some hubAnchor ∧
    budgets !! hubKey r = Some hubBudget ∧
    forOf (totalsStep budgets enrollments (hubKey r)) (0, 0, 0) unique
      = Some (cE, cS, aS) ∧
    forOf (spokeStep enrollments anchors (hubKey r) hubAnchor
             (clamp (affectedShare params) 0 1)
             (Rmax 0 (costPerStudentMile params)))
          ([], 0, flagWarnings p) unique
      = Some (bd, transportationIncrease r, w) ∧
    spokeBreakdown r = sortBy (λ a b, cost b - cost a) bd ∧
    combinedSpending r = cS ∧
    adminSavings r = clamp (adminReductionRate params) 0 1 * aS ∧
    netImpact r = adminSavings r - transportationIncrease r ∧
    projectedSpending r = combinedSpending r - netImpact r ∧
    missing r = {| missing_budgets := []; missing_enrollment := [];
                   missing_anchors := [] |}.
Proof.
  intros H Hok unique p. unfold computeConsolidationV1 in H.
  fold unique in H. fold p in H.
  destruct (decide (length unique < 2)%nat) as [Hlen|Hlen].
  { injection H as <-. discriminate Hok. }
  destruct (negb (_ && _)) eqn:Hchk.
  { injection H as <-. discriminate Hok. }
  apply negb_false_iff in Hchk.
  apply andb_true_iff in Hchk as [Hchk Ha].
  apply andb_true_iff in Hchk as [Hb He].
  apply bool_decide_eq_true in Hb, He, Ha.
  destruct (negb (bool_decide (Forall _ unique))); [discriminate H|].
  destruct (head unique) as [first|] eqn:Hfirst; simpl in H; [|discriminate H].
  destruct (forOf (hubStep enrollments) _ _) as [[hk he]|] eqn:Hhub;
    simpl in H; [|discriminate H].
  destruct (anchors !! hk) as [ha|] eqn:Hha; simpl in H; [|discriminate H].
  destruct (budgets !! hk) as [hb|] eqn:Hhb; simpl in H; [|discriminate H].
  destruct (forOf (totalsStep _ _ _) _ _) as [[[cE cS] aS]|] eqn:Htot;
    simpl in H; [|discriminate H].
  destruct (forOf (spokeStep _ _ _ _ _ _) _ _) as [[[bd ti] w]|] eqn:Hsp;
    simpl in H; [|discriminate H].
  injection H as <-. simpl.
  exists first, he, ha, hb, cE, cS, aS, bd, w.
  repeat split; try done. lia.
Qed.

(** The estimator never throws: both guards return a result, and past
    them every record read by the loops is there. *)
Lemma compute_total (keys : list string) (params : ConsolidationParamsV1) :
  is_Some (computeConsolidationV1 budgets enrollments anchors keys params).
Proof.
  unfold computeConsolidationV1.
  set (unique := uniqueKeys keys).
  set (p := presence budgets enrollments anchors unique).
  destruct (decide (length unique < 2)%nat) as [Hlen|Hlen]; [by eexists|].
  destruct (negb (_ && _)) eqn:Hchk; [by eexists|].
  apply negb_false_iff in Hchk.
  apply andb_true_iff in Hchk as [Hchk Ha].
  apply andb_true_iff in Hchk as [Hb He].
  apply bool_decide_eq_true in Hb, He, Ha.
  destruct (negb (bool_decide (Forall _ unique))) eqn:Hown; [by eexists|].
  apply negb_false_iff, bool_decide_eq_true in Hown.
  rewrite Forall_forall in Hown.
  assert (∀ k, k ∈ unique →
            is_Some (budgets !! k) ∧ is_Some (enrollments !! k) ∧
            is_Some (anchors !! k)) as Hall.
  { intros k Hk.
    destruct (presence_all budgets enrollments anchors unique k Hb He Ha Hk)
      as (_ & (e & ? & _) & _).
    destruct (Hown k Hk) as [? ?]. eauto. }
  destruct unique as [|first rest] eqn:Hu; [simpl in Hlen; lia|].
  rewrite <- Hu in *. rewrite Hu at 1. simpl.
  destruct (hub_loop_total enrollments unique (first, 0)) as [[hk he] Hhub].
  { intros k Hk. by apply Hall. }
  rewrite Hhub. simpl.
  assert (hk ∈ unique) as Hhk.
  { apply hub_loop in Hhub as (_ & _ & [[-> _]|(l1 & l2 & _ & -> & _)]).
    - rewrite Hu. left.
    - apply elem_of_app. right. left. }
  destruct (Hall hk Hhk) as ([hb Ehb] & _ & [ha Eha]).
  rewrite Eha, Ehb. simpl.
  destruct (totals_loop_total budgets enrollments hk unique (0, 0, 0))
    as [[[cE cS] aS] Htot].
  { intros k Hk. split; by apply Hall. }
  rewrite Htot. simpl.
  destruct (spoke_loop_total enrollments anchors hk ha
              (clamp (affectedShare params) 0 1)
              (Rmax 0 (costPerStudentMile params)) unique
              ([], 0, flagWarnings p)) as [[[bd ti] w] Hsp].
  { intros k Hk. split; by apply Hall. }
  rewrite Hsp. simpl. by eexists.
Qed.

(** Past both guards the result is [ok: true]. *)
Lemma compute_ok_intro (keys : list string) (params : ConsolidationParamsV1) :
  (2 <= length (uniqueKeys keys))%nat →
  (∀ k, k ∈ keys →
     is_Some (budgets !! k) ∧ hasEnrollment enrollments k ∧
     is_Some (anchors !! k)) →
  ∃ r, computeConsolidationV1 budgets enrollments anchors keys params
         = Some (Result r) ∧
       ok r = true.
Proof.
  intros Hlen Hall.
  destruct (compute_total keys params) as [o Hr].
  enough (∃ r, o = Result r ∧ ok r = true) as (r & -> & Hok) by by exists r.
  unfold computeConsolidationV1 in Hr.
  set (unique := uniqueKeys keys) in *.
  set (p := presence budgets enrollments anchors unique) in *.
  destruct (decide (length unique < 2)%nat) as [Hl|_]; [lia|].
  destruct (presence_spec budgets enrollments anchors unique)
    as (Hb & He & Ha & _). fold p in Hb, He, Ha.
  assert (missingBudgets p = []) as Eb.
  { rewrite Hb. apply filter_none. intros k Hk.
    apply uniqueKeys_elem, Hall in Hk as (Hk & _).
    by rewrite (notFound_own _ _ Hk). }
  assert (missingEnrollment p = []) as Ee.
  { rewrite He. apply filter_none. intros k Hk.
    apply uniqueKeys_elem, Hall in Hk as (_ & Hk & _).
    apply enrollmentMissing_spec in Hk. by rewrite Hk. }
  assert (missingAnchors p = []) as Ea.
  { rewrite Ha. apply filter_none. intros k Hk.
    apply uniqueKeys_elem, Hall in Hk as (_ & _ & Hk).
    by rewrite (notFound_own _ _ Hk). }
  rewrite Eb, Ee, Ea in Hr. simpl in Hr.
  rewrite bool_decide_eq_true_2 in Hr.
  2:{ apply Forall_forall. intros k Hk.
      apply uniqueKeys_elem, Hall in Hk as (? & _ & ?). done. }
  simpl in Hr.
  destruct (head unique); simpl in Hr; [|discriminate Hr].
  destruct (forOf (hubStep _) _ _) as [[hk he]|]; simpl in Hr; [|discriminate Hr].
  destruct (anchors !! hk); simpl in Hr; [|discriminate Hr].
  destruct (budgets !! hk); simpl in Hr; [|discriminate Hr].
  destruct (forOf (totalsStep _ _ _) _ _) as [[[cE cS] aS]|]; simpl in Hr;
    [|discriminate Hr].
  destruct (forOf (spokeStep _ _ _ _ _ _) _ _) as [[[bd ti] w]|]; simpl in Hr;
    [|discriminate Hr].
  injection Hr as <-. by eexists.
Qed.

(** The records behind a result with real numbers and [ok: true] are own
    properties of the three datasets. *)
Lemma compute_ok_own (keys : list string) (params : ConsolidationParamsV1)
    (r : ConsolidationResultV1) (k : string) :
  computeConsolidationV1 budgets enrollments anchors keys params
    = Some (Result r) →
  ok r = true →
  k ∈ keys →
  is_Some (budgets !! k) ∧ hasEnrollment enrollments k ∧
  is_Some (anchors !! k).
Proof.
  intros H Hok Hk. unfold computeConsolidationV1 in H.
  set (unique := uniqueKeys keys) in *.
  set (p := presence budgets enrollments anchors unique) in *.
  destruct (decide (length unique < 2)%nat) as [Hlen|Hlen].
  { injection H as <-. discriminate Hok. }
  destruct (negb (_ && _)) eqn:Hchk.
  { injection H as <-. discriminate Hok. }
  apply negb_false_iff in Hchk.
  apply andb_true_iff in Hchk as [Hchk Ha].
  apply andb_true_iff in Hchk as [Hb He].
  apply bool_decide_eq_true in Hb, He, Ha.
  destruct (negb (bool_decide (Forall _ unique))) eqn:Hown;
    [discriminate H|].
  apply negb_false_iff, bool_decide_eq_true in Hown.
  rewrite Forall_forall in Hown.
  apply uniqueKeys_elem in Hk.
  destruct (presence_all budgets enrollments anchors unique k Hb He Ha Hk)
    as (_ & Henr & _).
  destruct (Hown k Hk) as [? ?]. done.
Qed.

(** Only the clamped values of the parameters reach the computation. *)
Lemma compute_params_ext (keys : list string) (p q : ConsolidationParamsV1) :
  clamp (adminReductionRate p) 0 1 = clamp (adminReductionRate q) 0 1 →
  Rmax 0 (costPerStudentMile p) = Rmax 0 (costPerStudentMile q) →
  clamp (affectedShare p) 0 1 = clamp (affectedShare q) 0 1 →
  computeConsolidationV1 budgets enrollments anchors keys p =
  computeConsolidationV1 budgets enrollments anchors keys q.
Proof.
  intros Hr Hc Hs. unfold computeConsolidationV1. rewrite Hr, Hc, Hs. done.
Qed.

End estimate.

(** The hub of an [ok: true] result is one of the distinct keys. *)
Lemma hub_in_selection
    (budgets : BudgetsMap) (enrollments : LeaEnrollmentMap)
    (anchors : DistrictAnchorsMap) (selectedKeys : list string)
    (params : ConsolidationParamsV1) (r : ConsolidationResultV1) :
  computeConsolidationV1 budgets enrollments anchors selectedKeys params
    = Some (Result r) →
  ok r = true →
  hubKey r ∈ uniqueKeys selectedKeys.
Proof.
  intros Hr Hok.
  destruct (compute_ok_inv _ _ _ _ _ _ Hr Hok)
    as (first & he & ha & hb & cE & cS & aS & bd & w & Hlen & Eb & Ee & Ea &
        Hfirst & Hhub & _).
  apply hub_loop in Hhub as (_ & _ & [[-> _]|(l1 & l2 & _ & -> & _)]).
  - destruct (uniqueKeys selectedKeys); [discriminate Hfirst|].
    injection Hfirst as ->. left.
  - apply elem_of_app. right. left.
Qed.

(** ** Sorting *)

Lemma insertBy_Permutation {A : Type} (cmp : A → A → R) (x : A)
    (l : list A) :
  insertBy cmp x l ≡ₚ x :: l.
Proof.
  induction l as [|y l IH]; [done|]. simpl.
  destruct (Rgt_dec (cmp x y) 0); [|done].
  rewrite IH. apply Permutation_swap.
Qed.

Lemma sortBy_Permutation {A : Type} (cmp : A → A → R) (l : list A) :
  sortBy cmp l ≡ₚ l.
Proof.
  induction l as [|x l IH]; [done|]. unfold sortBy. simpl.
  rewrite insertBy_Permutation. by apply Permutation_skip.
Qed.

Lemma insertBy_Sorted {A : Type} (cmp : A → A → R) (x : A) (l : list A) :
  (∀ a b, cmp a b <= 0 ∨ cmp b a <= 0) →
  Sorted (λ a b, cmp a b <= 0) l →
  Sorted (λ a b, cmp a b <= 0) (insertBy cmp x l).
Proof.
  intros Htot Hs. induction Hs as [|y l Hs IH Hy]; simpl.
  - by repeat constructor.
  - destruct (Rgt_dec (cmp x y) 0) as [Hgt|Hle].
    + constructor; [done|].
      destruct Hy as [|z l Hz]; simpl.
      * constructor. destruct (Htot x y); lra.
      * destruct (Rgt_dec (cmp x z) 0); constructor; [done|].
        destruct (Htot x y); lra.
    + constructor; [by constructor|]. constructor. lra.
Qed.

Lemma sortBy_Sorted {A : Type} (cmp : A → A → R) (l : list A) :
  (∀ a b, cmp a b <= 0 ∨ cmp b a <= 0) →
  Sorted (λ a b, cmp a b <= 0) (sortBy cmp l).
Proof.
  intros Htot. induction l as [|x l IH]; [constructor|].
  unfold sortBy. simpl. by apply insertBy_Sorted.
Qed.



Lemma filter_ne_id (l : list string) (x : string) :
  x ∉ l → filter (λ k, k ≠ x) l = l.
Proof.
  induction l as [|k l IH]; intros Hx; [done|].
  rewrite filter_cons_True by (intros ->; apply Hx; left).
  f_equal. apply IH. intros Hc. apply Hx. by right.
Qed.

Lemma length_filter_ne (l : list string) (x : string) :
  NoDup l → x ∈ l → length (filter (λ k, k ≠ x) l) = (length l - 1)%nat.
Proof.
  induction l as [|k l IH]; intros Hnd Hx; [inversion Hx|].
  inversion Hnd as [|? ? Hk Hnd']; subst.
  destruct (decide (k = x)) as [->|Hne].
  - rewrite filter_cons_False by (intros Hc; by apply Hc).
    rewrite filter_ne_id by done. simpl. lia.
  - rewrite filter_cons_True by done. simpl.
    apply elem_of_cons in Hx as [->|Hx]; [done|].
    rewrite IH by done. destruct l; [inversion Hx|]. simpl. lia.
Qed.

(** The entries of the breakdown, one per spoke. *)
Lemma spoke_entries
    (budgets : BudgetsMap) (enrollments : LeaEnrollmentMap)
    (anchors : DistrictAnchorsMap) (selectedKeys : list string)
    (params : ConsolidationParamsV1) (r : ConsolidationResultV1) :
  computeConsolidationV1 budgets enrollments anchors selectedKeys params
    = Some (Result r) →
  ok r = true →
  key <$> spokeBreakdown r ≡ₚ
    filter (λ k, k ≠ hubKey r) (uniqueKeys selectedKeys) ∧
  NoDup (key <$> spokeBreakdown r) ∧
  length (spokeBreakdown r) = (length (uniqueKeys selectedKeys) - 1)%nat ∧
  (∀ d, d ∈ spokeBreakdown r →
        ∃ e, enrollments !! key d = Some e ∧
             enrollment d = enrollmentData.total e) ∧
  missing_budgets (missing r) = [] ∧
  missing_enrollment (missing r) = [] ∧
  missing_anchors (missing r) = [].
Proof.
  intros Hr Hok.
  destruct (compute_ok_inv _ _ _ _ _ _ Hr Hok)
    as (first & he & ha & hb & cE & cS & aS & bd & w & _ & _ & _ & _ &
        _ & _ & _ & _ & _ & Hsp & Hbd & _ & _ & _ & _ & Hmiss).
  pose proof (hub_in_selection budgets enrollments anchors selectedKeys
                params r Hr Hok) as Hhub.
  set (unique := uniqueKeys selectedKeys) in *.
  apply spoke_loop in Hsp as (new & Hnew & Hkeys & Hent).
  simpl in Hnew. subst bd.
  assert (key <$> spokeBreakdown r ≡ₚ filter (λ k, k ≠ hubKey r) unique)
    as Hperm.
  { rewrite Hbd, <- Hkeys. by rewrite sortBy_Permutation. }
  split; [exact Hperm|]. split; [|split; [|split]].
  - rewrite Hperm. apply NoDup_filter, uniqueKeys_NoDup.
  - rewrite <- (length_fmap key), Hperm.
    apply length_filter_ne; [apply uniqueKeys_NoDup|exact Hhub].
  - intros d Hd. apply Hent. rewrite Hbd in Hd.
    by rewrite sortBy_Permutation in Hd.
  - by rewrite Hmiss.
Qed.

(** The hub is the first of the distinct keys with the largest total. *)
Lemma hub_first_largest
    (budgets : BudgetsMap) (enrollments : LeaEnrollmentMap)
    (anchors : DistrictAnchorsMap) (selectedKeys : list string)
    (params : ConsolidationParamsV1) (r : ConsolidationResultV1) :
  computeConsolidationV1 budgets enrollments anchors selectedKeys params
    = Some (Result r) →
  ok r = true →
  hubKey r ∈ selectedKeys ∧
  ∃ before after hub,
    uniqueKeys selectedKeys = before ++ hubKey r :: after ∧
    enrollments !! hubKey r = Some hub ∧
    (∀ k e, k ∈ selectedKeys → enrollments !! k = Some e →
            enrollmentData.total e <= enrollmentData.total hub) ∧
    (∀ k e, k ∈ before → enrollments !! k = Some e →
            enrollmentData.total e < enrollmentData.total hub).
Proof.
  intros Hr Hok.
  destruct (compute_ok_inv _ _ _ _ _ _ Hr Hok)
    as (first & he & ha & hb & cE & cS & aS & bd & w & Hlen & Eb & Ee & Ea &
        Hfirst & Hhub & _).
  set (unique := uniqueKeys selectedKeys) in *.
  apply hub_loop in Hhub as (Hge & Hmax & Hcase).
  assert (first ∈ unique) as Hfu.
  { destruct unique; [discriminate Hfirst|]. injection Hfirst as ->. left. }
  destruct (presence_all budgets enrollments anchors unique first Eb Ee Ea Hfu)
    as (_ & (e1 & He1 & Hpos) & _).
  destruct Hcase as [[_ ->]|(l1 & l2 & e & Hsplit & Ehub & Htot & Hlt & Hbefore)].
  { specialize (Hmax first e1 Hfu He1). lra. }
  split.
  { apply uniqueKeys_elem. fold unique. rewrite Hsplit.
    apply elem_of_app. right. left. }
  exists l1, l2, e. repeat split; try done.
  - intros k ek Hk Ek. rewrite Htot. apply (Hmax k ek); [|done].
    by apply uniqueKeys_elem.
  - intros k ek Hk Ek. rewrite Htot. by apply (Hbefore k ek).
Qed.

(** ** The worked selection *)

Lemma sampleKeys_unique :
  uniqueKeys sampleKeys = ["barrington"; "providence"; "cranston"].
Proof. reflexivity. Qed.

Lemma sample_ok :
  ∃ r, computeConsolidationV1 sampleBudgets sampleEnrollments sampleAnchors
         sampleKeys sampleParams = Some (Result r) ∧ ok r = true.
Proof.
  apply compute_ok_intro.
  - rewrite sampleKeys_unique. simpl. lia.
  - intros k Hk. unfold sampleKeys in Hk.
    assert (k = "barrington" ∨ k = "providence" ∨ k = "cranston")
      as [-> | [-> | ->]].
    { rewrite !elem_of_cons in Hk. rewrite elem_of_nil in Hk. tauto. }
    + repeat split; [by eexists| |by eexists].
      eexists. split; [reflexivity|]. simpl. lra.
    + repeat split; [by eexists| |by eexists].
      eexists. split; [reflexivity|]. simpl. lra.
    + repeat split; [by eexists| |by eexists].
      eexists. split; [reflexivity|]. simpl. lra.
Qed.

(** Providence and Cranston tie on the largest total; Providence, selected
    first, is the hub. *)
Lemma sample_hub (params : ConsolidationParamsV1)
    (r : ConsolidationResultV1) :
  computeConsolidationV1 sampleBudgets sampleEnrollments sampleAnchors
    sampleKeys params = Some (Result r) →
  ok r = true →
  hubKey r = "providence".
Proof.
  intros Hr Hok.
  destruct (hub_first_largest _ _ _ _ _ _ Hr Hok)
    as (_ & before & after & hub & Hsplit & Ehub & Hmax & Hbefore).
  rewrite sampleKeys_unique in Hsplit.
  assert ("providence" ∈ sampleKeys) as Hin.
  { unfold sampleKeys. apply elem_of_cons. right. by left. }
  pose proof (Hmax "providence" _ Hin eq_refl) as Hbig. simpl in Hbig.
  destruct before as [|k1 [|k2 [|k3 before]]]; simpl in Hsplit.
  - injection Hsplit as Hk _. rewrite <- Hk in Ehub.
    vm_compute in Ehub. injection Ehub as <-. simpl in Hbig. lra.
  - by injection Hsplit as _ Hk _.
  - injection Hsplit as <- <- Hk _.
    assert ("providence" ∈ ["barrington"; "providence"]) as Hin2.
    { apply elem_of_cons. right. by left. }
    pose proof (Hbefore "providence" _ Hin2 eq_refl) as Hlt. simpl in Hlt.
    rewrite <- Hk in Ehub.
    vm_compute in Ehub. injection Ehub as <-. simpl in Hlt. lra.
  - injection Hsplit as _ _ _ Hnil. by destruct before.
Qed.

(** ** Main results on the estimator *)

Lemma emptyWith_defaulted (w : list string) (m : MissingKeys) :
  fieldsDefaulted (emptyWith w m).
Proof. unfold fieldsDefaulted. simpl. tauto. Qed.

(** C5. When fewer than two distinct keys are selected, the estimator
    returns a result with [ok = false], the single warning
    "Select at least 2 districts", and three empty missing lists. *)
Theorem C5_insufficient_selection
    (budgets : BudgetsMap) (enrollments : LeaEnrollmentMap)
    (anchors : DistrictAnchorsMap) (selectedKeys : list string)
    (params : ConsolidationParamsV1) :
  (length (uniqueKeys selectedKeys) < 2)%nat →
  ∃ r,
    computeConsolidationV1 budgets enrollments anchors selectedKeys params
      = Some (Result r) ∧
    ok r = false ∧
    warnings r = ["Select at least 2 districts"] ∧
    missing_budgets (missing r) = [] ∧
    missing_enrollment (missing r) = [] ∧
    missing_anchors (missing r) = [].
Proof.
  intros Hlen. unfold computeConsolidationV1.
  rewrite decide_True by done. eexists. split; [reflexivity|]. by simpl.
Qed.

Lemma C5_insufficient_selection_witness :
  (length (uniqueKeys ["providence"; "providence"]) < 2)%nat ∧
  ∃ r,
    computeConsolidationV1 sampleBudgets sampleEnrollments sampleAnchors
      ["providence"; "providence"] sampleParams = Some (Result r) ∧
    ok r = false ∧
    warnings r = ["Select at least 2 districts"] ∧
    missing_budgets (missing r) = [] ∧
    missing_enrollment (missing r) = [] ∧
    missing_anchors (missing r) = [].
Proof.
  assert (length (uniqueKeys ["providence"; "providence"]) < 2)%nat as H
    by (vm_compute; lia).
  split; [exact H|].
  exact (C5_insufficient_selection sampleBudgets sampleEnrollments
           sampleAnchors ["providence"; "providence"] sampleParams H).
Defined.

Lemma absentFrom_notFound {T : Type} (obj : gmap string T) (k : string) :
  notFound obj k = true ↔ absentFrom obj k.
Proof. apply notFound_spec. Qed.

Lemma expectedFlagWarnings_eq (budgets : BudgetsMap) (l : list string) :
  concat ((λ k, from_option budgetWarnings [] (budgets !! k)) <$> l) =
  expectedFlagWarnings budgets l.
Proof.
  unfold expectedFlagWarnings. induction l as [|k l IH]; [done|].
  rewrite fmap_cons, concat_cons, bind_cons, IH.
  by destruct (budgets !! k).
Qed.

(** The short circuit of the presence check, as the code has it: the
    tests are those of [notFound] and [enrollmentMissing]. *)
Lemma missing_data_short_circuit
    (budgets : BudgetsMap) (enrollments : LeaEnrollmentMap)
    (anchors : DistrictAnchorsMap) (selectedKeys : list string)
    (params : ConsolidationParamsV1) (k : string) :
  (2 <= length (uniqueKeys selectedKeys))%nat →
  k ∈ selectedKeys →
  absentFrom budgets k ∨ absentFrom anchors k ∨
    ¬ hasEnrollment enrollments k →
  ∃ r,
    computeConsolidationV1 budgets enrollments anchors selectedKeys params
      = Some (Result r) ∧
    ok r = false ∧
    (∀ k', k' ∈ missing_budgets (missing r) ↔
           k' ∈ selectedKeys ∧ absentFrom budgets k') ∧
    (∀ k', k' ∈ missing_enrollment (missing r) ↔
           k' ∈ selectedKeys ∧ ¬ hasEnrollment enrollments k') ∧
    (∀ k', k' ∈ missing_anchors (missing r) ↔
           k' ∈ selectedKeys ∧ absentFrom anchors k') ∧
    fieldsDefaulted r ∧
    spokeBreakdown r = [] ∧
    warnings r = expectedFlagWarnings budgets (uniqueKeys selectedKeys).
Proof.
  intros Hlen Hk Hmiss. unfold computeConsolidationV1.
  set (unique := uniqueKeys selectedKeys) in *.
  set (p := presence budgets enrollments anchors unique).
  rewrite decide_False by lia.
  destruct (presence_spec budgets enrollments anchors unique)
    as (Hb & He & Ha & Hw). fold p in Hb, He, Ha, Hw.
  assert (k ∈ unique) as Hku by by apply uniqueKeys_elem.
  assert (negb (bool_decide (missingBudgets p = []) &&
                bool_decide (missingEnrollment p = []) &&
                bool_decide (missingAnchors p = [])) = true) as ->.
  { apply negb_true_iff, not_true_is_false. intros Hall.
    apply andb_true_iff in Hall as [Hall Ea].
    apply andb_true_iff in Hall as [Eb Ee].
    apply bool_decide_eq_true in Eb, Ee, Ea.
    destruct (presence_all budgets enrollments anchors unique k Eb Ee Ea Hku)
      as (Hb' & He' & Ha').
    destruct Hmiss as [Hm|[Hm|Hm]]; [| |contradiction].
    - apply absentFrom_notFound in Hm. congruence.
    - apply absentFrom_notFound in Hm. congruence. }
  eexists. split; [reflexivity|]. simpl.
  split; [done|]. rewrite Hb, He, Ha, Hw.
  split; [|split; [|split; [|split; [|split; [done|]]]]].
  - intros k'. rewrite list_elem_of_filter. unfold unique.
    by rewrite uniqueKeys_elem, (comm and), absentFrom_notFound.
  - intros k'. rewrite list_elem_of_filter. unfold unique.
    rewrite uniqueKeys_elem, (comm and), <- enrollmentMissing_spec.
    by rewrite not_false_iff_true.
  - intros k'. rewrite list_elem_of_filter. unfold unique.
    by rewrite uniqueKeys_elem, (comm and), absentFrom_notFound.
  - apply emptyWith_defaulted.
  - apply expectedFlagWarnings_eq.
Qed.

Lemma absentFrom_plain {T : Type} (obj : gmap string T) (k : string) :
  k ∉ objectPrototypeNames → absentFrom obj k ↔ obj !! k = None.
Proof. unfold absentFrom. tauto. Qed.

(** A record found on [Object.prototype] passes the presence check. *)
Lemma prototype_record_result
    (budgets : BudgetsMap) (enrollments : LeaEnrollmentMap)
    (anchors : DistrictAnchorsMap) (selectedKeys : list string)
    (params : ConsolidationParamsV1) (k : string) :
  (2 <= length (uniqueKeys selectedKeys))%nat →
  (∀ k', k' ∈ selectedKeys →
     ¬ absentFrom budgets k' ∧ hasEnrollment enrollments k' ∧
     ¬ absentFrom anchors k') →
  k ∈ selectedKeys →
  budgets !! k = None ∨ anchors !! k = None →
  computeConsolidationV1 budgets enrollments anchors selectedKeys params
    = Some ResultNaN.
Proof.
  intros Hlen Hall Hk Hnone. unfold computeConsolidationV1.
  set (unique := uniqueKeys selectedKeys) in *.
  set (p := presence budgets enrollments anchors unique).
  rewrite decide_False by lia.
  destruct (presence_spec budgets enrollments anchors unique)
    as (Hb & He & Ha & _). fold p in Hb, He, Ha.
  assert (missingBudgets p = []) as ->.
  { rewrite Hb. apply filter_none. intros k' Hk'.
    apply uniqueKeys_elem, Hall in Hk' as (Hk' & _).
    by rewrite absentFrom_notFound. }
  assert (missingEnrollment p = []) as ->.
  { rewrite He. apply filter_none. intros k' Hk'.
    apply uniqueKeys_elem, Hall in Hk' as (_ & Hk' & _).
    apply enrollmentMissing_spec in Hk'. by rewrite Hk'. }
  assert (missingAnchors p = []) as ->.
  { rewrite Ha. apply filter_none. intros k' Hk'.
    apply uniqueKeys_elem, Hall in Hk' as (_ & _ & Hk').
    by rewrite absentFrom_notFound. }
  simpl. rewrite bool_decide_eq_false_2; [done|].
  rewrite Forall_forall. intros Hown.
  destruct (Hown k) as [[b Eb] [a Ea]]; [by apply uniqueKeys_elem|].
  destruct Hnone; congruence.
Qed.

Lemma sample_hasEnrollment_providence :
  hasEnrollment sampleEnrollments "providence" ∧
  hasEnrollment strayEnrollments "providence" ∧
  hasEnrollment strayEnrollments "constructor".
Proof.
  repeat split; (eexists; split; [reflexivity|simpl; lra]).
Qed.

(** C1. The claim holds for every selection that names no property of
    [Object.prototype], and fails for one that does.

    With at least two distinct keys selected, a key is taken by the code
    as missing from the budgets or the anchors when nothing stands for it
    there, neither a record nor a property of [Object.prototype], and as
    missing from the enrollments when it has no record with a positive
    total.  If some selected key is missing in this sense, the result has
    [ok = false], each missing list holds exactly the selected keys
    missing there, every other field has its default (the numbers zero,
    the hub key and name empty, the breakdown empty), and the warnings
    are one "name: flag" per budget flag of the selected districts, in
    selection order.  For a selection without such names this is the
    claim.

    The key ["constructor"], which has no record in the worked budgets
    and anchors, is not listed as missing from them; and once it has an
    enrollment record the call returns an object with [ok: true] whose
    numbers are [NaN]. *)
Theorem C1_missing_data_short_circuit
    (budgets : BudgetsMap) (enrollments : LeaEnrollmentMap)
    (anchors : DistrictAnchorsMap) (selectedKeys : list string)
    (params : ConsolidationParamsV1) (k : string) :
  ((2 <= length (uniqueKeys selectedKeys))%nat →
   k ∈ selectedKeys →
   absentFrom budgets k ∨ absentFrom anchors k ∨
     ¬ hasEnrollment enrollments k →
   ∃ r,
     computeConsolidationV1 budgets enrollments anchors selectedKeys params
       = Some (Result r) ∧
     ok r = false ∧
     (∀ k', k' ∈ missing_budgets (missing r) ↔
            k' ∈ selectedKeys ∧ absentFrom budgets k') ∧
     (∀ k', k' ∈ missing_enrollment (missing r) ↔
            k' ∈ selectedKeys ∧ ¬ hasEnrollment enrollments k') ∧
     (∀ k', k' ∈ missing_anchors (missing r) ↔
            k' ∈ selectedKeys ∧ absentFrom anchors k') ∧
     fieldsDefaulted r ∧
     spokeBreakdown r = [] ∧
     warnings r = expectedFlagWarnings budgets (uniqueKeys selectedKeys)) ∧
  ((∀ k', k' ∈ selectedKeys → k' ∉ objectPrototypeNames) →
   (2 <= length (uniqueKeys selectedKeys))%nat →
   k ∈ selectedKeys →
   budgets !! k = None ∨ anchors !! k = None ∨
     ¬ hasEnrollment enrollments k →
   ∃ r,
     computeConsolidationV1 budgets enrollments anchors selectedKeys params
       = Some (Result r) ∧
     ok r = false ∧
     (∀ k', k' ∈ missing_budgets (missing r) ↔
            k' ∈ selectedKeys ∧ budgets !! k' = None) ∧
     (∀ k', k' ∈ missing_enrollment (missing r) ↔
            k' ∈ selectedKeys ∧ ¬ hasEnrollment enrollments k') ∧
     (∀ k', k' ∈ missing_anchors (missing r) ↔
            k' ∈ selectedKeys ∧ anchors !! k' = None) ∧
     fieldsDefaulted r ∧
     spokeBreakdown r = [] ∧
     warnings r = expectedFlagWarnings budgets (uniqueKeys selectedKeys)) ∧
  (sampleBudgets !! "constructor" = None ∧
   sampleAnchors !! "constructor" = None ∧
   ∃ r,
     computeConsolidationV1 sampleBudgets sampleEnrollments sampleAnchors
       ["constructor"; "providence"] params = Some (Result r) ∧
     ok r = false ∧
     ("constructor" ∉ missing_budgets (missing r)) ∧
     ("constructor" ∉ missing_anchors (missing r)) ∧
     "constructor" ∈ missing_enrollment (missing r)) ∧
  computeConsolidationV1 sampleBudgets strayEnrollments sampleAnchors
    ["constructor"; "providence"] params = Some ResultNaN.
Proof.
  assert ("constructor" ∈ objectPrototypeNames) as Hproto by by left.
  assert ("constructor" ∈ ["constructor"; "providence"]) as Hin by by left.
  assert (∀ k', k' ∈ ["constructor"; "providence"] →
                k' = "constructor" ∨ k' = "providence") as Hkeys.
  { intros k'. rewrite !elem_of_cons, elem_of_nil. tauto. }
  destruct sample_hasEnrollment_providence as (Hp & Hp' & Hc').
  split; [apply missing_data_short_circuit|]. split; [|split].
  - intros Hplain Hlen Hk Hmiss.
    destruct (missing_data_short_circuit budgets enrollments anchors
                selectedKeys params k Hlen Hk)
      as (r & Hr & Hok & Hmb & Hme & Hma & Hdef & Hbd & Hw).
    { destruct Hmiss as [Hm|[Hm|Hm]];
        [left|right; left|right; right]; try done;
        by apply absentFrom_plain; [apply Hplain|]. }
    exists r. split; [done|]. split; [done|].
    split; [|split; [done|split; [|done]]].
    + intros k'. rewrite Hmb. split; intros [Hk' Habs]; (split; [done|]).
      * by destruct Habs.
      * by apply absentFrom_plain; [apply Hplain|].
    + intros k'. rewrite Hma. split; intros [Hk' Habs]; (split; [done|]).
      * by destruct Habs.
      * by apply absentFrom_plain; [apply Hplain|].
  - split; [reflexivity|]. split; [reflexivity|].
    destruct (missing_data_short_circuit sampleBudgets sampleEnrollments
                sampleAnchors ["constructor"; "providence"] params
                "constructor")
      as (r & Hr & Hok & Hmb & Hme & Hma & _).
    { vm_compute. lia. }
    { done. }
    { right. right. intros (e & He & _). discriminate He. }
    exists r. split; [done|]. split; [done|].
    split; [|split].
    + rewrite Hmb. intros [_ [_ Hn]]. done.
    + rewrite Hma. intros [_ [_ Hn]]. done.
    + rewrite Hme. split; [done|]. intros (e & He & _). discriminate He.
  - apply (prototype_record_result _ _ _ _ _ "constructor").
    + vm_compute. lia.
    + intros k' Hk'. apply Hkeys in Hk' as [->| ->].
      * split; [by intros [_ Hn]|]. split; [done|]. by intros [_ Hn].
      * split; [intros [Hn _]; discriminate Hn|]. split; [done|].
        intros [Hn _]. discriminate Hn.
    + done.
    + by left.
Qed.

Lemma C1_missing_data_short_circuit_witness :
  ∃ r,
    computeConsolidationV1 sampleBudgets sampleEnrollments sampleAnchors
      ["providence"; "newport"] sampleParams = Some (Result r) ∧
    ok r = false ∧
    (∀ k', k' ∈ missing_budgets (missing r) ↔
           k' ∈ ["providence"; "newport"] ∧ sampleBudgets !! k' = None) ∧
    (∀ k', k' ∈ missing_enrollment (missing r) ↔
           k' ∈ ["providence"; "newport"] ∧
           ¬ hasEnrollment sampleEnrollments k') ∧
    (∀ k', k' ∈ missing_anchors (missing r) ↔
           k' ∈ ["providence"; "newport"] ∧ sampleAnchors !! k' = None) ∧
    fieldsDefaulted r ∧
    spokeBreakdown r = [] ∧
    warnings r = ["Providence: admin_share_outlier"].
Proof.
  assert (∀ k', k' ∈ ["providence"; "newport"] →
                k' ∉ objectPrototypeNames) as Hplain.
  { intros k'. rewrite !elem_of_cons, elem_of_nil.
    intros [->|[->|[]]];
      by apply (bool_decide_eq_false_1 (_ ∈ objectPrototypeNames)). }
  assert (2 <= length (uniqueKeys ["providence"; "newport"]))%nat as Hlen
    by (vm_compute; lia).
  assert ("newport" ∈ ["providence"; "newport"]) as Hin
    by (apply elem_of_cons; right; by left).
  assert (sampleBudgets !! "newport" = None ∨
          sampleAnchors !! "newport" = None ∨
          ¬ hasEnrollment sampleEnrollments "newport") as Hmiss
    by (right; left; reflexivity).
  exact (proj1 (proj2 (C1_missing_data_short_circuit sampleBudgets
                         sampleEnrollments sampleAnchors
                         ["providence"; "newport"] sampleParams "newport"))
           Hplain Hlen Hin Hmiss).
Defined.

(** C2. In every [ok: true] result the hub is a selected district whose
    enrollment total is at least that of every selected district, and it
    is the first such district in the deduplicated selection: every
    district before it has a strictly smaller total. *)
Theorem C2_hub_selection
    (budgets : BudgetsMap) (enrollments : LeaEnrollmentMap)
    (anchors : DistrictAnchorsMap) (selectedKeys : list string)
    (params : ConsolidationParamsV1) (r : ConsolidationResultV1) :
  computeConsolidationV1 budgets enrollments anchors selectedKeys params
    = Some (Result r) →
  ok r = true →
  hubKey r ∈ selectedKeys ∧
  ∃ before after hub,
    uniqueKeys selectedKeys = before ++ hubKey r :: after ∧
    enrollments !! hubKey r = Some hub ∧
    (∀ k e, k ∈ selectedKeys → enrollments !! k = Some e →
            enrollmentData.total e <= enrollmentData.total hub) ∧
    (∀ k e, k ∈ before → enrollments !! k = Some e →
            enrollmentData.total e < enrollmentData.total hub).
Proof. exact (hub_first_largest budgets enrollments anchors selectedKeys params r). Qed.

Lemma C2_hub_selection_witness :
  ∃ r,
    computeConsolidationV1 sampleBudgets sampleEnrollments sampleAnchors
      sampleKeys sampleParams = Some (Result r) ∧
    ok r = true ∧
    hubKey r ∈ sampleKeys ∧
    ∃ before after hub,
      uniqueKeys sampleKeys = before ++ hubKey r :: after ∧
      sampleEnrollments !! hubKey r = Some hub ∧
      (∀ k e, k ∈ sampleKeys → sampleEnrollments !! k = Some e →
              enrollmentData.total e <= enrollmentData.total hub) ∧
      (∀ k e, k ∈ before → sampleEnrollments !! k = Some e →
              enrollmentData.total e < enrollmentData.total hub).
Proof.
  destruct sample_ok as (r & Hr & Hok). exists r.
  split; [exact Hr|]. split; [exact Hok|].
  exact (C2_hub_selection _ _ _ _ _ _ Hr Hok).
Defined.



Lemma clamp_range (v : R) : 0 <= clamp v 0 1 <= 1.
Proof.
  unfold clamp, Rmax, Rmin.
  destruct (Rle_dec 1 v); destruct (Rle_dec 0 _); lra.
Qed.

Lemma clamp_fixed (v : R) : 0 <= v <= 1 → clamp v 0 1 = v.
Proof.
  intros Hv. unfold clamp, Rmax, Rmin.
  destruct (Rle_dec 1 v); destruct (Rle_dec 0 _); lra.
Qed.

Lemma clamp_intoUnitInterval (v : R) : clamp v 0 1 = intoUnitInterval v.
Proof.
  unfold clamp, intoUnitInterval, Rmax, Rmin.
  destruct (Rlt_dec v 0); destruct (Rgt_dec v 1); destruct (Rle_dec 1 v);
    destruct (Rle_dec 0 _); lra.
Qed.

Lemma Rmax_intoNonNegative (v : R) : Rmax 0 v = intoNonNegative v.
Proof.
  unfold intoNonNegative, Rmax.
  destruct (Rlt_dec v 0); destruct (Rle_dec 0 v); lra.
Qed.


(** C10. In every [ok: true] result the breakdown has exactly one entry
    for each distinct selected key other than the hub, so one entry fewer
    than there are distinct keys; each entry carries the enrollment total
    of the district its key names; and the three missing lists are
    empty. *)
Theorem C10_breakdown_entries
    (budgets : BudgetsMap) (enrollments : LeaEnrollmentMap)
    (anchors : DistrictAnchorsMap) (selectedKeys : list string)
    (params : ConsolidationParamsV1) (r : ConsolidationResultV1) :
  computeConsolidationV1 budgets enrollments anchors selectedKeys params
    = Some (Result r) →
  ok r = true →
  key <$> spokeBreakdown r ≡ₚ
    filter (λ k, k ≠ hubKey r) (uniqueKeys selectedKeys) ∧
  NoDup (key <$> spokeBreakdown r) ∧
  length (spokeBreakdown r) = (length (uniqueKeys selectedKeys) - 1)%nat ∧
  (∀ d, d ∈ spokeBreakdown r →
        ∃ e, enrollments !! key d = Some e ∧
             enrollment d = enrollmentData.total e) ∧
  missing_budgets (missing r) = [] ∧
  missing_enrollment (missing r) = [] ∧
  missing_anchors (missing r) = [].
Proof. exact (spoke_entries budgets enrollments anchors selectedKeys params r). Qed.

Lemma C10_breakdown_entries_witness :
  ∃ r,
    computeConsolidationV1 sampleBudgets sampleEnrollments sampleAnchors
      sampleKeys sampleParams = Some (Result r) ∧
    ok r = true ∧
    key <$> spokeBreakdown r ≡ₚ
      filter (λ k, k ≠ hubKey r) (uniqueKeys sampleKeys) ∧
    NoDup (key <$> spokeBreakdown r) ∧
    length (spokeBreakdown r) = (length (uniqueKeys sampleKeys) - 1)%nat ∧
    (∀ d, d ∈ spokeBreakdown r →
          ∃ e, sampleEnrollments !! key d = Some e ∧
               enrollment d = enrollmentData.total e) ∧
    missing_budgets (missing r) = [] ∧
    missing_enrollment (missing r) = [] ∧
    missing_anchors (missing r) = [].
Proof.
  destruct sample_ok as (r & Hr & Hok). exists r.
  split; [exact Hr|]. split; [exact Hok|].
  exact (C10_breakdown_entries _ _ _ _ _ _ Hr Hok).
Defined.


End EstimatorFacts.

(* ===================================================================== *)
(** * Part IV: properties of the distance                               *)
(* ===================================================================== *)

Module DistanceFacts.
Import geoDistance DistanceSpec.
Local Open Scope R_scope.


Lemma milesBetween_haversine (a b : LatLon) :
  milesBetween a b = 2 * EARTH_RADIUS_MILES * asin (sqrt (haversine a b)).
Proof. reflexivity. Qed.


Lemma haversine_self (a : LatLon) : haversine a a = 0.
Proof.
  unfold haversine, toRad.
  replace ((lat a - lat a) * PI / 180 / 2) with 0 by lra.
  replace ((lon a - lon a) * PI / 180 / 2) with 0 by lra.
  rewrite sin_0. ring.
Qed.



Lemma earth_radius_pos : 0 < 2 * EARTH_RADIUS_MILES.
Proof. unfold EARTH_RADIUS_MILES. lra. Qed.

End DistanceFacts.

(* ===================================================================== *)
(** * Part V: properties of the key normalizer                          *)
(* ===================================================================== *)

Module NormalizerFacts.
Import jsString normalize NormalizerSpec.
Local Open Scope N_scope.

(** ** Character classes *)

Lemma isSpace_spec (c : N) :
  isSpace c = true ↔
  c = 9 ∨ c = 10 ∨ c = 11 ∨ c = 12 ∨ c = 13 ∨ c = 32 ∨ c = 160 ∨ c = 5760 ∨
  c = 8232 ∨ c = 8233 ∨ c = 8239 ∨ c = 8287 ∨ c = 12288 ∨ c = 65279 ∨
  8192 <= c <= 8202.
Proof.
  unfold isSpace.
  rewrite orb_true_iff, andb_true_iff, bool_decide_eq_true, !N.leb_le.
  rewrite !elem_of_cons, elem_of_nil. tauto.
Qed.

Lemma isUpper_spec (c : N) : isUpper c = true ↔ 65 <= c <= 90.
Proof. unfold isUpper. by rewrite andb_true_iff, !N.leb_le. Qed.

Lemma isWord_spec (c : N) :
  isWord c = true ↔ 48 <= c <= 57 ∨ 65 <= c <= 90 ∨ c = 95 ∨ 97 <= c <= 122.
Proof.
  unfold isWord.
  rewrite !orb_true_iff, isUpper_spec, !andb_true_iff, !N.leb_le, N.eqb_eq.
  tauto.
Qed.

Lemma isDash_spec (c : N) : isDash c = true ↔ c = 45 ∨ c = 8211 ∨ c = 8212.
Proof. unfold isDash. rewrite !orb_true_iff, !N.eqb_eq. tauto. Qed.

Lemma keyChar_space (c : N) : keyChar c → isSpace c = true ↔ c = 32.
Proof. unfold keyChar. rewrite isSpace_spec. lia. Qed.

Lemma keyChar_word_or_space (c : N) :
  keyChar c → isWord c || isSpace c = true.
Proof.
  unfold keyChar. rewrite orb_true_iff, isWord_spec, isSpace_spec. lia.
Qed.

Lemma keyChar_not_dash (c : N) : keyChar c → isDash c = false.
Proof.
  intros H. apply not_true_iff_false. rewrite isDash_spec.
  unfold keyChar in H. lia.
Qed.

Lemma keyChar_lower (c : N) : keyChar c → lowerUnit c = [c].
Proof.
  intros H. unfold lowerUnit, keyChar in *.
  destruct (isUpper c) eqn:E; [apply isUpper_spec in E; lia|].
  destruct (N.eqb_spec c 304); [lia|].
  destruct (N.eqb_spec c 8490); [lia|]. done.
Qed.

Lemma keptChar_space_is_key (c : N) :
  keptChar c → isSpace c = false → keyChar c.
Proof.
  intros [Hu [Hw|Hs]] Hn; [|congruence].
  apply not_true_iff_false in Hu. rewrite isUpper_spec in Hu.
  apply isWord_spec in Hw. unfold keyChar. lia.
Qed.

Lemma lowerUnit_not_upper (c d : N) : d ∈ lowerUnit c → isUpper d = false.
Proof.
  unfold lowerUnit. intros H. apply not_true_iff_false. rewrite isUpper_spec.
  destruct (isUpper c) eqn:E.
  - apply isUpper_spec in E. apply list_elem_of_singleton in H. lia.
  - apply not_true_iff_false in E. rewrite isUpper_spec in E.
    destruct (N.eqb_spec c 304).
    { rewrite !elem_of_cons, elem_of_nil in H. lia. }
    destruct (N.eqb_spec c 8490).
    { apply list_elem_of_singleton in H. lia. }
    apply list_elem_of_singleton in H. lia.
Qed.

(** ** [dropWhile], [takeWhile] and [trim] *)

Lemma takeWhile_dropWhile (p : N → bool) (s : list N) :
  takeWhile p s ++ dropWhile p s = s.
Proof.
  induction s as [|c s IH]; [done|]. simpl.
  destruct (p c); [|done]. simpl. by rewrite IH.
Qed.

Lemma drop_takeWhile (p : N → bool) (s : list N) :
  drop (length (takeWhile p s)) s = dropWhile p s.
Proof.
  induction s as [|c s IH]; [done|]. simpl. destruct (p c); [|done]. apply IH.
Qed.

Lemma dropWhile_suffix (p : N → bool) (s : list N) :
  ∃ w, s = w ++ dropWhile p s ∧ Forall (λ c, p c = true) w.
Proof.
  induction s as [|c s (w & IH & Hw)]; [by exists []|]. simpl.
  destruct (p c) eqn:E.
  - exists (c :: w). split; [simpl; by rewrite <- IH|]. by constructor.
  - by exists [].
Qed.

Lemma dropWhile_head (p : N → bool) (s : list N) (c : N) :
  head (dropWhile p s) = Some c → p c = false.
Proof.
  induction s as [|d s IH]; [done|]. simpl.
  destruct (p d) eqn:E; [done|]. simpl. by intros [= <-].
Qed.

Lemma dropWhile_id (p : N → bool) (s : list N) :
  (∀ c, head s = Some c → p c = false) → dropWhile p s = s.
Proof. destruct s as [|c s]; [done|]. simpl. intros H. by rewrite (H c). Qed.

Lemma dropWhile_length (p : N → bool) (s : list N) :
  (length (dropWhile p s) <= length s)%nat.
Proof.
  induction s as [|c s IH]; [done|]. simpl. destruct (p c); simpl; lia.
Qed.

(** [trim] keeps a middle part of the string: white space goes at both
    ends, and what is kept neither starts nor ends with white space. *)
Lemma trim_middle (s : list N) :
  ∃ w1 w2, s = w1 ++ trim s ++ w2 ∧
    Forall (λ c, isSpace c = true) w1 ∧ Forall (λ c, isSpace c = true) w2.
Proof.
  unfold trim.
  destruct (dropWhile_suffix isSpace s) as (w1 & H1 & Hw1).
  destruct (dropWhile_suffix isSpace (reverse (dropWhile isSpace s)))
    as (w2 & H2 & Hw2).
  exists w1, (reverse w2). split; [|split; [done|]].
  - rewrite <- reverse_app, <- H2, reverse_involutive. exact H1.
  - by apply Forall_reverse.
Qed.

Lemma trim_head (s : list N) (c : N) :
  head (trim s) = Some c → isSpace c = false.
Proof.
  unfold trim. intros H.
  destruct (dropWhile_suffix isSpace (reverse (dropWhile isSpace s)))
    as (w & Hw & _).
  set (v := dropWhile isSpace (reverse (dropWhile isSpace s))) in *.
  apply (f_equal reverse) in Hw.
  rewrite reverse_involutive, reverse_app in Hw.
  destruct (reverse v) as [|d r] eqn:Er; [done|]. simpl in H.
  injection H as ->.
  apply (dropWhile_head isSpace s c). by rewrite Hw.
Qed.

Lemma trim_last (s : list N) (c : N) :
  last (trim s) = Some c → isSpace c = false.
Proof.
  unfold trim. rewrite last_reverse. apply dropWhile_head.
Qed.

Lemma trim_id (s : list N) :
  (∀ c, head s = Some c → isSpace c = false) →
  (∀ c, last s = Some c → isSpace c = false) →
  trim s = s.
Proof.
  intros Hh Hl. unfold trim. rewrite (dropWhile_id _ s Hh).
  rewrite dropWhile_id; [apply reverse_involutive|].
  intros c. rewrite head_reverse. apply Hl.
Qed.

Lemma trim_length (s : list N) : (length (trim s) <= length s)%nat.
Proof.
  unfold trim. rewrite length_reverse.
  etrans; [apply dropWhile_length|]. rewrite length_reverse.
  apply dropWhile_length.
Qed.

Lemma trim_Forall (P : N → Prop) (s : list N) : Forall P s → Forall P (trim s).
Proof.
  intros H. destruct (trim_middle s) as (w1 & w2 & E & _).
  rewrite E in H. apply Forall_app in H as [_ H].
  by apply Forall_app in H as [H _].
Qed.

(** ** [replaceAll] *)

Lemma replaceAll_skip (m : list N → option nat) (rep : list N) (k : nat)
    (s : list N) :
  replaceAll m rep k s = replaceAll m rep 0 (drop k s).
Proof.
  revert k. induction s as [|c s IH]; intros [|k]; try done.
  simpl. apply IH.
Qed.

Lemma replaceAll_cons (m : list N → option nat) (rep : list N) (c : N)
    (s : list N) :
  replaceAll m rep 0 (c :: s) =
  match m (c :: s) with
  | Some len => rep ++ replaceAll m rep 0 (drop (pred len) s)
  | None => c :: replaceAll m rep 0 s
  end.
Proof. simpl. destruct (m (c :: s)); [|done]. by rewrite replaceAll_skip. Qed.

Lemma replaceAll_class (p : N → bool) (rep s : list N) :
  replaceAll (matchClass p) rep 0 s = s ≫= λ c, if p c then rep else [c].
Proof.
  induction s as [|c s IH]; [done|].
  rewrite replaceAll_cons, bind_cons.
  change (matchClass p (c :: s)) with (if p c then Some 1%nat else None).
  destruct (p c).
  - change (drop (pred 1) s) with s. by rewrite IH.
  - by rewrite IH.
Qed.

Lemma replaceAll_no_match (m : list N → option nat) (rep s : list N) :
  (∀ s1 s2, s = s1 ++ s2 → m s2 = None) → replaceAll m rep 0 s = s.
Proof.
  induction s as [|c s IH]; intros H; [done|].
  rewrite replaceAll_cons, (H [] (c :: s)) by done.
  f_equal. apply IH. intros s1 s2 ->. by apply (H (c :: s1)).
Qed.

Lemma replaceAll_Forall (P : N → Prop) (m : list N → option nat)
    (rep : list N) (k : nat) (s : list N) :
  Forall P rep → Forall P s → Forall P (replaceAll m rep k s).
Proof.
  intros Hrep. revert k. induction s as [|c s IH]; intros k Hs; [done|].
  apply Forall_cons in Hs as [Hc Hs]. simpl. destruct k as [|k]; [|by apply IH].
  destruct (m (c :: s)).
  - apply Forall_app. split; [done|]. by apply IH.
  - constructor; [done|]. by apply IH.
Qed.

(** ** The replacements on strings that hold none of their matches *)

Lemma drop_elem_of (n : nat) (s : list N) (c : N) : c ∈ drop n s → c ∈ s.
Proof.
  intros H. rewrite <- (take_drop n s). apply elem_of_app. by right.
Qed.

Lemma matchAmp_none (s : list N) : 38 ∉ s → matchAmp s = None.
Proof.
  intros H. unfold matchAmp.
  destruct (drop (spaces s) s) as [|c rest] eqn:E; [done|].
  destruct (N.eqb_spec c 38) as [->|]; [|done].
  exfalso. apply H, (drop_elem_of (spaces s)). rewrite E. left.
Qed.

Lemma matchParen_none (s : list N) : 40 ∉ s → matchParen s = None.
Proof.
  intros H. unfold matchParen.
  destruct (drop (spaces s) s) as [|c rest] eqn:E; [done|].
  destruct (N.eqb_spec c 40) as [->|]; [|done].
  exfalso. apply H, (drop_elem_of (spaces s)). rewrite E. left.
Qed.

Lemma bind_unit_id (f : N → list N) (s : list N) :
  Forall (λ c, f c = [c]) s → s ≫= f = s.
Proof.
  induction 1 as [|c s Hc _ IH]; [done|]. by rewrite bind_cons, Hc, IH.
Qed.

(** ** The white-space replacement *)

Lemma collapse_cons (c : N) (s : list N) :
  replaceAll matchSpaces (lit " ") 0 (c :: s) =
  if isSpace c
  then 32 :: replaceAll matchSpaces (lit " ") 0 (dropWhile isSpace s)
  else c :: replaceAll matchSpaces (lit " ") 0 s.
Proof.
  rewrite replaceAll_cons.
  change (matchSpaces (c :: s))
    with (if isSpace c then Some (1 + spaces s)%nat else None).
  destruct (isSpace c); [|done].
  change (pred (1 + spaces s)) with (spaces s).
  unfold spaces. by rewrite drop_takeWhile.
Qed.

Lemma spaced_weaken (b : bool) (t : list N) :
  spaced b t = true → spaced false t = true.
Proof.
  destruct t as [|c t]; [done|]. simpl.
  rewrite andb_true_iff. by intros [_ ->].
Qed.

Lemma spaced_head (t : list N) (c : N) :
  spaced true t = true → head t = Some c → isSpace c = false.
Proof.
  destruct t as [|d t]; [done|]. simpl. intros H [= ->].
  apply andb_true_iff in H as [H _]. by apply negb_true_iff in H.
Qed.

Lemma spaced_true_intro (t : list N) :
  spaced false t = true → (∀ c, head t = Some c → isSpace c = false) →
  spaced true t = true.
Proof.
  destruct t as [|c t]; [done|]. simpl. intros H Hh.
  rewrite H. by rewrite (Hh c eq_refl).
Qed.

Lemma spaced_app (b : bool) (l1 l2 : list N) :
  spaced b (l1 ++ l2) = true → spaced b l1 = true ∧ spaced false l2 = true.
Proof.
  revert b. induction l1 as [|c l1 IH]; intros b H.
  - split; [done|]. by apply (spaced_weaken b).
  - simpl in *. apply andb_true_iff in H as [Hc H].
    apply IH in H as [H1 H2]. by rewrite Hc, H1.
Qed.

(** White space in a spaced string follows a code unit that is none. *)
Lemma spaced_app_space (b : bool) (l1 l2 : list N) (c : N) :
  spaced b (l1 ++ c :: l2) = true → isSpace c = true →
  (l1 = [] ∧ b = false) ∨ ∃ d, last l1 = Some d ∧ isSpace d = false.
Proof.
  revert b. induction l1 as [|d l1 IH]; intros b H Hc.
  - left. split; [done|]. simpl in H. rewrite Hc in H.
    destruct b; [done|done].
  - right. simpl in H. apply andb_true_iff in H as [_ H].
    destruct (IH _ H Hc) as [[-> Hd]|(e & He & Hs)].
    + by exists d.
    + exists e. split; [|done]. destruct l1; [done|]. by rewrite last_cons_cons.
Qed.

Lemma collapse_spaced (n : nat) (s : list N) (b : bool) :
  (length s <= n)%nat →
  (b = true → ∀ c, head s = Some c → isSpace c = false) →
  spaced b (replaceAll matchSpaces (lit " ") 0 s) = true.
Proof.
  revert s b. induction n as [|n IH]; intros [|c s] b Hn Hb; try done.
  { simpl in Hn. lia. }
  simpl in Hn. rewrite collapse_cons. destruct (isSpace c) eqn:Ec.
  - destruct b; [by rewrite (Hb eq_refl c) in Ec|].
    change (spaced false (32 :: ?t)) with (spaced true t).
    apply IH.
    + pose proof (dropWhile_length isSpace s). lia.
    + intros _ d. apply dropWhile_head.
  - simpl. rewrite Ec, andb_false_r. simpl. apply IH; [lia|done].
Qed.

Lemma collapse_keyChar (n : nat) (s : list N) :
  (length s <= n)%nat → Forall keptChar s →
  Forall keyChar (replaceAll matchSpaces (lit " ") 0 s).
Proof.
  revert s. induction n as [|n IH]; intros [|c s] Hn Hs; try done.
  { simpl in Hn. lia. }
  simpl in Hn. apply Forall_cons in Hs as [Hc Hs].
  rewrite collapse_cons. destruct (isSpace c) eqn:Ec.
  - constructor; [unfold keyChar; lia|]. apply IH.
    + pose proof (dropWhile_length isSpace s). lia.
    + destruct (dropWhile_suffix isSpace s) as (w & E & _).
      rewrite E in Hs. by apply Forall_app in Hs as [_ Hs].
  - constructor; [by apply keptChar_space_is_key|]. apply IH; [lia|done].
Qed.

Lemma collapse_id (t : list N) :
  Forall keyChar t → spaced false t = true →
  replaceAll matchSpaces (lit " ") 0 t = t.
Proof.
  induction 1 as [|c t Hc Ht IH]; intros Hs; [done|].
  rewrite collapse_cons. simpl in Hs. destruct (isSpace c) eqn:Ec.
  - apply (keyChar_space c Hc) in Ec as ->.
    rewrite dropWhile_id by (intros d; by apply spaced_head).
    f_equal. apply IH. by apply (spaced_weaken true).
  - f_equal. by apply IH.
Qed.

(** ** The form of a normalized name *)

Lemma Clean_nil : Clean [].
Proof. by repeat split. Qed.

Lemma toLowerCase_not_upper (s : list N) :
  Forall (λ c, isUpper c = false) (toLowerCase s).
Proof.
  apply Forall_bind, Forall_forall. intros c _.
  apply Forall_forall. intros d. apply lowerUnit_not_upper.
Qed.

Lemma cleanName_Clean (s : list N) : Clean (cleanName s).
Proof.
  unfold cleanName.
  set (s1 := replaceAll (matchClass isDash) (lit " ") 0
               (replaceAll matchAmp (lit " and ") 0 (trim (toLowerCase s)))).
  assert (Forall (λ c, isUpper c = false) s1) as H1.
  { apply replaceAll_Forall; [by repeat constructor|].
    apply replaceAll_Forall; [by repeat constructor|].
    apply trim_Forall, toLowerCase_not_upper. }
  set (s2 := replaceAll (matchClass (λ c, negb (isWord c || isSpace c))) [] 0 s1).
  assert (Forall keptChar s2) as H2.
  { unfold s2. rewrite replaceAll_class. apply Forall_bind.
    eapply Forall_impl; [exact H1|]. simpl. intros c Hc.
    destruct (isWord c || isSpace c) eqn:E; simpl; [|done].
    constructor; [|done]. split; [done|]. by apply orb_true_iff. }
  set (s3 := replaceAll matchParen (lit " ") 0 s2).
  assert (Forall keptChar s3) as H3.
  { apply replaceAll_Forall; [|done].
    constructor; [|constructor]. split; [done|by right]. }
  set (s4 := replaceAll matchSpaces (lit " ") 0 s3).
  assert (Forall keyChar s4) as H4 by by apply (collapse_keyChar (length s3)).
  assert (spaced false s4 = true) as H5
    by by apply (collapse_spaced (length s3)).
  split; [by apply trim_Forall|]. split; [|apply trim_last].
  apply spaced_true_intro; [|apply trim_head].
  destruct (trim_middle s4) as (w1 & w2 & E & _). rewrite E in H5.
  apply spaced_app in H5 as [_ H5]. by apply spaced_app in H5 as [H5 _].
Qed.

Lemma cleanName_id (t : list N) : Clean t → cleanName t = t.
Proof.
  intros (Hk & Hs & Hl). unfold cleanName.
  assert (trim t = t) as Ht
    by (apply trim_id; [intros c; by apply spaced_head|done]).
  assert (toLowerCase t = t) as ->.
  { apply bind_unit_id. eapply Forall_impl; [exact Hk|]. apply keyChar_lower. }
  rewrite Ht.
  rewrite (replaceAll_no_match matchAmp).
  2:{ intros s1 s2 ->. apply matchAmp_none. intros H38.
      apply Forall_app in Hk as [_ Hk]. rewrite Forall_forall in Hk.
      specialize (Hk _ H38). unfold keyChar in Hk. lia. }
  rewrite (replaceAll_class isDash), bind_unit_id.
  2:{ eapply Forall_impl; [exact Hk|]. simpl. intros c Hc.
      by rewrite keyChar_not_dash. }
  rewrite replaceAll_class, bind_unit_id.
  2:{ eapply Forall_impl; [exact Hk|]. simpl. intros c Hc.
      by rewrite keyChar_word_or_space. }
  rewrite (replaceAll_no_match matchParen).
  2:{ intros s1 s2 ->. apply matchParen_none. intros H40.
      apply Forall_app in Hk as [_ Hk]. rewrite Forall_forall in Hk.
      specialize (Hk _ H40). unfold keyChar in Hk. lia. }
  rewrite collapse_id; [done|done|]. by apply (spaced_weaken true).
Qed.

(** ** Suffix stripping *)

Lemma endsWith_split (t suf : list N) :
  endsWith t suf = true → t = sliceOff t (length suf) ++ suf.
Proof.
  unfold endsWith, sliceOff. rewrite andb_true_iff, !bool_decide_eq_true.
  intros [_ H].
  rewrite <- (take_drop (length t - length suf) t) at 1. by rewrite H.
Qed.

Lemma endsWith_app (u suf : list N) : endsWith (u ++ suf) suf = true.
Proof.
  unfold endsWith. rewrite andb_true_iff, !bool_decide_eq_true, length_app.
  split; [lia|]. replace (length u + length suf - length suf)%nat
    with (length u) by lia. by rewrite drop_app_length.
Qed.

(** Taking a suffix that starts with a space off a clean name leaves a
    clean name, which [trim] does not change. *)
Lemma Clean_sliceOff (t suf : list N) :
  Clean t → endsWith t (32 :: suf) = true →
  Clean (sliceOff t (length (32 :: suf))) ∧
  trim (sliceOff t (length (32 :: suf))) = sliceOff t (length (32 :: suf)).
Proof.
  intros (Hk & Hs & Hl) He. apply endsWith_split in He.
  set (u := sliceOff t (length (32 :: suf))) in *.
  rewrite He in Hk, Hs. apply Forall_app in Hk as [Hk _].
  assert (∀ c, last u = Some c → isSpace c = false) as Hlu.
  { intros c Hc.
    destruct (spaced_app_space true u suf 32 Hs eq_refl)
      as [[_ ?]|(d & Hd & Hsd)]; [done|congruence]. }
  apply spaced_app in Hs as [Hs _].
  assert (Clean u) as Hu by done. split; [done|].
  apply trim_id; [intros c; by apply spaced_head|done].
Qed.

Lemma suffixes_spaceLed : spaceLed suffixes ∧ spaceLed levelSuffixes.
Proof. split; repeat constructor; by eexists. Qed.

Lemma stripSuffix_Clean (sufs : list (list N)) (t : list N) :
  spaceLed sufs → Clean t → Clean (stripSuffix sufs t).
Proof.
  intros Hsufs Ht. induction Hsufs as [|suf sufs [rest ->] _ IH]; [done|].
  simpl. destruct (endsWith t (32 :: rest)) eqn:E; [|done].
  destruct (Clean_sliceOff t rest Ht E) as [Hc Htrim].
  simpl in Htrim. by rewrite Htrim.
Qed.

Lemma stripSuffix_length (sufs : list (list N)) (t : list N) :
  (length (stripSuffix sufs t) <= length t)%nat.
Proof.
  induction sufs as [|suf sufs IH]; [done|]. simpl.
  destruct (endsWith t suf); [|done].
  etrans; [apply trim_length|]. unfold sliceOff. rewrite length_take. lia.
Qed.

(** Stripping changes nothing exactly when no suffix of the list matches. *)
Lemma stripSuffix_fixed (sufs : list (list N)) (t : list N) :
  spaceLed sufs →
  stripSuffix sufs t = t ↔ ∀ suf, suf ∈ sufs → endsWith t suf = false.
Proof.
  intros Hsufs. induction Hsufs as [|suf sufs [rest ->] _ IH].
  - split; [|done]. intros _ suf H. inversion H.
  - simpl. destruct (endsWith t (32 :: rest)) eqn:E.
    + split.
      * intros H. exfalso.
        pose proof (trim_length (sliceOff t (length (32 :: rest)))) as Hl.
        simpl in Hl, H. rewrite H in Hl. unfold sliceOff in Hl.
        rewrite length_take in Hl.
        apply endsWith_split in E. apply (f_equal length) in E.
        rewrite length_app in E. simpl in E. lia.
      * intros H. specialize (H (32 :: rest)). rewrite E in H.
        discriminate H. left.
    + rewrite IH. split.
      * intros H suf [->|Hs]%elem_of_cons; [done|by apply H].
      * intros H suf Hs. apply H. by right.
Qed.

Lemma stripSuffix_same_length (sufs : list (list N)) (t : list N) :
  spaceLed sufs → length (stripSuffix sufs t) = length t →
  stripSuffix sufs t = t.
Proof.
  intros Hsufs. induction Hsufs as [|suf sufs [rest ->] _ IH]; [done|].
  simpl. destruct (endsWith t (32 :: rest)) eqn:E; [|done].
  intros L. exfalso.
  pose proof (trim_length (sliceOff t (S (length rest)))) as Lt.
  apply endsWith_split in E. apply (f_equal length) in E.
  rewrite length_app in E. simpl in E.
  unfold sliceOff in *. rewrite length_take in Lt. lia.
Qed.

(** ** The normalizer *)

Lemma normalizeDistrictName_unfold (s : list N) :
  normalizeDistrictName s =
  if bool_decide (s = []) then []
  else stripSuffix levelSuffixes (stripSuffix suffixes (cleanName s)).
Proof. reflexivity. Qed.

Lemma normalizeDistrictName_Clean (s : list N) : Clean (normalizeDistrictName s).
Proof.
  rewrite normalizeDistrictName_unfold. case_bool_decide; [apply Clean_nil|].
  destruct suffixes_spaceLed as [H1 H2].
  apply stripSuffix_Clean; [done|]. apply stripSuffix_Clean; [done|].
  apply cleanName_Clean.
Qed.

(** On a clean name only the two suffix loops act. *)
Lemma normalizeDistrictName_on_Clean (t : list N) :
  Clean t →
  normalizeDistrictName t = stripSuffix levelSuffixes (stripSuffix suffixes t).
Proof.
  intros Ht. rewrite normalizeDistrictName_unfold. case_bool_decide as E.
  - by subst t.
  - by rewrite cleanName_id.
Qed.

Lemma normalizeDistrictName_fixed (t : list N) :
  Clean t →
  normalizeDistrictName t = t ↔
  ∀ suf, suf ∈ suffixes ++ levelSuffixes → endsWith t suf = false.
Proof.
  intros Ht. destruct suffixes_spaceLed as [H1 H2].
  rewrite normalizeDistrictName_on_Clean by done. split.
  - intros H.
    assert (stripSuffix suffixes t = t) as E1.
    { apply stripSuffix_same_length; [done|].
      pose proof (stripSuffix_length suffixes t) as L1.
      pose proof (stripSuffix_length levelSuffixes (stripSuffix suffixes t))
        as L2.
      rewrite H in L2. lia. }
    rewrite E1 in H.
    intros suf [Hs|Hs]%elem_of_app.
    + by apply (stripSuffix_fixed suffixes t H1).
    + by apply (stripSuffix_fixed levelSuffixes t H2).
  - intros H.
    assert (stripSuffix suffixes t = t) as ->.
    { apply stripSuffix_fixed; [done|]. intros suf Hs. apply H.
      apply elem_of_app. by left. }
    apply stripSuffix_fixed; [done|]. intros suf Hs. apply H.
    apply elem_of_app. by right.
Qed.

(** ** Main results on the normalizer *)

(** C8 as stated fails: a second pass strips " public schools" from the
    result of the first, which stripped " elementary". *)
Lemma C8_normalize_not_idempotent :
  let x := lit "Foster Public Schools Elementary" in
  normalizeDistrictName x = lit "foster public schools" ∧
  normalizeDistrictName (normalizeDistrictName x) = lit "foster" ∧
  normalizeDistrictName (normalizeDistrictName x) ≠ normalizeDistrictName x.
Proof.
  assert (normalizeDistrictName (lit "Foster Public Schools Elementary")
          = lit "foster public schools") as E1 by by vm_compute.
  assert (normalizeDistrictName (lit "foster public schools") = lit "foster")
    as E2 by by vm_compute.
  simpl. rewrite E1, E2. split; [done|]. split; [done|].
  by vm_compute.
Qed.

(** C8 (amended). A second normalization changes nothing exactly when the
    normalized name ends with none of the five suffixes that the
    normalizer strips. *)
Theorem C8_normalize_idempotent_iff (x : list N) :
  normalizeDistrictName (normalizeDistrictName x) = normalizeDistrictName x ↔
  ∀ suf, suf ∈ suffixes ++ levelSuffixes →
         endsWith (normalizeDistrictName x) suf = false.
Proof. apply normalizeDistrictName_fixed, normalizeDistrictName_Clean. Qed.

Lemma C8_normalize_idempotent_iff_witness :
  let x := lit "Bristol-Warren Regional School District" in
  (∀ suf, suf ∈ suffixes ++ levelSuffixes →
          endsWith (normalizeDistrictName x) suf = false) ∧
  normalizeDistrictName (normalizeDistrictName x) = normalizeDistrictName x.
Proof.
  set (x := lit "Bristol-Warren Regional School District").
  assert (∀ suf, suf ∈ suffixes ++ levelSuffixes →
                 endsWith (normalizeDistrictName x) suf = false) as H.
  { apply Forall_forall. repeat constructor; by vm_compute. }
  split; [exact H|].
  exact (proj2 (C8_normalize_idempotent_iff x) H).
Defined.

Lemma normalizeForKey_eq (s : list N) :
  enrollment.normalizeForKey s = normalizeDistrictName s.
Proof. reflexivity. Qed.

(** C7. The two normalization functions are the same function, and the two
    [districtKey] functions agree on every name whose normalized form is
    not the key of the alias table of [lib/normalize.ts]; on a name that
    normalizes to that key they differ: [lib/normalize.ts] returns the
    alias target, [enrollment.ts], whose table is empty, the normalized
    name. *)
Theorem C7_districtKey_alias_divergence :
  (∀ s, enrollment.normalizeForKey s = normalizeDistrictName s) ∧
  (∀ name,
     normalizeDistrictName name ≠ lit "bistol warren regional district" →
     enrollment.districtKey name = districtKey name) ∧
  districtKey (lit "Bistol Warren Regional District") = lit "bristol warren" ∧
  enrollment.districtKey (lit "Bistol Warren Regional District")
    = lit "bistol warren regional district" ∧
  enrollment.districtKey (lit "Bistol Warren Regional District")
    ≠ districtKey (lit "Bistol Warren Regional District").
Proof.
  split; [exact normalizeForKey_eq|]. split.
  - intros name Hne. unfold enrollment.districtKey, districtKey.
    rewrite normalizeForKey_eq. unfold enrollment.DISTRICT_ALIASES.
    rewrite lookup_empty. unfold DISTRICT_ALIASES.
    by rewrite lookup_singleton_ne.
  - assert (normalizeDistrictName (lit "Bistol Warren Regional District")
            = lit "bistol warren regional district") as E by by vm_compute.
    assert (districtKey (lit "Bistol Warren Regional District")
            = lit "bristol warren") as E1.
    { unfold districtKey. rewrite E. unfold DISTRICT_ALIASES.
      by rewrite lookup_singleton_eq. }
    assert (enrollment.districtKey (lit "Bistol Warren Regional District")
            = lit "bistol warren regional district") as E2.
    { unfold enrollment.districtKey. rewrite normalizeForKey_eq, E.
      unfold enrollment.DISTRICT_ALIASES. by rewrite lookup_empty. }
    split; [exact E1|]. split; [exact E2|]. rewrite E1, E2. by vm_compute.
Qed.

End NormalizerFacts.

(* ===================================================================== *)
(** * Part VI: further properties of the distance                        *)
(* ===================================================================== *)

Module DistanceMore.
Import geoDistance DistanceSpec EstimatorTerms DistanceFacts.
Local Open Scope R_scope.

Lemma asin_nonneg (x : R) : 0 <= x → 0 <= asin x <= PI / 2.
Proof.
  intros Hx. pose proof PI_RGT_0 as Hpi. split; [|apply asin_bound].
  destruct (Rle_dec 1 x) as [H1|H1].
  { unfold asin. destruct (Rle_dec x (-1)); [lra|].
    destruct (Rle_dec 1 x); [lra|contradiction]. }
  destruct (Rlt_dec (asin x) 0) as [Hneg|]; [|lra].
  pose proof (asin_bound x) as [Hlo _].
  assert (sin (asin x) < 0) as Hs by (apply sin_lt_0_var; lra).
  rewrite sin_asin in Hs by lra. lra.
Qed.

Lemma sin_half_sqr (x : R) : sin (x / 2) * sin (x / 2) = (1 - cos x) / 2.
Proof.
  replace x with (2 * (x / 2)) at 3 by lra. rewrite cos_2a_sin. lra.
Qed.

Lemma toRad_minus (x y : R) : toRad (x - y) = toRad x - toRad y.
Proof. unfold toRad. lra. Qed.

Lemma toRad_valid (x : R) : -90 <= x <= 90 → - (PI / 2) <= toRad x <= PI / 2.
Proof. intros H. pose proof PI_RGT_0. unfold toRad. split; nra. Qed.

(** For latitudes in range the haversine term lies between 0 and 1, the
    domain on which [Math.sqrt] and [Math.asin] are defined. *)
Lemma haversine_range (a b : LatLon) :
  validLat a → validLat b → 0 <= haversine a b <= 1.
Proof.
  unfold validLat. intros Ha Hb.
  apply toRad_valid in Ha, Hb.
  assert (0 <= cos (toRad (lat a))) as Hca by (apply cos_ge_0; lra).
  assert (0 <= cos (toRad (lat b))) as Hcb by (apply cos_ge_0; lra).
  unfold haversine.
  set (s1 := sin (toRad (lat b - lat a) / 2)).
  set (s2 := sin (toRad (lon b - lon a) / 2)).
  assert (s1 * s1 = (1 - cos (toRad (lat b) - toRad (lat a))) / 2) as E1
    by (unfold s1; rewrite toRad_minus; apply sin_half_sqr).
  assert (0 <= s2 * s2 <= 1) as [Hs2 Hs2'].
  { pose proof (SIN_bound (toRad (lon b - lon a) / 2)) as [? ?].
    fold s2 in H, H0. split; nra. }
  assert (0 <= s1 * s1) as Hs1 by nra.
  set (ca := cos (toRad (lat a))) in *. set (cb := cos (toRad (lat b))) in *.
  assert (0 <= ca * cb) as Hcc by nra.
  assert (0 <= ca * cb * (s2 * s2) <= ca * cb) as [Ht Ht'] by (split; nra).
  replace (s1 * s1 + ca * cb * s2 * s2) with (s1 * s1 + ca * cb * (s2 * s2))
    by ring.
  split; [lra|].
  rewrite E1, cos_minus. fold ca cb.
  pose proof (COS_bound (toRad (lat b) + toRad (lat a))) as [_ Hc].
  rewrite cos_plus in Hc. fold ca cb in Hc. lra.
Qed.

Lemma milesBetween_range (a b : LatLon) :
  validLat a → validLat b →
  0 <= milesBetween a b <= PI * EARTH_RADIUS_MILES.
Proof.
  intros Ha Hb. rewrite milesBetween_haversine.
  pose proof (asin_nonneg (sqrt (haversine a b)) (sqrt_pos _)) as [H0 H1].
  pose proof earth_radius_pos as Hr.
  split; nra.
Qed.

(** A half-angle whose sine is taken in absolute value. *)
Lemma asin_abs_sin (x : R) :
  - (PI / 2) <= x <= PI / 2 → asin (Rabs (sin x)) = Rabs x.
Proof.
  intros Hx. pose proof PI_RGT_0 as Hpi.
  destruct (Rle_dec 0 x) as [Hpos|Hneg].
  - rewrite (Rabs_pos_eq x) by done.
    rewrite Rabs_pos_eq by (apply sin_ge_0; lra). by apply asin_sin.
  - rewrite (Rabs_left x) by lra.
    assert (sin x < 0) by (apply sin_lt_0_var; lra).
    rewrite Rabs_left by done. rewrite <- sin_neg. apply asin_sin. lra.
Qed.

Lemma sqrt_sqr_abs (x : R) : sqrt (x * x) = Rabs x.
Proof. rewrite <- Rsqr_def. apply sqrt_Rsqr_abs. Qed.

Lemma milesBetween_meridian (a b : LatLon) :
  lon a = lon b → -180 <= lat b - lat a <= 180 →
  milesBetween a b = EARTH_RADIUS_MILES * Rabs (toRad (lat b - lat a)).
Proof.
  intros Hlon Hlat. pose proof PI_RGT_0 as Hpi.
  rewrite milesBetween_haversine. unfold haversine.
  rewrite Hlon.
  replace (toRad (lon b - lon b) / 2) with 0 by (unfold toRad; lra).
  rewrite sin_0, !Rmult_0_r, Rplus_0_r, sqrt_sqr_abs.
  rewrite asin_abs_sin by (unfold toRad; split; nra).
  unfold Rdiv. rewrite Rabs_mult, (Rabs_pos_eq (/ 2)) by lra. lra.
Qed.

Lemma milesBetween_equator (a b : LatLon) :
  lat a = 0 → lat b = 0 → -180 <= lon b - lon a <= 180 →
  milesBetween a b = EARTH_RADIUS_MILES * Rabs (toRad (lon b - lon a)).
Proof.
  intros Ha Hb Hlon. pose proof PI_RGT_0 as Hpi.
  rewrite milesBetween_haversine. unfold haversine.
  rewrite Ha, Hb.
  replace (toRad (0 - 0) / 2) with 0 by (unfold toRad; lra).
  replace (toRad 0) with 0 by (unfold toRad; lra).
  rewrite sin_0, cos_0, Rmult_0_r, Rplus_0_l, !Rmult_1_l, sqrt_sqr_abs.
  rewrite asin_abs_sin by (unfold toRad; split; nra).
  unfold Rdiv. rewrite Rabs_mult, (Rabs_pos_eq (/ 2)) by lra. lra.
Qed.

Lemma haversine_lon_turn (a b : LatLon) :
  haversine a {| lat := lat b; lon := lon b + 360 |} = haversine a b.
Proof.
  unfold haversine. simpl.
  replace (toRad (lon b + 360 - lon a) / 2)
    with (toRad (lon b - lon a) / 2 + PI) by (unfold toRad; lra).
  rewrite neg_sin. ring.
Qed.

(** ** Further results on the distance *)

(** X13. For two points whose latitudes lie between -90 and 90 the
    haversine term lies between 0 and 1 (so the square root and the arc
    sine are taken inside their domains), and the distance lies between 0
    and half the circumference of the sphere, pi times 3958.8 miles
    (numbers as reals). *)
Theorem X13_distance_range (a b : LatLon) :
  validLat a → validLat b →
  0 <= haversine a b <= 1 ∧
  0 <= milesBetween a b <= PI * EARTH_RADIUS_MILES.
Proof.
  intros Ha Hb. split; [by apply haversine_range|by apply milesBetween_range].
Qed.

Lemma X13_distance_range_witness :
  let a := {| lat := 4182 / 100; lon := - 7141 / 100 |} in
  let b := {| lat := 4174 / 100; lon := - 7131 / 100 |} in
  0 <= haversine a b <= 1 ∧
  0 <= milesBetween a b <= PI * EARTH_RADIUS_MILES.
Proof.
  intros a b.
  assert (validLat a) as Ha by (unfold validLat; simpl; lra).
  assert (validLat b) as Hb by (unfold validLat; simpl; lra).
  exact (X13_distance_range a b Ha Hb).
Defined.

(** X14. Between two points on the same meridian the distance is the
    arc length: the radius 3958.8 times the difference of the latitudes
    in radians, taken without sign (numbers as reals). *)
Theorem X14_distance_along_meridian (a b : LatLon) :
  lon a = lon b → -180 <= lat b - lat a <= 180 →
  milesBetween a b = EARTH_RADIUS_MILES * Rabs (toRad (lat b - lat a)).
Proof. apply milesBetween_meridian. Qed.

Lemma X14_distance_along_meridian_witness :
  let a := {| lat := 41; lon := - 71 |} in
  let b := {| lat := 42; lon := - 71 |} in
  milesBetween a b = EARTH_RADIUS_MILES * Rabs (toRad (lat b - lat a)).
Proof.
  intros a b.
  assert (lon a = lon b) as Hlon by reflexivity.
  assert (-180 <= lat b - lat a <= 180) as Hlat by (simpl; lra).
  exact (X14_distance_along_meridian a b Hlon Hlat).
Defined.

(** X15. The distance does not change when the longitude of one point
    is shifted by a full turn of 360 degrees; two points that differ by
    such a shift are therefore at distance zero (numbers as reals). *)
Theorem X15_distance_full_turn (a b : LatLon) :
  milesBetween a {| lat := lat b; lon := lon b + 360 |} = milesBetween a b ∧
  milesBetween a {| lat := lat a; lon := lon a + 360 |} = 0.
Proof.
  rewrite !milesBetween_haversine, !haversine_lon_turn. split; [done|].
  replace {| lat := lat a; lon := lon a |} with a by by destruct a.
  rewrite haversine_self, sqrt_0, asin_0. lra.
Qed.

End DistanceMore.

(* ===================================================================== *)
(** * Part VI-b: symmetry and zero distance                               *)
(* ===================================================================== *)

Module DistanceZero.
Import geoDistance DistanceSpec EstimatorTerms DistanceFacts DistanceMore.
Local Open Scope R_scope.












End DistanceZero.

(* ===================================================================== *)
(** * Part VII: further properties of the estimator                       *)
(* ===================================================================== *)

Module EstimatorMore.
Import geoDistance consolidationV1 EstimatorSpec EstimatorTerms EstimatorFacts.
Local Open Scope R_scope.

(** ** Sums *)

Lemma sumOf_app {A : Type} (f : A → R) (l1 l2 : list A) :
  sumOf f (l1 ++ l2) = sumOf f l1 + sumOf f l2.
Proof.
  induction l1 as [|x l1 IH]; unfold sumOf in *; simpl; [lra|].
  rewrite IH. lra.
Qed.

Lemma sumOf_cons {A : Type} (f : A → R) (x : A) (l : list A) :
  sumOf f (x :: l) = f x + sumOf f l.
Proof. reflexivity. Qed.

Lemma sumOf_nonneg {A : Type} (f : A → R) (l : list A) :
  (∀ x, x ∈ l → 0 <= f x) → 0 <= sumOf f l.
Proof.
  induction l as [|x l IH]; intros H; [unfold sumOf; simpl; lra|].
  rewrite sumOf_cons.
  assert (0 <= f x) by (apply H; left).
  assert (0 <= sumOf f l) by (apply IH; intros y Hy; apply H; by right).
  lra.
Qed.

Lemma sumOf_zero {A : Type} (f : A → R) (l : list A) :
  (∀ x, x ∈ l → f x = 0) → sumOf f l = 0.
Proof.
  induction l as [|x l IH]; intros H; [done|].
  rewrite sumOf_cons, (H x), IH; [lra| |left].
  intros y Hy. apply H. by right.
Qed.

Lemma sumOf_Permutation {A : Type} (f : A → R) (l1 l2 : list A) :
  l1 ≡ₚ l2 → sumOf f l1 = sumOf f l2.
Proof.
  induction 1 as [|x l1 l2 _ IH|x y l|l1 l2 l3 _ IH1 _ IH2];
    rewrite ?sumOf_cons; [done|lra|lra|congruence].
Qed.

(** Taking one element out of a list without repetition. *)
Lemma sumOf_take_out (f : string → R) (l : list string) (x : string) :
  NoDup l → x ∈ l → sumOf f l = f x + sumOf f (filter (λ k, k ≠ x) l).
Proof.
  induction l as [|k l IH]; intros Hnd Hx; [inversion Hx|].
  inversion Hnd as [|? ? Hk Hnd']; subst. rewrite sumOf_cons.
  destruct (decide (k = x)) as [->|Hne].
  - rewrite filter_cons_False by (intros Hc; by apply Hc).
    by rewrite filter_ne_id.
  - rewrite filter_cons_True by done. rewrite sumOf_cons.
    apply elem_of_cons in Hx as [->|Hx]; [done|]. rewrite IH by done. lra.
Qed.

(** ** The loops, in closed form *)

Section loops.
Variable budgets : BudgetsMap.
Variable enrollments : LeaEnrollmentMap.
Variable anchors : DistrictAnchorsMap.

Lemma totals_loop (hk : string) (l : list string) (cE cS aS cE' cS' aS' : R) :
  forOf (totalsStep budgets enrollments hk) (cE, cS, aS) l
    = Some (cE', cS', aS') →
  cE' = cE + sumOf (totalOf enrollments) l ∧
  cS' = cS + sumOf (spendingOf budgets) l ∧
  aS' = aS + sumOf (adminOf budgets) (filter (λ k, k ≠ hk) l).
Proof.
  revert cE cS aS. induction l as [|k l IH]; intros cE cS aS H.
  - injection H as <- <- <-. unfold sumOf. simpl. repeat split; lra.
  - loop_step H totalsStep Hs.
    destruct (enrollments !! k) as [e|] eqn:Ee; simpl in Hs; [|done].
    destruct (budgets !! k) as [b|] eqn:Eb; simpl in Hs; [|done].
    injection Hs as <-. apply IH in H as (-> & -> & ->).
    rewrite !sumOf_cons, filter_cons. unfold totalOf at 2, spendingOf at 2.
    rewrite Ee, Eb. simpl.
    destruct (decide (k ≠ hk)); repeat split; try lra.
    rewrite sumOf_cons. unfold adminOf at 2. rewrite Eb. simpl. lra.
Qed.

Lemma spoke_loop_closed (params : ConsolidationParamsV1) (hk : string)
    (ha : anchors.DistrictAnchor) (l : list string)
    (bd bd' : list SpokeDetail) (ti ti' : R) (w w' : list string) :
  anchors !! hk = Some ha →
  forOf (spokeStep enrollments anchors hk ha
           (clamp (affectedShare params) 0 1)
           (Rmax 0 (costPerStudentMile params))) (bd, ti, w) l
    = Some (bd', ti', w') →
  let spokes := filter (λ k, k ≠ hk) l in
  bd' = bd ++ (spokeEntry enrollments anchors params hk <$> spokes) ∧
  ti' = ti + sumOf (spokeCost enrollments anchors params hk) spokes ∧
  w' = w ++ concat (spokeWarning anchors hk <$> spokes).
Proof.
  intros Hha. revert bd bd' ti ti' w w'.
  induction l as [|k l IH]; intros bd bd' ti ti' w w' H.
  - injection H as <- <- <-. simpl. rewrite !app_nil_r. unfold sumOf. simpl.
    repeat split. lra.
  - loop_step H spokeStep Hs. simpl. rewrite filter_cons.
    destruct (decide (k = hk)) as [->|Hne].
    + injection Hs as <-.
      rewrite decide_False by (intros Hc; by apply Hc). by apply IH in H.
    + rewrite decide_True by done.
      destruct (anchors !! k) as [a|] eqn:Ea; simpl in Hs; [|done].
      destruct (enrollments !! k) as [e|] eqn:Ee; simpl in Hs; [|done].
      injection Hs as <-.
      apply IH in H as (-> & -> & ->). clear IH.
      assert (spokeDistance anchors hk k =
              milesBetween {| lat := anchors.lat a; lon := anchors.lon a |}
                           {| lat := anchors.lat ha; lon := anchors.lon ha |})
        as Ed.
      { unfold spokeDistance, anchorPointOf. by rewrite Ea, Hha. }
      assert (totalOf enrollments k = enrollmentData.total e) as Et
        by (unfold totalOf; by rewrite Ee).
      assert (anchorNameOf anchors k = anchors.displayName a) as En
        by (unfold anchorNameOf; by rewrite Ea).
      rewrite fmap_cons, sumOf_cons, <- !app_assoc.
      rewrite <- Ed, <- Et, <- En. split; [done|]. split.
      * unfold spokeCost at 2. lra.
      * rewrite fmap_cons, concat_cons.
        generalize (concat (spokeWarning anchors hk <$>
                              filter (λ k0 : string, k0 ≠ hk) l)).
        intros rest. unfold spokeWarning.
        destruct (Rgt_dec _ 60); by rewrite <- ?app_assoc.
Qed.

End loops.

(** ** The fields of a successful estimate *)

Lemma compute_ok_fields
    (budgets : BudgetsMap) (enrollments : LeaEnrollmentMap)
    (anchors : DistrictAnchorsMap) (selectedKeys : list string)
    (params : ConsolidationParamsV1) (r : ConsolidationResultV1) :
  computeConsolidationV1 budgets enrollments anchors selectedKeys params
    = Some (Result r) →
  ok r = true →
  let unique := uniqueKeys selectedKeys in
  let spokes := spokesOf selectedKeys (hubKey r) in
  let rate := clamp (adminReductionRate params) 0 1 in
  hubKey r ∈ unique ∧
  allPresent budgets enrollments anchors selectedKeys ∧
  hubName r = anchorNameOf anchors (hubKey r) ∧
  combinedEnrollment r = sumOf (totalOf enrollments) unique ∧
  combinedSpending r = sumOf (spendingOf budgets) unique ∧
  hubSpending r = spendingOf budgets (hubKey r) ∧
  spokesSpending r = combinedSpending r - hubSpending r ∧
  adminBaselineHub r = adminOf budgets (hubKey r) ∧
  adminBaselineSpokes r = sumOf (adminOf budgets) spokes ∧
  adminSavings r = rate * adminBaselineSpokes r ∧
  transportationIncrease r =
    sumOf (spokeCost enrollments anchors params (hubKey r)) spokes ∧
  netImpact r = adminSavings r - transportationIncrease r ∧
  projectedSpending r = combinedSpending r - netImpact r ∧
  baselinePerPupil r =
    (if Rgt_dec (combinedEnrollment r) 0
     then combinedSpending r / combinedEnrollment r else 0) ∧
  projectedPerPupil r =
    (if Rgt_dec (combinedEnrollment r) 0
     then projectedSpending r / combinedEnrollment r else 0) ∧
  adminSavingsPctCombined r = safePct (adminSavings r) (combinedSpending r) ∧
  transportIncreasePctCombined r =
    safePct (transportationIncrease r) (combinedSpending r) ∧
  netImpactPctCombined r = safePct (netImpact r) (combinedSpending r) ∧
  adminSavingsPctSpokesSpending r =
    safePct (adminSavings r) (spokesSpending r) ∧
  transportIncreasePctSpokesSpending r =
    safePct (transportationIncrease r) (spokesSpending r) ∧
  netImpactPctSpokesSpending r = safePct (netImpact r) (spokesSpending r) ∧
  spokeBreakdown r =
    sortBy (λ a b, cost b - cost a)
      (spokeEntry enrollments anchors params (hubKey r) <$> spokes) ∧
  warnings r =
    concat ((λ k, from_option (budgetWarnings) [] (budgets !! k)) <$> unique) ++
    concat (spokeWarning anchors (hubKey r) <$> spokes).
Proof.
  intros H Hok unique spokes rate.
  pose proof (hub_in_selection _ _ _ _ _ _ H Hok) as Hhub. fold unique in Hhub.
  assert (allPresent budgets enrollments anchors selectedKeys) as Hall.
  { intros k Hk. by apply (compute_ok_own _ _ _ _ _ _ _ H Hok). }
  unfold computeConsolidationV1 in H. fold unique in H.
  set (p := presence budgets enrollments anchors unique) in *.
  destruct (decide (length unique < 2)%nat) as [Hlen|Hlen].
  { injection H as <-. discriminate Hok. }
  destruct (negb (_ && _)) eqn:Hchk.
  { injection H as <-. discriminate Hok. }
  apply negb_false_iff in Hchk.
  apply andb_true_iff in Hchk as [Hchk Ha].
  apply andb_true_iff in Hchk as [Hb He].
  apply bool_decide_eq_true in Hb, He, Ha.
  destruct (negb (bool_decide (Forall _ unique))); [discriminate H|].
  destruct (presence_spec budgets enrollments anchors unique)
    as (_ & _ & _ & Hw). fold p in Hw.
  destruct (head unique) as [first|] eqn:Hfirst; simpl in H; [|discriminate H].
  destruct (forOf (hubStep enrollments) _ _) as [[hk he]|] eqn:Hhubl;
    simpl in H; [|discriminate H].
  destruct (anchors !! hk) as [ha|] eqn:Hha; simpl in H; [|discriminate H].
  destruct (budgets !! hk) as [hb|] eqn:Hhb; simpl in H; [|discriminate H].
  destruct (forOf (totalsStep _ _ _) _ _) as [[[cE cS] aS]|] eqn:Htot;
    simpl in H; [|discriminate H].
  destruct (forOf (spokeStep _ _ _ _ _ _) _ _) as [[[bd ti] w]|] eqn:Hsp;
    simpl in H; [|discriminate H].
  apply totals_loop in Htot as (-> & -> & ->).
  apply (spoke_loop_closed _ _ params hk ha) in Hsp as (-> & -> & ->); [|done].
  assert (anchorNameOf anchors hk = anchors.displayName ha) as En
    by (unfold anchorNameOf; by rewrite Hha).
  assert (spendingOf budgets hk = budgets.totalExpenditures hb) as Es
    by (unfold spendingOf; by rewrite Hhb).
  assert (adminOf budgets hk = budgets.centralAdministrationModel hb) as Ea
    by (unfold adminOf; by rewrite Hhb).
  injection H as <-. subst spokes rate. unfold spokesOf. simpl in *.
  fold unique. rewrite Hw, En, Es, Ea, !Rplus_0_l.
  split; [done|]. split; [exact Hall|]. repeat split; done.
Qed.

(** ** Small facts used below *)

Lemma uniqueFrom_id (seen : gset string) (l : list string) :
  NoDup l → (∀ k, k ∈ l → k ∉ seen) → uniqueFrom seen l = l.
Proof.
  revert seen. induction l as [|k l IH]; intros seen Hnd Hseen; [done|].
  apply NoDup_cons in Hnd as [Hk Hnd]. simpl.
  destruct (decide (k ∈ seen)) as [Hin|_].
  { exfalso. apply (Hseen k); [by left|done]. }
  f_equal. apply IH; [done|]. intros k' Hk'.
  rewrite elem_of_union, elem_of_singleton. intros [->|Hs]; [done|].
  apply (Hseen k'); [by right|done].
Qed.

Lemma uniqueKeys_idemp (l : list string) :
  uniqueKeys (uniqueKeys l) = uniqueKeys l.
Proof.
  unfold uniqueKeys at 1. apply uniqueFrom_id; [apply uniqueKeys_NoDup|].
  intros k _. apply not_elem_of_empty.
Qed.

Lemma Math_round_bounds (x : R) : x - / 2 < Math_round x <= x + / 2.
Proof.
  unfold Math_round. destruct (base_Int_part (x + / 2)) as [H1 H2]. lra.
Qed.

Lemma Math_round_0 : Math_round 0 = 0.
Proof.
  unfold Math_round.
  replace (Int_part (0 + / 2)) with 0%Z; [done|].
  apply Int_part_spec. simpl. lra.
Qed.

Lemma Math_round_nonneg (x : R) : 0 <= x → 0 <= Math_round x.
Proof.
  intros Hx. unfold Math_round. apply IZR_le.
  destruct (base_Int_part (x + / 2)) as [_ H2].
  assert (-1 < IZR (Int_part (x + / 2))) as H by lra.
  apply lt_IZR in H. lia.
Qed.

Lemma totalOf_pos (enrollments : LeaEnrollmentMap) (k : string) :
  hasEnrollment enrollments k → 0 < totalOf enrollments k.
Proof. intros (e & He & Hpos). unfold totalOf. by rewrite He. Qed.

Lemma spokeDistance_range (anchors : DistrictAnchorsMap) (hub k : string) :
  validLat (anchorPointOf anchors k) → validLat (anchorPointOf anchors hub) →
  0 <= spokeDistance anchors hub k <= PI * EARTH_RADIUS_MILES.
Proof. intros Hk Hh. by apply DistanceMore.milesBetween_range. Qed.

Lemma spokeCost_nonneg (enrollments : LeaEnrollmentMap)
    (anchors : DistrictAnchorsMap) (params : ConsolidationParamsV1)
    (hub k : string) :
  validLat (anchorPointOf anchors k) → validLat (anchorPointOf anchors hub) →
  hasEnrollment enrollments k →
  0 <= spokeCost enrollments anchors params hub k.
Proof.
  intros Hk Hh He. unfold spokeCost.
  pose proof (spokeDistance_range anchors hub k Hk Hh) as [Hd _].
  pose proof (totalOf_pos _ _ He) as Ht.
  pose proof (clamp_range (affectedShare params)) as [Hs _].
  pose proof (Rmax_l 0 (costPerStudentMile params)) as Hc.
  apply Rmult_le_pos; [apply Rmult_le_pos; [apply Rmult_le_pos|]|]; lra.
Qed.

Lemma spokeCost_free (enrollments : LeaEnrollmentMap)
    (anchors : DistrictAnchorsMap) (params : ConsolidationParamsV1)
    (hub k : string) :
  costPerStudentMile params <= 0 ∨ affectedShare params <= 0 →
  spokeCost enrollments anchors params hub k = 0.
Proof.
  intros [Hc|Hs]; unfold spokeCost.
  - rewrite (Rmax_left 0 _ Hc). lra.
  - unfold clamp. rewrite (Rmin_right 1 (affectedShare params)) by lra.
    rewrite (Rmax_left 0 _ Hs). lra.
Qed.

Lemma spokesOf_elem (selectedKeys : list string) (hub k : string) :
  k ∈ spokesOf selectedKeys hub ↔ k ∈ selectedKeys ∧ k ≠ hub.
Proof.
  unfold spokesOf. rewrite list_elem_of_filter, uniqueKeys_elem. tauto.
Qed.

Lemma sample_ok_any (keys : list string) (params : ConsolidationParamsV1) :
  (2 <= length (uniqueKeys keys))%nat →
  (∀ k, k ∈ keys → k ∈ ["barrington"; "providence"; "cranston"]) →
  ∃ r, computeConsolidationV1 sampleBudgets sampleEnrollments sampleAnchors
         keys params = Some (Result r) ∧ ok r = true.
Proof.
  intros Hlen Hkeys. apply compute_ok_intro; [done|].
  intros k Hk. apply Hkeys in Hk.
  assert (k = "barrington" ∨ k = "providence" ∨ k = "cranston")
    as [-> | [-> | ->]].
  { rewrite !elem_of_cons in Hk. rewrite elem_of_nil in Hk. tauto. }
  - repeat split; [by eexists| |by eexists].
    eexists. split; [reflexivity|]. simpl. lra.
  - repeat split; [by eexists| |by eexists].
    eexists. split; [reflexivity|]. simpl. lra.
  - repeat split; [by eexists| |by eexists].
    eexists. split; [reflexivity|]. simpl. lra.
Qed.

Lemma sample_validLat (k : string) : validLat (anchorPointOf sampleAnchors k).
Proof.
  unfold validLat, anchorPointOf, sampleAnchors.
  destruct (decide (k = "providence")) as [->|H1].
  { rewrite lookup_insert. simpl. lra. }
  rewrite lookup_insert_ne by done.
  destruct (decide (k = "barrington")) as [->|H2].
  { rewrite lookup_insert. simpl. lra. }
  rewrite lookup_insert_ne by done.
  destruct (decide (k = "cranston")) as [->|H3].
  { rewrite lookup_insert. simpl. lra. }
  rewrite lookup_insert_ne by done. rewrite lookup_empty. simpl. lra.
Qed.

(** ** Further results on the estimator *)


(** An object with [NaN] numbers is returned past the presence check
    only. *)
Lemma compute_NaN_inv
    (budgets : BudgetsMap) (enrollments : LeaEnrollmentMap)
    (anchors : DistrictAnchorsMap) (selectedKeys : list string)
    (params : ConsolidationParamsV1) :
  computeConsolidationV1 budgets enrollments anchors selectedKeys params
    = Some ResultNaN →
  (2 <= length (uniqueKeys selectedKeys))%nat ∧
  (∀ k, k ∈ selectedKeys →
     ¬ absentFrom budgets k ∧ hasEnrollment enrollments k ∧
     ¬ absentFrom anchors k) ∧
  ¬ allPresent budgets enrollments anchors selectedKeys.
Proof.
  intros H. unfold computeConsolidationV1 in H.
  set (unique := uniqueKeys selectedKeys) in *.
  set (p := presence budgets enrollments anchors unique) in *.
  destruct (decide (length unique < 2)%nat) as [Hlen|Hlen];
    [discriminate H|].
  destruct (negb (_ && _)) eqn:Hchk; [discriminate H|].
  apply negb_false_iff in Hchk.
  apply andb_true_iff in Hchk as [Hchk Ha].
  apply andb_true_iff in Hchk as [Hb He].
  apply bool_decide_eq_true in Hb, He, Ha.
  split; [lia|]. split.
  - intros k Hk. apply uniqueKeys_elem in Hk.
    destruct (presence_all budgets enrollments anchors unique k Hb He Ha Hk)
      as (Hkb & Hke & Hka).
    split; [|split; [done|]]; rewrite <- absentFrom_notFound; congruence.
  - destruct (negb (bool_decide (Forall _ unique))) eqn:Hown.
    + apply negb_true_iff, bool_decide_eq_false in Hown.
      intros Hall. apply Hown, Forall_forall. intros k Hk.
      apply uniqueKeys_elem, Hall in Hk as (? & _ & ?). done.
    + destruct (head unique); simpl in H; [|discriminate H].
      destruct (forOf (hubStep _) _ _) as [[hk he]|]; simpl in H;
        [|discriminate H].
      destruct (anchors !! hk); simpl in H; [|discriminate H].
      destruct (budgets !! hk); simpl in H; [|discriminate H].
      destruct (forOf (totalsStep _ _ _) _ _) as [[[cE cS] aS]|];
        simpl in H; [|discriminate H].
      destruct (forOf (spokeStep _ _ _ _ _ _) _ _) as [[[bd ti] w]|];
        simpl in H; discriminate H.
Qed.

(** X2. The object returned has [ok = true] exactly when at least two
    distinct keys are selected and every selected key passes the three
    tests of the presence check: something stands for it in the budgets
    and in the anchors (a record, or a property of [Object.prototype]),
    and it has an enrollment record with a positive total.  The object
    has [ok = true] and real numbers exactly when at least two distinct
    keys are selected and every selected key has a budget record, an
    enrollment record with a positive total, and an anchor record. *)
Theorem X2_estimate_ok_iff
    (budgets : BudgetsMap) (enrollments : LeaEnrollmentMap)
    (anchors : DistrictAnchorsMap) (selectedKeys : list string)
    (params : ConsolidationParamsV1) :
  ∃ o,
    computeConsolidationV1 budgets enrollments anchors selectedKeys params
      = Some o ∧
    (returned_ok o = true ↔
     (2 <= length (uniqueKeys selectedKeys))%nat ∧
     ∀ k, k ∈ selectedKeys →
       ¬ absentFrom budgets k ∧ hasEnrollment enrollments k ∧
       ¬ absentFrom anchors k) ∧
    ((∃ r, o = Result r ∧ ok r = true) ↔
     (2 <= length (uniqueKeys selectedKeys))%nat ∧
     allPresent budgets enrollments anchors selectedKeys).
Proof.
  destruct (compute_total budgets enrollments anchors selectedKeys params)
    as [o Ho].
  exists o. split; [done|].
  assert ((∃ r, o = Result r ∧ ok r = true) ↔
          (2 <= length (uniqueKeys selectedKeys))%nat ∧
          allPresent budgets enrollments anchors selectedKeys) as Hreal.
  { split.
    - intros (r & -> & Hok). split.
      + by destruct (compute_ok_inv _ _ _ _ _ _ Ho Hok)
          as (? & ? & ? & ? & ? & ? & ? & ? & ? & Hlen & _).
      + intros k Hk. by apply (compute_ok_own _ _ _ _ _ _ _ Ho Hok).
    - intros [Hlen Hall].
      destruct (compute_ok_intro budgets enrollments anchors selectedKeys
                  params Hlen Hall) as (r & Hr & Hok).
      exists r. split; [congruence|done]. }
  split; [|done]. split.
  - destruct o as [r|]; simpl.
    + intros Hok. destruct (proj1 Hreal) as [Hlen Hall]; [by exists r|].
      split; [done|]. intros k Hk. destruct (Hall k Hk) as ([b Hb] & He & [a Ha]).
      split; [|split; [done|]]; intros [Hn _]; congruence.
    + intros _. by destruct (compute_NaN_inv _ _ _ _ _ Ho) as (? & ? & _).
  - intros [Hlen Hpass].
    destruct (decide (Forall (λ k, is_Some (budgets !! k) ∧
                                   is_Some (anchors !! k))
                        (uniqueKeys selectedKeys))) as [Hown|Hown].
    + rewrite Forall_forall in Hown.
      destruct (proj2 Hreal) as (r & -> & Hok); [|done].
      split; [done|]. intros k Hk. destruct (Hpass k Hk) as (_ & He & _).
      apply uniqueKeys_elem in Hk. destruct (Hown k Hk). done.
    + apply not_Forall_Exists in Hown; [|apply _].
      apply Exists_exists in Hown as (k & Hk & Hnot).
      apply (proj1 (uniqueKeys_elem _ _)) in Hk.
      assert (budgets !! k = None ∨ anchors !! k = None) as Hnone.
      { destruct (budgets !! k) eqn:Eb; [|by left].
        destruct (anchors !! k) eqn:Ea; [|by right].
        destruct Hnot. split; by eexists. }
      pose proof (prototype_record_result budgets enrollments anchors
                    selectedKeys params k Hlen Hpass Hk Hnone) as HNaN.
      rewrite Ho in HNaN. by injection HNaN as ->.
Qed.

Lemma X2_estimate_ok_iff_witness :
  ∃ o,
    computeConsolidationV1 sampleBudgets strayEnrollments sampleAnchors
      ["constructor"; "providence"] sampleParams = Some o ∧
    sampleBudgets !! "constructor" = None ∧
    returned_ok o = true ∧
    ¬ ∃ r, o = Result r.
Proof.
  destruct (X2_estimate_ok_iff sampleBudgets strayEnrollments sampleAnchors
              ["constructor"; "providence"] sampleParams)
    as (o & Ho & Hok & Hreal).
  destruct sample_hasEnrollment_providence as (_ & Hp & Hc).
  assert (returned_ok o = true) as Htrue.
  { apply Hok. split; [vm_compute; lia|].
    intros k. rewrite !elem_of_cons, elem_of_nil.
    intros [->|[->|[]]].
    - split; [|split; [exact Hc|]]; intros [_ Hn]; apply Hn; by left.
    - split; [|split; [exact Hp|]]; intros [Hn _]; discriminate Hn. }
  exists o. split; [exact Ho|]. split; [reflexivity|].
  split; [exact Htrue|].
  intros [r ->]. simpl in Htrue.
  destruct (proj1 Hreal) as [_ Hall]; [by exists r|].
  destruct (Hall "constructor") as ([b Hb] & _); [by left|].
  discriminate Hb.
Defined.

(** X3. Repeated keys in the selection have no effect: the estimator
    returns for a selection what it returns for the list of its distinct
    keys in order of first occurrence. *)
Theorem X3_estimate_ignores_duplicates
    (budgets : BudgetsMap) (enrollments : LeaEnrollmentMap)
    (anchors : DistrictAnchorsMap) (selectedKeys : list string)
    (params : ConsolidationParamsV1) :
  computeConsolidationV1 budgets enrollments anchors
    (uniqueKeys selectedKeys) params =
  computeConsolidationV1 budgets enrollments anchors selectedKeys params.
Proof. unfold computeConsolidationV1. by rewrite uniqueKeys_idemp. Qed.

(** X4. In a successful estimate the combined enrollment and the
    combined spending are the sums of the districts' totals over the
    distinct selected keys, the hub spending is the hub's total
    expenditure, and the spokes spending is the sum over the other
    districts, so that hub and spokes spending add up to the combined
    spending (numbers as reals). *)
Theorem X4_estimate_totals
    (budgets : BudgetsMap) (enrollments : LeaEnrollmentMap)
    (anchors : DistrictAnchorsMap) (selectedKeys : list string)
    (params : ConsolidationParamsV1) (r : ConsolidationResultV1) :
  computeConsolidationV1 budgets enrollments anchors selectedKeys params
    = Some (Result r) →
  ok r = true →
  combinedEnrollment r = sumOf (totalOf enrollments) (uniqueKeys selectedKeys) ∧
  combinedSpending r = sumOf (spendingOf budgets) (uniqueKeys selectedKeys) ∧
  hubSpending r = spendingOf budgets (hubKey r) ∧
  spokesSpending r =
    sumOf (spendingOf budgets) (spokesOf selectedKeys (hubKey r)) ∧
  combinedSpending r = hubSpending r + spokesSpending r.
Proof.
  intros Hr Hok.
  destruct (compute_ok_fields _ _ _ _ _ _ Hr Hok)
    as (Hhub & _ & _ & HcE & HcS & HhS & HsS & _).
  pose proof (sumOf_take_out (spendingOf budgets) _ _
                (uniqueKeys_NoDup selectedKeys) Hhub) as Hsplit.
  fold (spokesOf selectedKeys (hubKey r)) in Hsplit.
  repeat split; try done; lra.
Qed.

Lemma X4_estimate_totals_witness :
  ∃ r,
    computeConsolidationV1 sampleBudgets sampleEnrollments sampleAnchors
      sampleKeys sampleParams = Some (Result r) ∧
    ok r = true ∧
    combinedEnrollment r = sumOf (totalOf sampleEnrollments) (uniqueKeys sampleKeys) ∧
    combinedSpending r = sumOf (spendingOf sampleBudgets) (uniqueKeys sampleKeys) ∧
    hubSpending r = spendingOf sampleBudgets (hubKey r) ∧
    spokesSpending r =
      sumOf (spendingOf sampleBudgets) (spokesOf sampleKeys (hubKey r)) ∧
    combinedSpending r = hubSpending r + spokesSpending r.
Proof.
  destruct sample_ok as (r & Hr & Hok). exists r.
  split; [exact Hr|]. split; [exact Hok|].
  exact (X4_estimate_totals _ _ _ _ _ _ Hr Hok).
Defined.

(** X5. In a successful estimate the administrative baseline of the
    spokes is the sum of the modelled central administration of the
    selected districts other than the hub; the hub's own administration
    is kept apart, never saved; and the savings are the clamped reduction
    rate times the spokes' baseline. *)
Theorem X5_estimate_admin_savings
    (budgets : BudgetsMap) (enrollments : LeaEnrollmentMap)
    (anchors : DistrictAnchorsMap) (selectedKeys : list string)
    (params : ConsolidationParamsV1) (r : ConsolidationResultV1) :
  computeConsolidationV1 budgets enrollments anchors selectedKeys params
    = Some (Result r) →
  ok r = true →
  adminBaselineHub r = adminOf budgets (hubKey r) ∧
  adminBaselineSpokes r =
    sumOf (adminOf budgets) (spokesOf selectedKeys (hubKey r)) ∧
  adminBaselineHub r + adminBaselineSpokes r =
    sumOf (adminOf budgets) (uniqueKeys selectedKeys) ∧
  adminSavings r =
    clamp (adminReductionRate params) 0 1 * adminBaselineSpokes r.
Proof.
  intros Hr Hok.
  destruct (compute_ok_fields _ _ _ _ _ _ Hr Hok)
    as (Hhub & _ & _ & _ & _ & _ & _ & HaH & HaS & Hsav & _).
  pose proof (sumOf_take_out (adminOf budgets) _ _
                (uniqueKeys_NoDup selectedKeys) Hhub) as Hsplit.
  fold (spokesOf selectedKeys (hubKey r)) in Hsplit.
  repeat split; try done; lra.
Qed.

Lemma X5_estimate_admin_savings_witness :
  ∃ r,
    computeConsolidationV1 sampleBudgets sampleEnrollments sampleAnchors
      sampleKeys sampleParams = Some (Result r) ∧
    ok r = true ∧
    adminBaselineHub r = adminOf sampleBudgets (hubKey r) ∧
    adminBaselineSpokes r =
      sumOf (adminOf sampleBudgets) (spokesOf sampleKeys (hubKey r)) ∧
    adminBaselineHub r + adminBaselineSpokes r =
      sumOf (adminOf sampleBudgets) (uniqueKeys sampleKeys) ∧
    adminSavings r =
      clamp (adminReductionRate sampleParams) 0 1 * adminBaselineSpokes r.
Proof.
  destruct sample_ok as (r & Hr & Hok). exists r.
  split; [exact Hr|]. split; [exact Hok|].
  exact (X5_estimate_admin_savings _ _ _ _ _ _ Hr Hok).
Defined.

(** X6. In a successful estimate the transportation increase is the sum
    over the spokes of distance to the hub times enrollment times the
    clamped affected share times the cost per student-mile (negative cost
    counted as zero).  When the anchors of the selected districts have
    latitudes between -90 and 90 it is not negative, so the net impact
    never exceeds the administrative savings. *)
Theorem X6_estimate_transport
    (budgets : BudgetsMap) (enrollments : LeaEnrollmentMap)
    (anchors : DistrictAnchorsMap) (selectedKeys : list string)
    (params : ConsolidationParamsV1) (r : ConsolidationResultV1) :
  computeConsolidationV1 budgets enrollments anchors selectedKeys params
    = Some (Result r) →
  ok r = true →
  (∀ k, k ∈ selectedKeys → validLat (anchorPointOf anchors k)) →
  transportationIncrease r =
    sumOf (spokeCost enrollments anchors params (hubKey r))
          (spokesOf selectedKeys (hubKey r)) ∧
  0 <= transportationIncrease r ∧
  netImpact r <= adminSavings r.
Proof.
  intros Hr Hok Hlat.
  destruct (compute_ok_fields _ _ _ _ _ _ Hr Hok)
    as (Hhub & Hall & _ & _ & _ & _ & _ & _ & _ & _ & Hti & Hnet & _).
  apply (proj1 (uniqueKeys_elem _ _)) in Hhub.
  assert (0 <= transportationIncrease r) as Hpos.
  { rewrite Hti. apply sumOf_nonneg. intros k Hk.
    apply spokesOf_elem in Hk as [Hk _].
    apply spokeCost_nonneg; [by apply Hlat|by apply Hlat|].
    by destruct (Hall k Hk) as (_ & He & _). }
  repeat split; [done|done|lra].
Qed.

Lemma X6_estimate_transport_witness :
  ∃ r,
    computeConsolidationV1 sampleBudgets sampleEnrollments sampleAnchors
      sampleKeys sampleParams = Some (Result r) ∧
    ok r = true ∧
    transportationIncrease r =
      sumOf (spokeCost sampleEnrollments sampleAnchors sampleParams (hubKey r))
            (spokesOf sampleKeys (hubKey r)) ∧
    0 <= transportationIncrease r ∧
    netImpact r <= adminSavings r.
Proof.
  destruct sample_ok as (r & Hr & Hok). exists r.
  split; [exact Hr|]. split; [exact Hok|].
  exact (X6_estimate_transport _ _ _ _ _ _ Hr Hok
           (λ k _, sample_validLat k)).
Defined.

(** X7. When the cost per student-mile or the affected share is zero or
    negative, a successful estimate has no transportation increase: the
    net impact is the administrative savings, the projected spending is
    the combined spending less the savings, and every entry of the
    breakdown has cost zero. *)
Theorem X7_estimate_free_transport
    (budgets : BudgetsMap) (enrollments : LeaEnrollmentMap)
    (anchors : DistrictAnchorsMap) (selectedKeys : list string)
    (params : ConsolidationParamsV1) (r : ConsolidationResultV1) :
  computeConsolidationV1 budgets enrollments anchors selectedKeys params
    = Some (Result r) →
  ok r = true →
  costPerStudentMile params <= 0 ∨ affectedShare params <= 0 →
  transportationIncrease r = 0 ∧
  netImpact r = adminSavings r ∧
  projectedSpending r = combinedSpending r - adminSavings r ∧
  ∀ d, d ∈ spokeBreakdown r → cost d = 0.
Proof.
  intros Hr Hok Hfree.
  destruct (compute_ok_fields _ _ _ _ _ _ Hr Hok)
    as (_ & _ & _ & _ & _ & _ & _ & _ & _ & _ & Hti & Hnet & Hproj & _ & _ &
        _ & _ & _ & _ & _ & _ & Hbd & _).
  assert (transportationIncrease r = 0) as H0.
  { rewrite Hti. apply sumOf_zero. intros k _. by apply spokeCost_free. }
  repeat split; [done|lra|lra|].
  intros d Hd. rewrite Hbd, sortBy_Permutation in Hd.
  apply list_elem_of_fmap in Hd as (k & -> & _). simpl.
  rewrite spokeCost_free by done. apply Math_round_0.
Qed.

Lemma X7_estimate_free_transport_witness :
  let params := {| adminReductionRate := 1 / 2; costPerStudentMile := 0;
                   affectedShare := 1 |} in
  ∃ r,
    computeConsolidationV1 sampleBudgets sampleEnrollments sampleAnchors
      sampleKeys params = Some (Result r) ∧
    ok r = true ∧
    transportationIncrease r = 0 ∧
    netImpact r = adminSavings r ∧
    projectedSpending r = combinedSpending r - adminSavings r ∧
    ∀ d, d ∈ spokeBreakdown r → cost d = 0.
Proof.
  intros params.
  assert (2 <= length (uniqueKeys sampleKeys))%nat as Hlen
    by (rewrite sampleKeys_unique; simpl; lia).
  assert (∀ k, k ∈ sampleKeys → k ∈ ["barrington"; "providence"; "cranston"])
    as Hkeys.
  { intros k. unfold sampleKeys. rewrite !elem_of_cons, !elem_of_nil. tauto. }
  destruct (sample_ok_any sampleKeys params Hlen Hkeys) as (r & Hr & Hok).
  exists r. split; [exact Hr|]. split; [exact Hok|].
  assert (costPerStudentMile params <= 0 ∨ affectedShare params <= 0) as Hfree
    by (left; simpl; lra).
  exact (X7_estimate_free_transport _ _ _ _ _ _ Hr Hok Hfree).
Defined.

Lemma sin_sqr_le (x : R) : sin x * sin x <= x * x.
Proof.
  assert (∀ y, 0 < y → - y <= sin y <= y) as Hpos.
  { intros y Hy. pose proof (sin_lt_x y Hy) as Hlt.
    pose proof (SIN_bound y) as [Hlo _]. pose proof PI2_1 as Hpi.
    split; [|lra].
    destruct (Rle_dec 1 y) as [H1|H1]; [lra|].
    assert (0 < sin y) by (apply sin_gt_0; lra). lra. }
  destruct (Rtotal_order x 0) as [Hneg|[->|Hx]].
  - destruct (Hpos (- x)) as [Hlo Hhi]; [lra|].
    rewrite sin_neg in Hlo, Hhi. nra.
  - rewrite sin_0. lra.
  - destruct (Hpos x Hx) as [Hlo Hhi]. nra.
Qed.

Lemma sin_3_400 : 1 / 200 < sin (3 / 400).
Proof.
  assert (0 <= 3 / 400) as H0 by lra.
  assert (3 / 400 <= PI) as H1 by (pose proof PI2_1; lra).
  pose proof (SIN (3 / 400) H0 H1) as [Hlb _].
  unfold sin_lb, sin_approx, sum_f_R0, sin_term in Hlb.
  simpl in Hlb. lra.
Qed.

(** Two points whose latitudes and whose longitudes are at most a fifth
    of a degree apart are less than 60 miles apart. *)
Lemma milesBetween_near (a b : LatLon) :
  validLat a → validLat b →
  - (1 / 5) <= lat b - lat a <= 1 / 5 →
  - (1 / 5) <= lon b - lon a <= 1 / 5 →
  milesBetween a b <= 60.
Proof.
  intros Ha Hb Hlat Hlon.
  pose proof PI_RGT_0 as Hpi0. pose proof PI_4 as Hpi4.
  pose proof PI2_1 as Hpi2.
  pose proof (DistanceMore.haversine_range a b Ha Hb) as [Hh0 Hh1].
  rewrite DistanceFacts.milesBetween_haversine.
  assert (DistanceSpec.haversine a b <= 1 / 200 * (1 / 200)) as Hsmall.
  { unfold validLat in Ha, Hb.
    apply DistanceMore.toRad_valid in Ha, Hb.
    assert (0 <= cos (toRad (lat a)) <= 1) as [Hca Hca'].
    { split; [apply cos_ge_0; lra|apply COS_bound]. }
    assert (0 <= cos (toRad (lat b)) <= 1) as [Hcb Hcb'].
    { split; [apply cos_ge_0; lra|apply COS_bound]. }
    unfold DistanceSpec.haversine.
    pose proof (sin_sqr_le (toRad (lat b - lat a) / 2)) as Hs1.
    pose proof (sin_sqr_le (toRad (lon b - lon a) / 2)) as Hs2.
    set (s1 := sin (toRad (lat b - lat a) / 2)) in *.
    set (s2 := sin (toRad (lon b - lon a) / 2)) in *.
    set (ca := cos (toRad (lat a))) in *.
    set (cb := cos (toRad (lat b))) in *.
    assert (0 <= s2 * s2) as Hs2' by nra.
    assert (0 <= ca * cb <= 1) as [Hcc Hcc'] by (split; nra).
    assert (ca * cb * (s2 * s2) <= s2 * s2) as Ht by nra.
    assert (toRad (lat b - lat a) / 2 * (toRad (lat b - lat a) / 2)
            <= 1 / 400 * (1 / 400)) as Hx1.
    { unfold toRad.
      assert (- (1 / 400) <= (lat b - lat a) * PI / 180 / 2 <= 1 / 400)
        by (split; nra).
      nra. }
    assert (toRad (lon b - lon a) / 2 * (toRad (lon b - lon a) / 2)
            <= 1 / 400 * (1 / 400)) as Hx2.
    { unfold toRad.
      assert (- (1 / 400) <= (lon b - lon a) * PI / 180 / 2 <= 1 / 400)
        by (split; nra).
      nra. }
    replace (s1 * s1 + ca * cb * s2 * s2)
      with (s1 * s1 + ca * cb * (s2 * s2)) by ring.
    lra. }
  assert (sqrt (DistanceSpec.haversine a b) <= 1 / 200) as Hsq.
  { rewrite <- (sqrt_square (1 / 200)) by lra. by apply sqrt_le_1_alt. }
  pose proof (DistanceMore.asin_nonneg _ (sqrt_pos (DistanceSpec.haversine a b)))
    as [Ht0 Ht1].
  assert (sin (asin (sqrt (DistanceSpec.haversine a b)))
          = sqrt (DistanceSpec.haversine a b)) as Hsin.
  { apply sin_asin. pose proof (sqrt_pos (DistanceSpec.haversine a b)). lra. }
  assert (asin (sqrt (DistanceSpec.haversine a b)) <= 3 / 400) as Hasin.
  { destruct (Rle_dec (asin (sqrt (DistanceSpec.haversine a b))) (3 / 400))
      as [|Hgt]; [done|].
    assert (sin (3 / 400)
            < sin (asin (sqrt (DistanceSpec.haversine a b)))) as Hinc
      by (apply sin_increasing_1; lra).
    pose proof sin_3_400. lra. }
  unfold EARTH_RADIUS_MILES. lra.
Qed.

Lemma sample_spoke_near (k : string) :
  k ∈ ["barrington"; "cranston"] →
  spokeDistance sampleAnchors "providence" k <= 60.
Proof.
  intros Hk. unfold spokeDistance.
  apply milesBetween_near; try apply sample_validLat.
  - rewrite !elem_of_cons, elem_of_nil in Hk.
    destruct Hk as [->|[->|[]]]; vm_compute; lra.
  - rewrite !elem_of_cons, elem_of_nil in Hk.
    destruct Hk as [->|[->|[]]]; vm_compute; lra.
Qed.

(** X8. The warnings of a successful estimate are, first, for every
    distinct selected district (the hub included) in selection order and
    for each of its budget flags in order, the warning made of the
    district's display name in the budgets, a colon, a space and the flag;
    then, for each spoke in selection order whose distance to the hub
    exceeds 60 miles, one warning that the distance seems high. *)
Theorem X8_estimate_warnings
    (budgets : BudgetsMap) (enrollments : LeaEnrollmentMap)
    (anchors : DistrictAnchorsMap) (selectedKeys : list string)
    (params : ConsolidationParamsV1) (r : ConsolidationResultV1) :
  computeConsolidationV1 budgets enrollments anchors selectedKeys params
    = Some (Result r) →
  ok r = true →
  warnings r =
    expectedFlagWarnings budgets (uniqueKeys selectedKeys) ++
    concat (spokeWarning anchors (hubKey r)
              <$> spokesOf selectedKeys (hubKey r)).
Proof.
  intros Hr Hok.
  destruct (compute_ok_fields _ _ _ _ _ _ Hr Hok)
    as (_ & _ & _ & _ & _ & _ & _ & _ & _ & _ & _ & _ & _ & _ & _ &
        _ & _ & _ & _ & _ & _ & _ & Hw).
  by rewrite Hw, expectedFlagWarnings_eq.
Qed.

Lemma X8_estimate_warnings_witness :
  ∃ r,
    computeConsolidationV1 sampleBudgets sampleEnrollments sampleAnchors
      sampleKeys sampleParams = Some (Result r) ∧
    ok r = true ∧
    warnings r = ["Providence: admin_share_outlier"].
Proof.
  destruct sample_ok as (r & Hr & Hok). exists r.
  split; [exact Hr|]. split; [exact Hok|].
  rewrite (X8_estimate_warnings _ _ _ _ _ _ Hr Hok).
  rewrite (sample_hub _ _ Hr Hok).
  assert (spokesOf sampleKeys "providence" = ["barrington"; "cranston"])
    as -> by reflexivity.
  assert (∀ k, k ∈ ["barrington"; "cranston"] →
               spokeWarning sampleAnchors "providence" k = []) as Hnone.
  { intros k Hk. unfold spokeWarning.
    destruct (Rgt_dec _ 60) as [Hgt|]; [|done].
    pose proof (sample_spoke_near k Hk). lra. }
  rewrite !fmap_cons, fmap_nil.
  rewrite (Hnone "barrington") by (by left).
  rewrite (Hnone "cranston") by (apply elem_of_cons; right; by left).
  simpl. rewrite app_nil_r. reflexivity.
Defined.

Lemma safePct_minus (a b den : R) :
  safePct (a - b) den = safePct a den - safePct b den.
Proof. unfold safePct. destruct (Rgt_dec den 0); lra. Qed.

Lemma safePct_times (a den : R) : 0 < den → safePct a den * den = a.
Proof.
  intros Hden. unfold safePct. destruct (Rgt_dec den 0); [|lra].
  field. lra.
Qed.

Lemma safePct_guard (a den : R) : den <= 0 → safePct a den = 0.
Proof. intros Hden. unfold safePct. destruct (Rgt_dec den 0); lra. Qed.

(** X9. The six percentages of a successful estimate: each is its
    amount divided by the combined spending (or by the spokes spending)
    when that denominator is positive and zero otherwise, so the net
    impact percentage is the savings percentage less the transportation
    percentage on either basis (numbers as reals). *)
Theorem X9_estimate_percentages
    (budgets : BudgetsMap) (enrollments : LeaEnrollmentMap)
    (anchors : DistrictAnchorsMap) (selectedKeys : list string)
    (params : ConsolidationParamsV1) (r : ConsolidationResultV1) :
  computeConsolidationV1 budgets enrollments anchors selectedKeys params
    = Some (Result r) →
  ok r = true →
  netImpactPctCombined r =
    adminSavingsPctCombined r - transportIncreasePctCombined r ∧
  netImpactPctSpokesSpending r =
    adminSavingsPctSpokesSpending r - transportIncreasePctSpokesSpending r ∧
  (0 < combinedSpending r →
   adminSavingsPctCombined r * combinedSpending r = adminSavings r ∧
   transportIncreasePctCombined r * combinedSpending r
     = transportationIncrease r ∧
   netImpactPctCombined r * combinedSpending r = netImpact r) ∧
  (0 < spokesSpending r →
   adminSavingsPctSpokesSpending r * spokesSpending r = adminSavings r ∧
   transportIncreasePctSpokesSpending r * spokesSpending r
     = transportationIncrease r ∧
   netImpactPctSpokesSpending r * spokesSpending r = netImpact r) ∧
  (combinedSpending r <= 0 →
   adminSavingsPctCombined r = 0 ∧ transportIncreasePctCombined r = 0 ∧
   netImpactPctCombined r = 0) ∧
  (spokesSpending r <= 0 →
   adminSavingsPctSpokesSpending r = 0 ∧
   transportIncreasePctSpokesSpending r = 0 ∧
   netImpactPctSpokesSpending r = 0).
Proof.
  intros Hr Hok.
  destruct (compute_ok_fields _ _ _ _ _ _ Hr Hok)
    as (_ & _ & _ & _ & _ & _ & _ & _ & _ & _ & _ & Hnet & _ & _ & _ &
        H1 & H2 & H3 & H4 & H5 & H6 & _).
  rewrite H1, H2, H3, H4, H5, H6, Hnet.
  split; [apply safePct_minus|]. split; [apply safePct_minus|].
  split; [|split; [|split]]; intros Hden.
  - by rewrite !safePct_times.
  - by rewrite !safePct_times.
  - by rewrite !safePct_guard.
  - by rewrite !safePct_guard.
Qed.

Lemma X9_estimate_percentages_witness :
  ∃ r,
    computeConsolidationV1 sampleBudgets sampleEnrollments sampleAnchors
      sampleKeys sampleParams = Some (Result r) ∧
    ok r = true ∧
    netImpactPctCombined r =
      adminSavingsPctCombined r - transportIncreasePctCombined r ∧
    netImpactPctSpokesSpending r =
      adminSavingsPctSpokesSpending r - transportIncreasePctSpokesSpending r ∧
    (0 < combinedSpending r →
     adminSavingsPctCombined r * combinedSpending r = adminSavings r ∧
     transportIncreasePctCombined r * combinedSpending r
       = transportationIncrease r ∧
     netImpactPctCombined r * combinedSpending r = netImpact r) ∧
    (0 < spokesSpending r →
     adminSavingsPctSpokesSpending r * spokesSpending r = adminSavings r ∧
     transportIncreasePctSpokesSpending r * spokesSpending r
       = transportationIncrease r ∧
     netImpactPctSpokesSpending r * spokesSpending r = netImpact r) ∧
    (combinedSpending r <= 0 →
     adminSavingsPctCombined r = 0 ∧ transportIncreasePctCombined r = 0 ∧
     netImpactPctCombined r = 0) ∧
    (spokesSpending r <= 0 →
     adminSavingsPctSpokesSpending r = 0 ∧
     transportIncreasePctSpokesSpending r = 0 ∧
     netImpactPctSpokesSpending r = 0).
Proof.
  destruct sample_ok as (r & Hr & Hok). exists r.
  split; [exact Hr|]. split; [exact Hok|].
  exact (X9_estimate_percentages _ _ _ _ _ _ Hr Hok).
Defined.

Lemma sumOf_pos {A : Type} (f : A → R) (l : list A) :
  l ≠ [] → (∀ x, x ∈ l → 0 < f x) → 0 < sumOf f l.
Proof.
  destruct l as [|x l]; [done|]. intros _ Hpos. rewrite sumOf_cons.
  assert (0 < f x) by (apply Hpos; by left).
  assert (0 <= sumOf f l).
  { apply sumOf_nonneg. intros y Hy. apply Rlt_le, Hpos. by right. }
  lra.
Qed.

(** X10. In a successful estimate the combined enrollment is positive,
    so the guard on the per-pupil figures never takes its zero branch:
    the baseline per pupil is the combined spending divided by the
    combined enrollment, the projected per pupil is the projected
    spending divided by it, and their difference is the net impact per
    pupil (numbers as reals). *)
Theorem X10_estimate_per_pupil
    (budgets : BudgetsMap) (enrollments : LeaEnrollmentMap)
    (anchors : DistrictAnchorsMap) (selectedKeys : list string)
    (params : ConsolidationParamsV1) (r : ConsolidationResultV1) :
  computeConsolidationV1 budgets enrollments anchors selectedKeys params
    = Some (Result r) →
  ok r = true →
  0 < combinedEnrollment r ∧
  baselinePerPupil r = combinedSpending r / combinedEnrollment r ∧
  projectedPerPupil r = projectedSpending r / combinedEnrollment r ∧
  baselinePerPupil r - projectedPerPupil r
    = netImpact r / combinedEnrollment r.
Proof.
  intros Hr Hok.
  destruct (compute_ok_fields _ _ _ _ _ _ Hr Hok)
    as (Hhub & Hall & _ & HcE & _ & _ & _ & _ & _ & _ & _ & _ & Hproj &
        Hbase & Hpp & _).
  assert (0 < combinedEnrollment r) as Hpos.
  { rewrite HcE. apply sumOf_pos.
    - intros Hnil. rewrite Hnil in Hhub. by apply elem_of_nil in Hhub.
    - intros k Hk. apply (proj1 (uniqueKeys_elem _ _)) in Hk.
      apply totalOf_pos. by destruct (Hall k Hk) as (_ & He & _). }
  destruct (Rgt_dec (combinedEnrollment r) 0) as [_|Hn]; [|lra].
  repeat split; [done|done|done|].
  rewrite Hbase, Hpp, Hproj. field. lra.
Qed.

Lemma X10_estimate_per_pupil_witness :
  ∃ r,
    computeConsolidationV1 sampleBudgets sampleEnrollments sampleAnchors
      sampleKeys sampleParams = Some (Result r) ∧
    ok r = true ∧
    0 < combinedEnrollment r ∧
    baselinePerPupil r = combinedSpending r / combinedEnrollment r ∧
    projectedPerPupil r = projectedSpending r / combinedEnrollment r ∧
    baselinePerPupil r - projectedPerPupil r
      = netImpact r / combinedEnrollment r.
Proof.
  destruct sample_ok as (r & Hr & Hok). exists r.
  split; [exact Hr|]. split; [exact Hok|].
  exact (X10_estimate_per_pupil _ _ _ _ _ _ Hr Hok).
Defined.

(** X11. A selected district whose enrollment is strictly larger than
    that of every other selected district is the hub of a successful
    estimate, wherever it stands in the selection. *)
Theorem X11_estimate_largest_is_hub
    (budgets : BudgetsMap) (enrollments : LeaEnrollmentMap)
    (anchors : DistrictAnchorsMap) (selectedKeys : list string)
    (params : ConsolidationParamsV1) (r : ConsolidationResultV1)
    (k : string) :
  computeConsolidationV1 budgets enrollments anchors selectedKeys params
    = Some (Result r) →
  ok r = true →
  k ∈ selectedKeys →
  (∀ k', k' ∈ selectedKeys → k' ≠ k →
         totalOf enrollments k' < totalOf enrollments k) →
  hubKey r = k.
Proof.
  intros Hr Hok Hk Hbig.
  destruct (hub_first_largest _ _ _ _ _ _ Hr Hok)
    as (Hhub & _ & _ & hub & _ & Ehub & Hmax & _).
  destruct (decide (hubKey r = k)) as [|Hne]; [done|]. exfalso.
  destruct (compute_ok_fields _ _ _ _ _ _ Hr Hok) as (_ & Hall & _).
  destruct (Hall k Hk) as (_ & (e & He & _) & _).
  pose proof (Hmax k e Hk He) as Hle.
  pose proof (Hbig (hubKey r) Hhub Hne) as Hlt.
  unfold totalOf in Hlt. rewrite Ehub, He in Hlt. simpl in Hlt. lra.
Qed.

Lemma X11_estimate_largest_is_hub_witness :
  ∃ r,
    computeConsolidationV1 sampleBudgets sampleEnrollments sampleAnchors
      ["barrington"; "providence"] sampleParams = Some (Result r) ∧
    ok r = true ∧
    hubKey r = "providence".
Proof.
  assert (2 <= length (uniqueKeys ["barrington"; "providence"]))%nat as Hlen
    by (vm_compute; lia).
  assert (∀ k, k ∈ ["barrington"; "providence"] →
               k ∈ ["barrington"; "providence"; "cranston"]) as Hkeys.
  { intros k. rewrite !elem_of_cons, !elem_of_nil. tauto. }
  destruct (sample_ok_any _ sampleParams Hlen Hkeys) as (r & Hr & Hok).
  exists r. split; [exact Hr|]. split; [exact Hok|].
  assert ("providence" ∈ ["barrington"; "providence"]) as Hin
    by (apply elem_of_cons; right; by left).
  assert (∀ k', k' ∈ ["barrington"; "providence"] → k' ≠ "providence" →
            totalOf sampleEnrollments k' < totalOf sampleEnrollments "providence")
    as Hbig.
  { intros k'. rewrite !elem_of_cons, elem_of_nil.
    intros [->|[->|[]]] Hne; [|by destruct Hne].
    unfold totalOf, sampleEnrollments.
    rewrite !lookup_insert. simpl. lra. }
  exact (X11_estimate_largest_is_hub _ _ _ _ _ _ _ Hr Hok Hin Hbig).
Defined.

(** X12. Every entry of the breakdown of a successful estimate belongs
    to a selected district other than the hub and carries that
    district's anchor name and enrollment; its distance is the distance
    between the two anchors rounded to one decimal (off by at most
    0.05), and its cost is the unrounded spoke cost rounded to a whole
    number (off by at most 0.5). *)
Theorem X12_estimate_breakdown_rounding
    (budgets : BudgetsMap) (enrollments : LeaEnrollmentMap)
    (anchors : DistrictAnchorsMap) (selectedKeys : list string)
    (params : ConsolidationParamsV1) (r : ConsolidationResultV1)
    (d : SpokeDetail) :
  computeConsolidationV1 budgets enrollments anchors selectedKeys params
    = Some (Result r) →
  ok r = true →
  d ∈ spokeBreakdown r →
  key d ∈ selectedKeys ∧ key d ≠ hubKey r ∧
  name d = anchorNameOf anchors (key d) ∧
  enrollment d = totalOf enrollments (key d) ∧
  Rabs (distanceMiles d - spokeDistance anchors (hubKey r) (key d))
    <= 1 / 20 ∧
  Rabs (cost d - spokeCost enrollments anchors params (hubKey r) (key d))
    <= 1 / 2 ∧
  ∃ n : Z, cost d = IZR n.
Proof.
  intros Hr Hok Hd.
  destruct (compute_ok_fields _ _ _ _ _ _ Hr Hok)
    as (_ & _ & _ & _ & _ & _ & _ & _ & _ & _ & _ & _ & _ & _ & _ &
        _ & _ & _ & _ & _ & _ & Hbd & _).
  rewrite Hbd, sortBy_Permutation in Hd.
  apply list_elem_of_fmap in Hd as (k & -> & Hk).
  apply spokesOf_elem in Hk as [Hk Hne]. simpl.
  split; [done|]. split; [done|]. split; [done|]. split; [done|].
  split; [|split].
  - pose proof (Math_round_bounds (spokeDistance anchors (hubKey r) k * 10)).
    apply Rabs_le. lra.
  - pose proof (Math_round_bounds
                  (spokeCost enrollments anchors params (hubKey r) k)).
    apply Rabs_le. lra.
  - by eexists.
Qed.

Lemma X12_estimate_breakdown_rounding_witness :
  ∃ r d,
    computeConsolidationV1 sampleBudgets sampleEnrollments sampleAnchors
      sampleKeys sampleParams = Some (Result r) ∧
    ok r = true ∧
    d ∈ spokeBreakdown r ∧
    key d ∈ sampleKeys ∧ key d ≠ hubKey r ∧
    name d = anchorNameOf sampleAnchors (key d) ∧
    enrollment d = totalOf sampleEnrollments (key d) ∧
    Rabs (distanceMiles d - spokeDistance sampleAnchors (hubKey r) (key d))
      <= 1 / 20 ∧
    Rabs (cost d -
          spokeCost sampleEnrollments sampleAnchors sampleParams (hubKey r)
            (key d)) <= 1 / 2 ∧
    ∃ n : Z, cost d = IZR n.
Proof.
  destruct sample_ok as (r & Hr & Hok).
  destruct (spoke_entries _ _ _ _ _ _ Hr Hok) as (_ & _ & Hlen & _).
  rewrite sampleKeys_unique in Hlen. simpl in Hlen.
  destruct (spokeBreakdown r) as [|d rest] eqn:Hbd; [discriminate Hlen|].
  assert (d ∈ spokeBreakdown r) as Hd by (rewrite Hbd; by left).
  exists r, d. split; [exact Hr|]. split; [exact Hok|]. split; [exact Hd|].
  exact (X12_estimate_breakdown_rounding _ _ _ _ _ _ _ Hr Hok Hd).
Defined.

End EstimatorMore.

(* ===================================================================== *)
(** * Part VII-b: the parameters                                          *)
(* ===================================================================== *)

Module ParameterFacts.
Import geoDistance consolidationV1 EstimatorSpec EstimatorTerms
  EstimatorFacts EstimatorMore.
Local Open Scope R_scope.

Lemma intoUnitInterval_5 : intoUnitInterval 5 = 1.
Proof.
  unfold intoUnitInterval.
  destruct (Rlt_dec 5 0); destruct (Rgt_dec 5 1); lra.
Qed.

Lemma intoUnitInterval_half : intoUnitInterval (1 / 2) = 1 / 2.
Proof.
  unfold intoUnitInterval.
  destruct (Rlt_dec (1 / 2) 0); destruct (Rgt_dec (1 / 2) 1); lra.
Qed.

Lemma sample_spokes_admin :
  sumOf (adminOf sampleBudgets) (spokesOf sampleKeys "providence") = 400000.
Proof.
  assert (spokesOf sampleKeys "providence" = ["barrington"; "cranston"])
    as -> by reflexivity.
  unfold sumOf, adminOf, sampleBudgets. simpl.
  rewrite !lookup_insert. simpl. lra.
Qed.

(** C4. A call with [adminReductionRate = 5] returns what the same call
    with [1] returns, and a call with [-1] what the call with [0] returns.
    For parameters that are real numbers, a call returns what the call
    returns whose rate and share are brought into [0,1] and whose cost
    per student-mile is made non-negative, and a successful result is
    computed from those: the admin savings are that rate times the
    modelled administration of the spokes, and the transportation
    increase is the sum over the spokes of distance times enrollment
    times that share times that cost; a rate or share of [0,1] and a
    non-negative cost are so used as given.  [Math.max] and [Math.min]
    agree with this on real numbers, but on [NaN] they return [NaN]: a
    rate, share or cost of [NaN] is not brought into its range. *)
Theorem C4_parameter_clamping
    (budgets : BudgetsMap) (enrollments : LeaEnrollmentMap)
    (anchors : DistrictAnchorsMap) (selectedKeys : list string)
    (params : ConsolidationParamsV1) :
  let estimate :=
    computeConsolidationV1 budgets enrollments anchors selectedKeys in
  let call rate :=
    estimate {| adminReductionRate := rate;
                costPerStudentMile := costPerStudentMile params;
                affectedShare := affectedShare params |} in
  let rate := intoUnitInterval (adminReductionRate params) in
  let share := intoUnitInterval (affectedShare params) in
  let cpsm := intoNonNegative (costPerStudentMile params) in
  call 5 = call 1 ∧
  call (-1) = call 0 ∧
  estimate params =
    estimate {| adminReductionRate := rate; costPerStudentMile := cpsm;
                affectedShare := share |} ∧
  (∀ r, estimate params = Some (Result r) → ok r = true →
     let spokes := spokesOf selectedKeys (hubKey r) in
     adminSavings r = rate * sumOf (adminOf budgets) spokes ∧
     transportationIncrease r =
       sumOf (λ k, spokeDistance anchors (hubKey r) k *
                   totalOf enrollments k * share * cpsm) spokes) ∧
  (∀ v, clampNumber (Num v) (Num 0) (Num 1) = Num (intoUnitInterval v)) ∧
  (∀ v, Math_max (Num 0) (Num v) = Num (intoNonNegative v)) ∧
  clampNumber NaN (Num 0) (Num 1) = NaN ∧
  Math_max (Num 0) NaN = NaN.
Proof.
  intros estimate call rate share cpsm.
  assert (∀ v, intoUnitInterval (intoUnitInterval v) = intoUnitInterval v)
    as Hidem.
  { intros v. rewrite <- !clamp_intoUnitInterval.
    apply clamp_fixed, clamp_range. }
  split; [|split; [|split; [|split; [|split; [|split; [|split]]]]]].
  - apply compute_params_ext; simpl; [|done|done].
    rewrite !clamp_intoUnitInterval. unfold intoUnitInterval.
    destruct (Rlt_dec 5 0); destruct (Rgt_dec 5 1);
      destruct (Rlt_dec 1 0); destruct (Rgt_dec 1 1); lra.
  - apply compute_params_ext; simpl; [|done|done].
    rewrite !clamp_intoUnitInterval. unfold intoUnitInterval.
    destruct (Rlt_dec (-1) 0); destruct (Rgt_dec (-1) 1);
      destruct (Rlt_dec 0 0); destruct (Rgt_dec 0 1); lra.
  - apply compute_params_ext; simpl.
    + rewrite !clamp_intoUnitInterval. unfold rate. by rewrite Hidem.
    + rewrite !Rmax_intoNonNegative. unfold cpsm, intoNonNegative.
      destruct (Rlt_dec (costPerStudentMile params) 0);
        [destruct (Rlt_dec 0 0); lra|].
      by destruct (Rlt_dec (costPerStudentMile params) 0).
    + rewrite !clamp_intoUnitInterval. unfold share. by rewrite Hidem.
  - intros r Hr Hok spokes.
    destruct (compute_ok_fields _ _ _ _ _ _ Hr Hok)
      as (_ & _ & _ & _ & _ & _ & _ & _ & Hspokes & Hsav & Htr & _).
    split.
    + rewrite Hsav, Hspokes. by rewrite clamp_intoUnitInterval.
    + rewrite Htr. unfold spokeCost.
      by rewrite clamp_intoUnitInterval, Rmax_intoNonNegative.
  - intros v. unfold clampNumber. simpl.
    by rewrite <- clamp_intoUnitInterval.
  - intros v. simpl. by rewrite Rmax_intoNonNegative.
  - reflexivity.
  - reflexivity.
Qed.

Lemma C4_parameter_clamping_witness :
  let over := {| adminReductionRate := 5; costPerStudentMile := 3;
                 affectedShare := 1 |} in
  ∃ r r5,
    computeConsolidationV1 sampleBudgets sampleEnrollments sampleAnchors
      sampleKeys sampleParams = Some (Result r) ∧
    adminSavings r = 200000 ∧
    computeConsolidationV1 sampleBudgets sampleEnrollments sampleAnchors
      sampleKeys over = Some (Result r5) ∧
    adminSavings r5 = 400000.
Proof.
  intros over.
  destruct sample_ok as (r & Hr & Hok).
  destruct (sample_ok_any sampleKeys over) as (r5 & Hr5 & Hok5).
  { rewrite sampleKeys_unique. simpl. lia. }
  { intros k Hk. unfold sampleKeys in Hk.
    rewrite !elem_of_cons in Hk. rewrite elem_of_nil in Hk.
    rewrite !elem_of_cons. tauto. }
  exists r, r5. split; [exact Hr|]. split; [|split; [exact Hr5|]].
  - destruct (C4_parameter_clamping sampleBudgets sampleEnrollments
                sampleAnchors sampleKeys sampleParams)
      as (_ & _ & _ & Huse & _).
    destruct (Huse r Hr Hok) as [Hsav _].
    rewrite Hsav, (sample_hub _ _ Hr Hok), sample_spokes_admin. simpl.
    rewrite intoUnitInterval_half. lra.
  - destruct (C4_parameter_clamping sampleBudgets sampleEnrollments
                sampleAnchors sampleKeys over)
      as (_ & _ & _ & Huse & _).
    destruct (Huse r5 Hr5 Hok5) as [Hsav _].
    rewrite Hsav, (sample_hub _ _ Hr5 Hok5), sample_spokes_admin. simpl.
    rewrite intoUnitInterval_5. lra.
Defined.

End ParameterFacts.

(* ===================================================================== *)
(** * Part VIII: the keys of the datasets                                 *)
(* ===================================================================== *)

Module KeyFacts.
Import jsString normalize buildScripts NormalizerSpec NormalizerFacts.
Local Open Scope N_scope.

Lemma Clean_bristol_warren : Clean (lit "bristol warren").
Proof.
  assert (cleanName (lit "bristol warren") = lit "bristol warren") as Heq
    by by vm_compute.
  rewrite <- Heq. apply cleanName_Clean.
Qed.

Lemma districtKey_Clean (s : list N) : Clean (districtKey s).
Proof.
  unfold districtKey.
  destruct (DISTRICT_ALIASES !! normalizeDistrictName s) as [v|] eqn:E; simpl.
  - unfold DISTRICT_ALIASES in E.
    apply lookup_singleton_Some in E as [_ <-]. apply Clean_bristol_warren.
  - apply normalizeDistrictName_Clean.
Qed.

Lemma enrollment_districtKey_eq (s : list N) :
  enrollment.districtKey s = normalizeDistrictName s.
Proof.
  unfold enrollment.districtKey, enrollment.DISTRICT_ALIASES.
  rewrite lookup_empty. simpl. apply normalizeForKey_eq.
Qed.

Lemma keyChar_not_bar : ¬ keyChar 124.
Proof. unfold keyChar. lia. Qed.

(** A bar ends the longest prefix of key characters. *)
Lemma bar_split (x1 x2 r1 r2 : list N) :
  Forall keyChar x1 → Forall keyChar x2 →
  x1 ++ 124 :: r1 = x2 ++ 124 :: r2 → x1 = x2 ∧ r1 = r2.
Proof.
  intros H1. revert x2. induction H1 as [|c x1 Hc H1 IH]; intros x2 H2 Heq.
  - destruct H2 as [|d x2 Hd H2]; simpl in Heq.
    + by injection Heq as <-.
    + injection Heq as <- _. by destruct keyChar_not_bar.
  - destruct H2 as [|d x2 Hd H2]; simpl in Heq.
    + injection Heq as -> _. by destruct keyChar_not_bar.
    + injection Heq as -> Heq. destruct (IH x2 H2 Heq) as [-> ->]. done.
Qed.

Lemma inheritedName_dec (n : list N) :
  bool_decide (n ∈ (lit <$> consolidationV1.objectPrototypeNames)) = false →
  ¬ inheritedName n.
Proof. intros H. by apply bool_decide_eq_false in H. Qed.

(** X16. Every key made by the normalizers consists of lower-case
    letters, digits, underscores and single spaces only, with no space at
    either end: the normalized name of the build scripts and that of the
    frontend for every input, and the two district keys (alias table
    included) for every name whose normal form is not the name of a
    property of [Object.prototype].  "Constructor" is a name whose
    normal form is one. *)
Theorem X16_keys_are_clean (s : list N) :
  Clean (normalizeDistrictName s) ∧
  Clean (enrollment.normalizeForKey s) ∧
  (¬ inheritedName (normalizeDistrictName s) →
   Clean (districtKey s) ∧ Clean (enrollment.districtKey s)) ∧
  inheritedName (normalizeDistrictName (lit "Constructor")).
Proof.
  split; [apply normalizeDistrictName_Clean|].
  split; [rewrite normalizeForKey_eq; apply normalizeDistrictName_Clean|].
  split.
  - intros _. split; [apply districtKey_Clean|].
    rewrite (enrollment_districtKey_eq s). apply normalizeDistrictName_Clean.
  - unfold inheritedName.
    apply (bool_decide_eq_true_1
             (normalizeDistrictName (lit "Constructor")
                ∈ (lit <$> consolidationV1.objectPrototypeNames))).
    by vm_compute.
Qed.

Lemma X16_keys_are_clean_witness :
  let s := lit "Bistol-Warren Regional District" in
  districtKey s = lit "bristol warren" ∧
  enrollment.districtKey s = lit "bistol warren regional district" ∧
  Clean (districtKey s) ∧ Clean (enrollment.districtKey s).
Proof.
  intros s.
  split; [by vm_compute|]. split; [by vm_compute|].
  apply (X16_keys_are_clean s).
  apply inheritedName_dec. by vm_compute.
Defined.

(** X17. The composite school key identifies its two parts: two pairs
    of names have the same school key exactly when their district keys
    agree and their normalized school names agree, because the separator
    bar never occurs in a normalized name. *)
Theorem X17_schoolKey_injective (d1 s1 d2 s2 : list N) :
  enrollment.schoolKey d1 s1 = enrollment.schoolKey d2 s2 ↔
  enrollment.districtKey d1 = enrollment.districtKey d2 ∧
  enrollment.normalizeForKey s1 = enrollment.normalizeForKey s2.
Proof.
  unfold enrollment.schoolKey. split.
  - intros Heq.
    replace (lit "||") with [124; 124] in Heq by by vm_compute.
    simpl in Heq.
    apply bar_split in Heq as [Hd Hs].
    + split; [done|]. by injection Hs.
    + rewrite (enrollment_districtKey_eq d1).
      by destruct (normalizeDistrictName_Clean d1).
    + rewrite (enrollment_districtKey_eq d2).
      by destruct (normalizeDistrictName_Clean d2).
  - by intros [-> ->].
Qed.

(** X18. The three places that form a school key agree.  The key
    under which the enrollment build stores a school row is the key the
    frontend computes with [schoolKey], for every district name whose
    normal form is not the name of a property of [Object.prototype].  The
    anchor build's [lookupEnrollment] finds a row stored under that key for
    any spelling of the two names that normalizes alike, and what it
    returns is always the positive total of the row stored under that
    key. *)
Theorem X18_school_keys_agree (m : gmap (list N) SchoolEntry)
    (d s : list N) :
  (¬ inheritedName (normalizeDistrictName d) →
   enrollment.schoolKey d s = schoolMapKey d s) ∧
  (∀ d' s' e t,
     normalizeDistrictName d' = normalizeDistrictName d →
     normalizeDistrictName s' = normalizeDistrictName s →
     total e = Some t → (0 < t)%R →
     lookupEnrollment (<[schoolMapKey d s := e]> m) d' s' = Some t) ∧
  (∀ t, lookupEnrollment m d s = Some t →
        (0 < t)%R ∧
        ∃ e, m !! schoolMapKey d s = Some e ∧ total e = Some t).
Proof.
  split; [|split].
  - intros _. unfold enrollment.schoolKey, schoolMapKey.
    by rewrite (enrollment_districtKey_eq d), (normalizeForKey_eq s).
  - intros d' s' e t Hd Hs He Ht. unfold lookupEnrollment, schoolMapKey.
    rewrite Hd, Hs, lookup_insert_eq, He.
    by destruct (Rgt_dec t 0).
  - intros t Ht. unfold lookupEnrollment in Ht.
    fold (schoolMapKey d s) in Ht.
    destruct (m !! schoolMapKey d s) as [e|]; [|done].
    destruct (total e) as [t'|] eqn:Et; [|done].
    destruct (Rgt_dec t' 0) as [Hpos|]; [|done].
    injection Ht as <-. split; [done|]. by exists e.
Qed.

Lemma X18_school_keys_agree_witness :
  let d := lit "Providence Public Schools" in
  let s := lit "Classical High School" in
  enrollment.schoolKey d s = lit "providence||classical high school" ∧
  schoolMapKey d s = lit "providence||classical high school".
Proof.
  intros d s.
  assert (schoolMapKey d s = lit "providence||classical high school")
    as Hkey by by vm_compute.
  split; [|exact Hkey].
  rewrite <- Hkey.
  apply (X18_school_keys_agree ∅ d s).
  apply inheritedName_dec. by vm_compute.
Defined.

End KeyFacts.

(* ===================================================================== *)
(** * Part IX: the consolidation sandbox of the sidebar                   *)
(* ===================================================================== *)

Module SandboxFacts.
Import consolidationV1 Sidebar EstimatorSpec EstimatorTerms EstimatorFacts
  EstimatorMore.

Lemma addToSandbox_elem (key : string) (prev : list string) (k : string) :
  k ∈ addToSandbox key prev ↔ k = key ∨ k ∈ prev.
Proof.
  unfold addToSandbox. case_bool_decide as Hin.
  - split; [by right|]. by intros [->|].
  - rewrite elem_of_app, list_elem_of_singleton. tauto.
Qed.

Lemma addToSandbox_NoDup (key : string) (prev : list string) :
  NoDup prev → NoDup (addToSandbox key prev).
Proof.
  intros Hnd. unfold addToSandbox. case_bool_decide as Hin; [done|].
  apply NoDup_app. split; [done|]. split; [|apply NoDup_singleton].
  intros x Hx Hx'. apply list_elem_of_singleton in Hx'. by subst.
Qed.

Lemma removeFromSandbox_elem (key : string) (prev : list string) (k : string) :
  k ∈ removeFromSandbox key prev ↔ k ≠ key ∧ k ∈ prev.
Proof. unfold removeFromSandbox. by rewrite list_elem_of_filter. Qed.

Lemma uniqueKeys_NoDup_id (l : list string) : NoDup l → uniqueKeys l = l.
Proof.
  intros Hnd. apply uniqueFrom_id; [done|].
  intros k _. apply not_elem_of_empty.
Qed.

(** The two ways in which the estimator declines. *)
Lemma compute_declined
    (budgets : BudgetsMap) (enrollments : LeaEnrollmentMap)
    (anchors : DistrictAnchorsMap) (selectedKeys : list string)
    (params : ConsolidationParamsV1) (r : ConsolidationResultV1) :
  computeConsolidationV1 budgets enrollments anchors selectedKeys params
    = Some (Result r) →
  ok r = false →
  ((length (uniqueKeys selectedKeys) < 2)%nat ∧
   warnings r = ["Select at least 2 districts"]) ∨
  ((2 <= length (uniqueKeys selectedKeys))%nat ∧
   (missing_budgets (missing r) ≠ [] ∨
    missing_enrollment (missing r) ≠ [] ∨
    missing_anchors (missing r) ≠ [])).
Proof.
  intros H Hok. unfold computeConsolidationV1 in H.
  set (unique := uniqueKeys selectedKeys) in *.
  set (p := presence budgets enrollments anchors unique) in *.
  destruct (decide (length unique < 2)%nat) as [Hlen|Hlen].
  { injection H as <-. left. by split. }
  right. split; [lia|].
  destruct (negb (_ && _)) eqn:Hchk.
  - injection H as <-. simpl.
    apply negb_true_iff in Hchk.
    destruct (decide (missingBudgets p = [])) as [Hb|Hb]; [|by left].
    destruct (decide (missingEnrollment p = [])) as [He|He];
      [|by right; left].
    destruct (decide (missingAnchors p = [])) as [Ha|Ha];
      [|by right; right].
    rewrite !bool_decide_eq_true_2 in Hchk by done. discriminate Hchk.
  - exfalso.
    destruct (negb (bool_decide (Forall _ unique))); [discriminate H|].
    destruct (head unique) as [first|]; simpl in H; [|discriminate H].
    destruct (forOf (hubStep enrollments) _ _) as [[hk he]|];
      simpl in H; [|discriminate H].
    destruct (anchors !! hk) as [ha|]; simpl in H; [|discriminate H].
    destruct (budgets !! hk) as [hb|]; simpl in H; [|discriminate H].
    destruct (forOf (totalsStep _ _ _) _ _) as [[[cE cS] aS]|];
      simpl in H; [|discriminate H].
    destruct (forOf (spokeStep _ _ _ _ _ _) _ _) as [[[bd ti] w]|];
      simpl in H; [|discriminate H].
    injection H as <-. discriminate Hok.
Qed.

(** X19. The sandbox list never holds a key twice: adding a key to,
    and removing a key from, a list without duplicates leaves a list
    without duplicates; adding puts the key in and keeps the others (a
    key already present leaves the list as it is), removing takes the key
    out and keeps the others, and removing a key just added to a list
    that lacked it gives the list back.  The estimator's own removal of
    duplicates therefore changes nothing on a sandbox list. *)
Theorem X19_sandbox_keys (key : string) (prev : list string) :
  NoDup prev →
  NoDup (addToSandbox key prev) ∧
  NoDup (removeFromSandbox key prev) ∧
  (∀ k, k ∈ addToSandbox key prev ↔ k = key ∨ k ∈ prev) ∧
  (∀ k, k ∈ removeFromSandbox key prev ↔ k ≠ key ∧ k ∈ prev) ∧
  addToSandbox key (addToSandbox key prev) = addToSandbox key prev ∧
  (key ∉ prev → removeFromSandbox key (addToSandbox key prev) = prev) ∧
  uniqueKeys (addToSandbox key prev) = addToSandbox key prev ∧
  uniqueKeys (removeFromSandbox key prev) = removeFromSandbox key prev.
Proof.
  intros Hnd.
  assert (NoDup (removeFromSandbox key prev)) as Hrm
    by by apply NoDup_filter.
  split; [by apply addToSandbox_NoDup|]. split; [done|].
  split; [apply addToSandbox_elem|]. split; [apply removeFromSandbox_elem|].
  split; [|split; [|split]].
  - unfold addToSandbox at 1. rewrite bool_decide_eq_true_2; [done|].
    apply addToSandbox_elem. by left.
  - intros Hnot. unfold addToSandbox, removeFromSandbox.
    rewrite bool_decide_eq_false_2 by done.
    rewrite filter_app, filter_ne_id by done.
    rewrite filter_cons_False, filter_nil by (intros Hk; by apply Hk).
    by rewrite app_nil_r.
  - apply uniqueKeys_NoDup_id. by apply addToSandbox_NoDup.
  - by apply uniqueKeys_NoDup_id.
Qed.

Lemma X19_sandbox_keys_witness :
  let key := "cranston" in
  let prev := ["providence"; "barrington"] in
  NoDup (addToSandbox key prev) ∧
  NoDup (removeFromSandbox key prev) ∧
  (∀ k, k ∈ addToSandbox key prev ↔ k = key ∨ k ∈ prev) ∧
  (∀ k, k ∈ removeFromSandbox key prev ↔ k ≠ key ∧ k ∈ prev) ∧
  addToSandbox key (addToSandbox key prev) = addToSandbox key prev ∧
  (key ∉ prev → removeFromSandbox key (addToSandbox key prev) = prev) ∧
  uniqueKeys (addToSandbox key prev) = addToSandbox key prev ∧
  uniqueKeys (removeFromSandbox key prev) = removeFromSandbox key prev.
Proof.
  intros key prev.
  assert (NoDup prev) as Hnd.
  { unfold prev. apply NoDup_cons. split.
    - rewrite list_elem_of_singleton. discriminate.
    - apply NoDup_singleton. }
  exact (X19_sandbox_keys key prev Hnd).
Defined.

(** X20. The sandbox estimate never throws.  It is [null] exactly when
    one of the three datasets is not loaded or fewer than two districts
    are in the sandbox; and since the sandbox list has no duplicates, an
    estimate that is shown with [ok = false] always names a missing key:
    at least one of its three missing lists is not empty. *)
Theorem X20_sandboxResult
    (sandboxDistrictKeys : list string)
    (budgets : option BudgetsMap) (leaEnrollment : option LeaEnrollmentMap)
    (anchors : option DistrictAnchorsMap)
    (consolidationParams : ConsolidationParamsV1) :
  NoDup sandboxDistrictKeys →
  ∃ res,
    sandboxResult sandboxDistrictKeys budgets leaEnrollment anchors
      consolidationParams = Some res ∧
    (res = None ↔
     budgets = None ∨ leaEnrollment = None ∨ anchors = None ∨
     (length sandboxDistrictKeys < 2)%nat) ∧
    (∀ r, res = Some (Result r) → ok r = false →
       missing_budgets (missing r) ≠ [] ∨
       missing_enrollment (missing r) ≠ [] ∨
       missing_anchors (missing r) ≠ []).
Proof.
  intros Hnd. unfold sandboxResult.
  destruct budgets as [b|]; [|exists None; split; [done|]; split;
    [split; [by left|done]|done]].
  destruct leaEnrollment as [e|]; [|exists None; split; [done|]; split;
    [split; [by right; left|done]|done]].
  destruct anchors as [a|]; [|exists None; split; [done|]; split;
    [split; [by right; right; left|done]|done]].
  destruct (decide (length sandboxDistrictKeys < 2)%nat) as [Hlen|Hlen].
  { exists None. split; [done|]. split; [|done].
    split; [by right; right; right|done]. }
  destruct (compute_total b e a sandboxDistrictKeys consolidationParams)
    as [o Ho].
  exists (Some o). rewrite Ho. split; [done|]. split.
  - split; [done|]. intros [?|[?|[?|?]]]; done.
  - intros r Heq Hok. injection Heq as ->.
    pose proof Ho as Hr.
    destruct (compute_declined _ _ _ _ _ _ Hr Hok) as [[Hlt _]|[_ Hmiss]];
      [|done].
    rewrite uniqueKeys_NoDup_id in Hlt by done. lia.
Qed.

Lemma X20_sandboxResult_witness :
  ∃ res,
    sandboxResult ["providence"; "newport"] (Some sampleBudgets)
      (Some sampleEnrollments) (Some sampleAnchors) sampleParams = Some res ∧
    (res = None ↔
     Some sampleBudgets = None ∨ Some sampleEnrollments = None ∨
     Some sampleAnchors = None ∨
     (length ["providence"; "newport"] < 2)%nat) ∧
    (∀ r, res = Some (Result r) → ok r = false →
       missing_budgets (missing r) ≠ [] ∨
       missing_enrollment (missing r) ≠ [] ∨
       missing_anchors (missing r) ≠ []).
Proof.
  assert (NoDup ["providence"; "newport"]) as Hnd.
  { apply NoDup_cons. split.
    - rewrite list_elem_of_singleton. discriminate.
    - apply NoDup_singleton. }
  exact (X20_sandboxResult ["providence"; "newport"] (Some sampleBudgets)
           (Some sampleEnrollments) (Some sampleAnchors) sampleParams Hnd).
Defined.

End SandboxFacts.

(* ===================================================================== *)
(** * Part X: the budget build                                            *)
(* ===================================================================== *)

Module BudgetFacts.
Import consolidationV1 buildBudgets BuildSpec EstimatorSpec EstimatorTerms
  EstimatorFacts EstimatorMore.
Local Open Scope R_scope.

Lemma modelPart_nonneg (x : R) : 0 <= modelPart x.
Proof. unfold modelPart. destruct (Rlt_dec x 0); lra. Qed.

Ltac budget_cases :=
  repeat match goal with
         | |- context [Rgt_dec ?a ?b] => destruct (Rgt_dec a b)
         | |- context [Rlt_dec ?a ?b] => destruct (Rlt_dec a b)
         end.


(** The model figure before the cap. *)
Lemma processFile_model (name file : string) (raw : RawBudget) :
  let b := processFile name file (Some raw) in
  let m := modelPart (districtManagement raw) +
           modelPart (programOpsManagement raw) in
  budgets.districtManagement (budgets.componentsModel b)
    = modelPart (districtManagement raw) ∧
  budgets.programOperationsManagement (budgets.componentsModel b)
    = modelPart (programOpsManagement raw) ∧
  budgets.centralAdministrationModel b =
    (if Rgt_dec (totalExpenditures raw) 0 then
       if Rgt_dec (m / totalExpenditures raw) ADMIN_SHARE_OUTLIER
       then Math_round (Rmin m (totalExpenditures raw * ADMIN_SHARE_CAP))
       else m
     else Rmax 0 m).
Proof.
  unfold processFile, modelPart. budget_cases; simpl; done.
Qed.

Lemma processFile_nonneg (name file : string) (raw : option RawBudget) :
  0 <= budgets.centralAdministrationModel (processFile name file raw).
Proof.
  destruct raw as [raw|]; [|simpl; lra].
  destruct (processFile_model name file raw) as (_ & _ & ->).
  pose proof (modelPart_nonneg (districtManagement raw)).
  pose proof (modelPart_nonneg (programOpsManagement raw)).
  destruct (Rgt_dec (totalExpenditures raw) 0) as [HT|HT].
  - destruct (Rgt_dec _ ADMIN_SHARE_OUTLIER); [|lra].
    apply Math_round_nonneg. apply Rmin_glb; [lra|].
    unfold ADMIN_SHARE_CAP. nra.
  - apply Rmax_l.
Qed.


Lemma round6_near (x : R) :
  (∃ n : Z, round6 x = IZR n / 1000000) ∧
  Rabs (round6 x - x) < 1 / 1000000.
Proof.
  unfold round6. split.
  - unfold Math_round. by eexists.
  - pose proof (Math_round_bounds (x * 1000000)). apply Rabs_def1; lra.
Qed.

(** X22. With a positive total, the modelled administration is the sum
    of the two model components as long as that sum is at most 15
    percent of the total; above 15 percent it is cut down to 10 percent
    of the total, rounded to a whole number (a whole number within one
    half of a tenth of the total), and the record is flagged
    "admin_share_outlier" and "admin_share_capped_model".  Both shares
    are recorded to six decimals: each is a whole number of millionths,
    less than one millionth away from its ratio (numbers as reals). *)
Theorem X22_processFile_cap (name file : string) (raw : RawBudget) :
  0 < totalExpenditures raw →
  let b := processFile name file (Some raw) in
  let T := totalExpenditures raw in
  let m := modelPart (districtManagement raw) +
           modelPart (programOpsManagement raw) in
  (m <= ADMIN_SHARE_OUTLIER * T →
   budgets.centralAdministrationModel b = m) ∧
  (ADMIN_SHARE_OUTLIER * T < m →
   (∃ n : Z, budgets.centralAdministrationModel b = IZR n) ∧
   Rabs (budgets.centralAdministrationModel b - T / 10) <= 1 / 2 ∧
   "admin_share_outlier" ∈ budgets.flags b ∧
   "admin_share_capped_model" ∈ budgets.flags b) ∧
  (∃ share (n : Z),
     budgets.adminShareOfTotal b = Some share ∧
     share = IZR n / 1000000 ∧
     Rabs (share - (districtManagement raw + programOpsManagement raw) / T)
       < 1 / 1000000) ∧
  (∃ share (n : Z),
     budgets.adminShareOfTotalModel b = Some share ∧
     share = IZR n / 1000000 ∧
     Rabs (share - budgets.centralAdministrationModel b / T) < 1 / 1000000).
Proof.
  intros HT b T m. change (0 < T) in HT.
  destruct (processFile_model name file raw) as (_ & _ & Hcam).
  fold b m T in Hcam.
  destruct (Rgt_dec T 0) as [_|]; [|lra].
  assert (m / T > ADMIN_SHARE_OUTLIER ↔ ADMIN_SHARE_OUTLIER * T < m) as Hshare.
  { split; intros H.
    - apply (Rmult_lt_compat_r T) in H; [|done].
      unfold Rdiv in H. rewrite Rmult_assoc, Rinv_l, Rmult_1_r in H by lra.
      done.
    - apply Rlt_gt. apply (Rmult_lt_reg_r T); [done|].
      unfold Rdiv. rewrite Rmult_assoc, Rinv_l, Rmult_1_r by lra. done. }
  split; [|split; [|split]].
  - intros Hle. rewrite Hcam.
    destruct (Rgt_dec _ ADMIN_SHARE_OUTLIER) as [Hgt|]; [|done].
    apply Hshare in Hgt. lra.
  - intros Hgt.
    assert (budgets.centralAdministrationModel b
              = Math_round (T * ADMIN_SHARE_CAP)) as Hcap.
    { rewrite Hcam.
      destruct (Rgt_dec _ ADMIN_SHARE_OUTLIER) as [_|Hn];
        [|by destruct Hn; apply Hshare].
      f_equal. apply Rmin_right.
      unfold ADMIN_SHARE_CAP, ADMIN_SHARE_OUTLIER in *. lra. }
    split; [rewrite Hcap; unfold Math_round; by eexists|]. split.
    { rewrite Hcap. pose proof (Math_round_bounds (T * ADMIN_SHARE_CAP)).
      unfold ADMIN_SHARE_CAP in *. apply Rabs_le. lra. }
    apply Hshare in Hgt.
    unfold b, processFile. fold T. fold m.
    unfold modelPart in m, Hgt.
    destruct (Rgt_dec T 0) as [_|]; [|lra].
    destruct (Rlt_dec (districtManagement raw) 0);
      destruct (Rlt_dec (programOpsManagement raw) 0);
      simpl in *;
      (destruct (Rgt_dec _ ADMIN_SHARE_OUTLIER) as [_|Hn];
        [|by destruct Hn]);
      destruct (Rgt_dec _ T); simpl;
      rewrite !elem_of_app, !list_elem_of_singleton; tauto.
  - assert (budgets.adminShareOfTotal b =
            Some (round6 ((districtManagement raw +
                           programOpsManagement raw) / T))) as ->.
    { unfold b, processFile. fold T.
      destruct (Rgt_dec T 0) as [_|]; [|lra]. budget_cases; done. }
    destruct (round6_near ((districtManagement raw +
                            programOpsManagement raw) / T)) as [[n Hn] Hnear].
    eexists _, n. split; [reflexivity|]. by split.
  - assert (budgets.adminShareOfTotalModel b =
            Some (round6 (budgets.centralAdministrationModel b / T))) as ->.
    { unfold b, processFile. fold T.
      destruct (Rgt_dec T 0) as [_|]; [|lra]. budget_cases; done. }
    destruct (round6_near (budgets.centralAdministrationModel b / T))
      as [[n Hn] Hnear].
    eexists _, n. split; [reflexivity|]. by split.
Qed.

Lemma X22_processFile_cap_witness :
  let b := processFile "Providence" "uca.csv" (Some rawProvidence) in
  budgets.centralAdministrationModel b = 40000000 ∧
  "admin_share_outlier" ∈ budgets.flags b ∧
  "admin_share_capped_model" ∈ budgets.flags b ∧
  (∃ share, budgets.adminShareOfTotal b = Some share ∧
            Rabs (share - 18 / 100) < 1 / 1000000) ∧
  (∃ share, budgets.adminShareOfTotalModel b = Some share ∧
            Rabs (share - 1 / 10) < 1 / 1000000).
Proof.
  intros b.
  assert (0 < totalExpenditures rawProvidence) as HT by (simpl; lra).
  destruct (X22_processFile_cap "Providence" "uca.csv" rawProvidence HT)
    as (_ & Hcap & (s1 & n1 & Hs1 & _ & Hn1) & (s2 & n2 & Hs2 & _ & Hn2)).
  fold b in Hcap, Hs1, Hs2, Hn2. simpl in Hcap, Hn1, Hn2.
  destruct Hcap as ([n Hn] & Habs & Hf1 & Hf2).
  { unfold ADMIN_SHARE_OUTLIER, modelPart.
    destruct (Rlt_dec 70000000 0); destruct (Rlt_dec 2000000 0); lra. }
  assert (budgets.centralAdministrationModel b = 40000000) as Hmodel.
  { rewrite Hn in Habs |- *.
    unfold Rabs in Habs.
    assert (IZR (39999999) < IZR n) as Hlo
      by (destruct (Rcase_abs _); lra).
    assert (IZR n < IZR (40000001)) as Hhi
      by (destruct (Rcase_abs _); lra).
    apply lt_IZR in Hlo, Hhi. f_equal. lia. }
  split; [exact Hmodel|]. split; [exact Hf1|]. split; [exact Hf2|].
  split.
  - exists s1. split; [exact Hs1|].
    replace (18 / 100) with ((70000000 + 2000000) / 400000000) by lra.
    exact Hn1.
  - exists s2. split; [exact Hs2|].
    rewrite Hmodel in Hn2.
    replace (1 / 10) with (40000000 / 400000000) by lra.
    exact Hn2.
Defined.

(** X23. With a total that is zero or negative (the total row was not
    found), no share is recorded, the record is flagged
    "total_expenditures_missing_or_zero" and never "admin_gt_total" by
    this step, and the modelled administration is the sum of the two
    model components: the [Math.max(0, ...)] of that branch changes
    nothing. *)
Theorem X23_processFile_no_total (name file : string) (raw : RawBudget) :
  totalExpenditures raw <= 0 →
  let b := processFile name file (Some raw) in
  budgets.adminShareOfTotal b = None ∧
  budgets.adminShareOfTotalModel b = None ∧
  budgets.centralAdministrationModel b =
    modelPart (districtManagement raw) + modelPart (programOpsManagement raw) ∧
  "total_expenditures_missing_or_zero" ∈ budgets.flags b ∧
  ("admin_gt_total" ∈ budgets.flags b → "admin_gt_total" ∈ flags raw).
Proof.
  intros HT b.
  destruct (processFile_model name file raw) as (_ & _ & Hcam).
  fold b in Hcam.
  pose proof (modelPart_nonneg (districtManagement raw)).
  pose proof (modelPart_nonneg (programOpsManagement raw)).
  split; [|split; [|split; [|split]]].
  - unfold b, processFile.
    destruct (Rgt_dec (totalExpenditures raw) 0); [lra|].
    budget_cases; done.
  - unfold b, processFile.
    destruct (Rgt_dec (totalExpenditures raw) 0); [lra|].
    budget_cases; done.
  - rewrite Hcam. destruct (Rgt_dec (totalExpenditures raw) 0); [lra|].
    apply Rmax_right. lra.
  - unfold b, processFile.
    destruct (Rgt_dec (totalExpenditures raw) 0); [lra|].
    budget_cases; simpl; rewrite ?elem_of_app, !list_elem_of_singleton; tauto.
  - unfold b, processFile.
    destruct (Rgt_dec (totalExpenditures raw) 0); [lra|].
    budget_cases; simpl; rewrite ?elem_of_app, ?list_elem_of_singleton;
      naive_solver.
Qed.

Lemma X23_processFile_no_total_witness :
  let raw := rawUnknown in
  let b := processFile "Foster" "uca.csv" (Some raw) in
  budgets.adminShareOfTotal b = None ∧
  budgets.adminShareOfTotalModel b = None ∧
  budgets.centralAdministrationModel b =
    modelPart (districtManagement raw) + modelPart (programOpsManagement raw) ∧
  "total_expenditures_missing_or_zero" ∈ budgets.flags b ∧
  ("admin_gt_total" ∈ budgets.flags b → "admin_gt_total" ∈ flags raw).
Proof.
  intros raw.
  assert (totalExpenditures raw <= 0) as HT by (simpl; lra).
  exact (X23_processFile_no_total "Foster" "uca.csv" raw HT).
Defined.

Lemma builtBudgets_builtBy : builtBy builtBudgets.
Proof.
  intros k b Hb. unfold builtBudgets in Hb.
  apply lookup_insert_Some in Hb as [[_ <-]|[_ Hb]]; [by eexists _, _, _|].
  apply lookup_insert_Some in Hb as [[_ <-]|[_ Hb]]; [by eexists _, _, _|].
  apply lookup_insert_Some in Hb as [[_ <-]|[_ Hb]]; [by eexists _, _, _|].
  by rewrite lookup_empty in Hb.
Qed.

Lemma built_ok :
  ∃ r, computeConsolidationV1 builtBudgets sampleEnrollments sampleAnchors
         ["providence"; "barrington"] sampleParams = Some (Result r) ∧ ok r = true.
Proof.
  apply compute_ok_intro.
  - vm_compute. lia.
  - intros k. rewrite !elem_of_cons, elem_of_nil.
    intros [->|[->|[]]].
    + repeat split; [by eexists| |by eexists].
      eexists. split; [reflexivity|]. simpl. lra.
    + repeat split; [by eexists| |by eexists].
      eexists. split; [reflexivity|]. simpl. lra.
Qed.

(** X24. When every budget record of the map is an output of the budget
    build, a successful estimate has administrative baselines that are
    not negative and savings between zero and the spokes' baseline
    (numbers as reals). *)
Theorem X24_built_budgets_savings
    (budgets : BudgetsMap) (enrollments : LeaEnrollmentMap)
    (anchors : DistrictAnchorsMap) (selectedKeys : list string)
    (params : ConsolidationParamsV1) (r : ConsolidationResultV1) :
  builtBy budgets →
  computeConsolidationV1 budgets enrollments anchors selectedKeys params
    = Some (Result r) →
  ok r = true →
  0 <= adminBaselineHub r ∧
  0 <= adminBaselineSpokes r ∧
  0 <= adminSavings r <= adminBaselineSpokes r.
Proof.
  intros Hbuilt Hr Hok.
  destruct (compute_ok_fields _ _ _ _ _ _ Hr Hok)
    as (_ & _ & _ & _ & _ & _ & _ & HaH & HaS & Hsav & _).
  assert (∀ k, 0 <= adminOf budgets k) as Hadmin.
  { intros k. unfold adminOf.
    destruct (budgets !! k) as [b|] eqn:Hb; simpl; [|lra].
    destruct (Hbuilt k b Hb) as (name & file & raw & ->).
    apply processFile_nonneg. }
  assert (0 <= adminBaselineSpokes r) as Hspokes.
  { rewrite HaS. apply sumOf_nonneg. intros k _. apply Hadmin. }
  pose proof (clamp_range (adminReductionRate params)) as [H0 H1].
  split; [rewrite HaH; apply Hadmin|]. split; [done|].
  rewrite Hsav. split; nra.
Qed.

Lemma X24_built_budgets_savings_witness :
  ∃ r,
    computeConsolidationV1 builtBudgets sampleEnrollments sampleAnchors
      ["providence"; "barrington"] sampleParams = Some (Result r) ∧
    ok r = true ∧
    0 <= adminBaselineHub r ∧
    0 <= adminBaselineSpokes r ∧
    0 <= adminSavings r <= adminBaselineSpokes r.
Proof.
  destruct built_ok as (r & Hr & Hok). exists r.
  split; [exact Hr|]. split; [exact Hok|].
  exact (X24_built_budgets_savings _ _ _ _ _ _ builtBudgets_builtBy Hr Hok).
Defined.

Lemma findFy_Some (available : list (string * nat)) (p : string)
    (m : string * nat) :
  findFy available p = Some m → m ∈ available ∧ m.1 = p.
Proof.
  unfold findFy. intros H.
  destruct (list_find _ available) as [[i x]|] eqn:Hfind; [|done].
  simpl in H. injection H as <-.
  apply list_find_Some in Hfind as (Hi & Hx & _).
  split; [by eapply list_elem_of_lookup_2|done].
Qed.

Lemma findFy_None (available : list (string * nat)) (p : string) :
  findFy available p = None → p ∉ available.*1.
Proof.
  unfold findFy. intros H.
  destruct (list_find _ available) as [[i x]|] eqn:Hfind; [done|].
  apply list_find_None in Hfind.
  intros Hin. apply list_elem_of_fmap in Hin as (x & -> & Hx).
  rewrite Forall_forall in Hfind. by apply (Hfind x Hx).
Qed.

Lemma pickFrom_None (prefs : list string) (available : list (string * nat)) :
  pickFrom prefs available = None ↔ available = [].
Proof.
  induction prefs as [|p prefs IH]; simpl.
  - apply last_None.
  - destruct (findFy available p) as [m|] eqn:Hf; [|done].
    split; [done|]. intros ->. done.
Qed.

Lemma pickFrom_Some (prefs : list string) (available : list (string * nat))
    (m : string * nat) :
  pickFrom prefs available = Some m →
  m ∈ available ∧
  ((∃ j, prefs !! j = Some m.1 ∧
         ∀ j' fy, (j' < j)%nat → prefs !! j' = Some fy → fy ∉ available.*1) ∨
   ((∀ fy, fy ∈ prefs → fy ∉ available.*1) ∧ last available = Some m)).
Proof.
  induction prefs as [|p prefs IH]; simpl; intros H.
  - split.
    + apply last_Some in H as [l' ->]. apply elem_of_app. right. by left.
    + right. split; [|done]. intros fy Hfy. by apply elem_of_nil in Hfy.
  - destruct (findFy available p) as [m'|] eqn:Hf.
    + injection H as ->. apply findFy_Some in Hf as [Hin Hfy].
      split; [done|]. left. exists 0%nat. split; [by rewrite Hfy|].
      intros j' fy Hlt. lia.
    + apply findFy_None in Hf. destruct (IH H) as [Hin [(j & Hj & Hbefore)|[Hno Hlast]]].
      * split; [done|]. left. exists (S j). split; [done|].
        intros [|j'] fy Hlt Hfy; simpl in Hfy.
        -- by injection Hfy as <-.
        -- apply (Hbefore j'); [lia|done].
      * split; [done|]. right. split; [|done].
        intros fy Hfy. apply elem_of_cons in Hfy as [->|Hfy]; [done|].
        by apply Hno.
Qed.

(** X25. The fiscal year column chosen for a budget file: none exactly
    when no column is available; otherwise a column of the file, namely
    one of the most preferred year among "2025-26", "2024-25" and
    "2023-24" that the file has, or, when it has none of the three, its
    last column. *)
Theorem X25_pickLatestFiscalYear (available : list (string * nat)) :
  (pickLatestFiscalYear available = None ↔ available = []) ∧
  ∀ m, pickLatestFiscalYear available = Some m →
    m ∈ available ∧
    ((∃ j, FY_PREFERENCE !! j = Some m.1 ∧
           ∀ j' fy, (j' < j)%nat → FY_PREFERENCE !! j' = Some fy →
                    fy ∉ available.*1) ∨
     ((∀ fy, fy ∈ FY_PREFERENCE → fy ∉ available.*1) ∧
      last available = Some m)).
Proof.
  split; [apply pickFrom_None|]. intros m. apply pickFrom_Some.
Qed.

End BudgetFacts.

(* ===================================================================== *)
(** * Part XI: the anchor build                                           *)
(* ===================================================================== *)

Module AnchorFacts.
Import geoDistance consolidationV1 buildAnchors BuildSpec EstimatorTerms
  EstimatorFacts EstimatorMore.
Local Open Scope R_scope.

Section ranking.
Variable localeCompare : string → string → R.

Lemma rankCmp_enrollment (a b : SchoolCandidate) :
  rankCmp localeCompare a b <= 0 →
  default (-1) (enrollment b) <= default (-1) (enrollment a).
Proof.
  unfold rankCmp.
  destruct (Req_dec_T (default (-1) (enrollment b))
                      (default (-1) (enrollment a))); lra.
Qed.

Lemma rankCmp_total :
  (∀ a b, localeCompare a b <= 0 ∨ localeCompare b a <= 0) →
  ∀ a b, rankCmp localeCompare a b <= 0 ∨ rankCmp localeCompare b a <= 0.
Proof.
  intros Hlc a b. unfold rankCmp.
  destruct (Req_dec_T (default (-1) (enrollment b))
                      (default (-1) (enrollment a))) as [He|He];
    destruct (Req_dec_T (default (-1) (enrollment a))
                        (default (-1) (enrollment b))) as [He'|He'];
    try lra.
  destruct (Req_dec_T (bucketPriority (gradeBucket a))
                      (bucketPriority (gradeBucket b))) as [Hp|Hp];
    destruct (Req_dec_T (bucketPriority (gradeBucket b))
                        (bucketPriority (gradeBucket a))) as [Hp'|Hp'];
    try lra.
  destruct (Req_dec_T (gradeSpan b) (gradeSpan a)) as [Hs|Hs];
    destruct (Req_dec_T (gradeSpan a) (gradeSpan b)) as [Hs'|Hs'];
    try lra.
  apply Hlc.
Qed.

Lemma rank_head_elem (pool : list SchoolCandidate) (w : SchoolCandidate) :
  head (rankCandidates localeCompare pool) = Some w → w ∈ pool.
Proof.
  intros Hw. unfold rankCandidates in Hw.
  rewrite <- (sortBy_Permutation (rankCmp localeCompare) pool).
  destruct (sortBy _ pool) as [|x l]; [done|].
  injection Hw as ->. by left.
Qed.

Lemma rank_head_is_Some (pool : list SchoolCandidate) :
  pool ≠ [] → is_Some (head (rankCandidates localeCompare pool)).
Proof.
  intros Hne. unfold rankCandidates.
  pose proof (sortBy_Permutation (rankCmp localeCompare) pool) as Hp.
  destruct (sortBy _ pool) as [|x l]; [|by eexists].
  apply Permutation_nil_l in Hp. by subst.
Qed.

Lemma rank_head_max (pool : list SchoolCandidate) (w c : SchoolCandidate) :
  (∀ a b, localeCompare a b <= 0 ∨ localeCompare b a <= 0) →
  head (rankCandidates localeCompare pool) = Some w → c ∈ pool →
  default (-1) (enrollment c) <= default (-1) (enrollment w).
Proof.
  intros Hlc Hw Hc. unfold rankCandidates in Hw.
  pose proof (sortBy_Sorted (rankCmp localeCompare) pool
                (rankCmp_total Hlc)) as Hs.
  rewrite <- (sortBy_Permutation (rankCmp localeCompare) pool) in Hc.
  set (Rel := λ a b : SchoolCandidate,
         default (-1) (enrollment b) <= default (-1) (enrollment a)).
  assert (∀ l, Sorted (λ a b, rankCmp localeCompare a b <= 0) l →
               Sorted Rel l) as Himp.
  { intros l0 H0. induction H0 as [|x l0 H0 IH Hx]; constructor; [done|].
    destruct Hx as [|y l1 Hy]; constructor. by apply rankCmp_enrollment. }
  apply Himp in Hs as Hs'.
  assert (Transitive Rel) as Htr by (intros x y z; unfold Rel; lra).
  apply Sorted_StronglySorted in Hs'; [|done].
  destruct (sortBy _ pool) as [|x l]; [done|].
  injection Hw as ->.
  apply StronglySorted_inv in Hs' as [_ Hall].
  apply elem_of_cons in Hc as [->|Hc]; [lra|].
  rewrite Forall_forall in Hall. by apply Hall.
Qed.

(** What [pickBest] returns, step by step. *)
Lemma pickBest_inv (candidates : list SchoolCandidate) (w : SchoolCandidate)
    (fl : list string) :
  pickBest localeCompare candidates = Some (w, fl) →
  let nonCharter := filter (λ c, likelyCharter c = false) candidates in
  let withEnrollment :=
    filter (λ c, hasPositiveEnrollment c = true) nonCharter in
  (∃ pool,
     head (rankCandidates localeCompare pool) = Some w ∧
     ((pool = withEnrollment ∧ withEnrollment ≠ []) ∨
      (pool = nonCharter ∧ withEnrollment = [] ∧ nonCharter ≠ []) ∨
      (pool = candidates ∧ withEnrollment = [] ∧ nonCharter = []))) ∧
  fl =
    (if lacksEnrollment w then ["anchor_used_heuristic_no_enrollment"]
     else []) ++
    (if likelyCharter w then ["anchor_may_be_charter"] else []) ++
    (match gradeLow w, gradeHigh w with
     | None, None => ["anchor_missing_grade_span"]
     | _, _ => []
     end).
Proof.
  intros H nonCharter withEnrollment. unfold pickBest in H.
  fold nonCharter withEnrollment in H.
  destruct (head (rankCandidates localeCompare _)) as [w'|] eqn:Hw;
    simpl in H; [|discriminate H].
  injection H as -> <-. split.
  - eexists. split; [exact Hw|].
    destruct (decide (0 < length withEnrollment)%nat) as [H1|H1].
    { left. split; [done|]. intros E. rewrite E in H1. simpl in H1. lia. }
    assert (withEnrollment = []) as E1
      by (destruct withEnrollment; [done|simpl in H1; lia]).
    destruct (decide (0 < length nonCharter)%nat) as [H2|H2].
    { right. left. split; [done|]. split; [done|].
      intros E. rewrite E in H2. simpl in H2. lia. }
    right. right. split; [done|]. split; [done|].
    destruct nonCharter; [done|simpl in H2; lia].
  - destruct (lacksEnrollment w), (likelyCharter w),
      (gradeLow w), (gradeHigh w); done.
Qed.

Lemma pickBest_elem (candidates : list SchoolCandidate) (w : SchoolCandidate)
    (fl : list string) :
  pickBest localeCompare candidates = Some (w, fl) → w ∈ candidates.
Proof.
  intros H. destruct (pickBest_inv _ _ _ H) as [(pool & Hw & Hpool) _].
  apply rank_head_elem in Hw.
  destruct Hpool as [[-> _]|[[-> _]|[-> _]]]; [| |done].
  - apply list_elem_of_filter in Hw as [_ Hw].
    by apply list_elem_of_filter in Hw as [_ Hw].
  - by apply list_elem_of_filter in Hw as [_ Hw].
Qed.

Lemma pickBest_is_Some (candidates : list SchoolCandidate) :
  candidates ≠ [] → is_Some (pickBest localeCompare candidates).
Proof.
  intros Hne. unfold pickBest.
  set (nonCharter := filter (λ c, likelyCharter c = false) candidates).
  set (withEnrollment :=
         filter (λ c, hasPositiveEnrollment c = true) nonCharter).
  set (pool := if decide (0 < length withEnrollment)%nat then withEnrollment
               else if decide (0 < length nonCharter)%nat then nonCharter
               else candidates).
  assert (pool ≠ []) as Hpool.
  { unfold pool. destruct (decide (0 < length withEnrollment)%nat) as [H1|H1].
    { intros E. rewrite E in H1. simpl in H1. lia. }
    destruct (decide (0 < length nonCharter)%nat) as [H2|H2]; [|done].
    intros E. rewrite E in H2. simpl in H2. lia. }
  destruct (rank_head_is_Some pool Hpool) as [w Hw].
  rewrite Hw. simpl. by eexists.
Qed.

Lemma pickBest_nil : pickBest localeCompare [] = None.
Proof. reflexivity. Qed.

End ranking.

Lemma filter_nonempty {A : Type} (P : A → Prop) `{∀ x, Decision (P x)}
    (l : list A) :
  (0 < length (filter P l))%nat ↔ ∃ x, x ∈ l ∧ P x.
Proof.
  split.
  - intros Hlen. destruct (filter P l) as [|x l'] eqn:E; [simpl in Hlen; lia|].
    exists x. assert (x ∈ filter P l) as Hx by (rewrite E; by left).
    apply list_elem_of_filter in Hx. tauto.
  - intros (x & Hx & HP).
    assert (x ∈ filter P l) as Hin by by apply list_elem_of_filter.
    destruct (filter P l); [by apply elem_of_nil in Hin|simpl; lia].
Qed.

Lemma sampleCompare_total (a b : string) :
  sampleCompare a b <= 0 ∨ sampleCompare b a <= 0.
Proof.
  unfold sampleCompare. rewrite (String.compare_antisym a b).
  destruct (String.compare b a); simpl; lra.
Qed.

Lemma sampleCandidates_pick :
  ∃ w fl, pickBest sampleCompare sampleCandidates = Some (w, fl).
Proof.
  destruct (pickBest_is_Some sampleCompare sampleCandidates) as [[w fl] H];
    [done|].
  by exists w, fl.
Qed.

Lemma Math_round_mono (x y : R) : x <= y → Math_round x <= Math_round y.
Proof.
  intros Hxy. unfold Math_round. apply IZR_le.
  destruct (base_Int_part (x + / 2)) as [H1 _].
  destruct (base_Int_part (y + / 2)) as [_ H2].
  assert (IZR (Int_part (x + / 2)) < IZR (Int_part (y + / 2)) + 1) as H by lra.
  rewrite <- plus_IZR in H. apply lt_IZR in H. lia.
Qed.

Lemma Math_round_IZR (n : Z) : Math_round (IZR n) = IZR n.
Proof.
  unfold Math_round. f_equal. symmetry. apply Int_part_spec. lra.
Qed.

Lemma round6_latitude (x : R) : -90 <= x <= 90 → -90 <= round6 x <= 90.
Proof.
  intros [Hlo Hhi]. unfold round6.
  assert (Math_round (IZR (-90000000)) <= Math_round (x * 1000000)) as H1
    by (apply Math_round_mono; lra).
  assert (Math_round (x * 1000000) <= Math_round (IZR 90000000)) as H2
    by (apply Math_round_mono; lra).
  rewrite Math_round_IZR in H1, H2. lra.
Qed.

Lemma nonempty_length {A : Type} (l : list A) : (0 < length l)%nat → l ≠ [].
Proof. intros Hlen ->. simpl in Hlen. lia. Qed.

(** The anchor of one district. *)
Lemma buildAnchor_spec (localeCompare : string → string → R)
    (fb : FallbackInfo) (candidates : list SchoolCandidate) :
  ∃ a,
    buildAnchor localeCompare fb candidates = Some a ∧
    anchors.displayName a = displayName fb ∧
    (anchors.anchorType a = "high_school" ↔
     ∃ c, c ∈ candidates ∧ isHighSchool c = true) ∧
    (anchors.anchorType a = "elementary_school" ↔
     (∀ c, c ∈ candidates → isHighSchool c = false) ∧
     ∃ c, c ∈ candidates ∧ isElementary c = true) ∧
    (anchors.anchorType a = "fallback" ↔
     ∀ c, c ∈ candidates → isHighSchool c = false ∧ isElementary c = false) ∧
    match anchors.anchorSchool a with
    | None =>
        anchors.anchorType a = "fallback" ∧
        anchors.lat a = round6 (fb_lat fb) ∧
        anchors.lon a = round6 (fb_lon fb) ∧
        anchors.flags a = flags fb ++ ["anchor_fallback_no_school_candidates"]
    | Some sch =>
        ∃ w, w ∈ candidates ∧ sch = anchorSchoolOf w ∧
          anchors.lat a = round6 (lat w) ∧
          anchors.lon a = round6 (lon w) ∧
          ((anchors.anchorType a = "high_school" ∧ isHighSchool w = true ∧
            last (anchors.flags a) = Some "anchor_high_school") ∨
           (anchors.anchorType a = "elementary_school" ∧
            isElementary w = true ∧
            last (anchors.flags a) = Some "anchor_elementary_school"))
    end.
Proof.
  unfold buildAnchor.
  set (hs := filter (λ c, isHighSchool c = true) candidates).
  set (el := filter (λ c, isElementary c = true) candidates).
  pose proof (filter_nonempty (λ c, isHighSchool c = true) candidates) as Hhs.
  pose proof (filter_nonempty (λ c, isElementary c = true) candidates) as Hel.
  fold hs in Hhs. fold el in Hel.
  destruct (decide (0 < length hs)%nat) as [H1|H1].
  - destruct (pickBest_is_Some localeCompare hs (nonempty_length _ H1))
      as [[w fl] Hpick].
    rewrite Hpick. simpl. eexists. split; [reflexivity|]. simpl.
    apply pickBest_elem in Hpick.
    apply list_elem_of_filter in Hpick as [Hw Hin].
    split; [done|]. split; [|split; [|split]].
    + split; [intros _; by apply Hhs|done].
    + split; [done|]. intros [Hno _]. apply Hhs in H1 as (c & Hc & Hc').
      rewrite (Hno c Hc) in Hc'. done.
    + split; [done|]. intros Hno. apply Hhs in H1 as (c & Hc & Hc').
      destruct (Hno c Hc) as [Hc'' _]. rewrite Hc'' in Hc'. done.
    + exists w. split; [done|]. split; [done|]. split; [done|].
      split; [done|]. left. split; [done|]. split; [done|].
      by rewrite last_snoc.
  - assert (∀ c, c ∈ candidates → isHighSchool c = false) as Hnohs.
    { intros c Hc. destruct (isHighSchool c) eqn:E; [|done].
      destruct H1. apply Hhs. by exists c. }
    destruct (decide (0 < length el)%nat) as [H2|H2].
    + destruct (pickBest_is_Some localeCompare el (nonempty_length _ H2))
        as [[w fl] Hpick].
      rewrite Hpick. simpl. eexists. split; [reflexivity|]. simpl.
      apply pickBest_elem in Hpick.
      apply list_elem_of_filter in Hpick as [Hw Hin].
      split; [done|]. split; [|split; [|split]].
      * split; [done|]. intros (c & Hc & Hc').
        rewrite (Hnohs c Hc) in Hc'. done.
      * split; [|done]. intros _. split; [done|]. by apply Hel.
      * split; [done|]. intros Hno. apply Hel in H2 as (c & Hc & Hc').
        destruct (Hno c Hc) as [_ Hc'']. rewrite Hc'' in Hc'. done.
      * exists w. split; [done|]. split; [done|]. split; [done|].
        split; [done|]. right. split; [done|]. split; [done|].
        by rewrite last_snoc.
    + eexists. split; [reflexivity|]. simpl.
      split; [done|]. split; [|split; [|split]].
      * split; [done|]. intros (c & Hc & Hc').
        rewrite (Hnohs c Hc) in Hc'. done.
      * split; [done|]. intros [_ Hex]. destruct H2. by apply Hel.
      * split; [|done]. intros _ c Hc. split; [by apply Hnohs|].
        destruct (isElementary c) eqn:E; [|done].
        destruct H2. apply Hel. by exists c.
      * done.
Qed.

Lemma hasPositiveEnrollment_spec (c : SchoolCandidate) :
  hasPositiveEnrollment c = true ↔ ∃ e, enrollment c = Some e ∧ 0 < e.
Proof.
  unfold hasPositiveEnrollment. destruct (enrollment c) as [e|].
  - destruct (Rgt_dec e 0).
    + split; [|done]. intros _. by exists e.
    + split; [done|]. intros (e' & [= <-] & He). lra.
  - split; [done|]. by intros (e' & ? & _).
Qed.

Lemma lacksEnrollment_spec (c : SchoolCandidate) :
  lacksEnrollment c = negb (hasPositiveEnrollment c).
Proof.
  unfold lacksEnrollment, hasPositiveEnrollment.
  destruct (enrollment c) as [e|]; [|done].
  destruct (Rle_dec e 0), (Rgt_dec e 0); simpl; try done; lra.
Qed.

(** X26. [pickBest] throws exactly on an empty list of candidates;
    otherwise its winner is one of the candidates, and its flags, taken
    from three fixed ones, say of the winner: the heuristic flag that it
    has no positive enrollment, the grade-span flag that both grade
    bounds are missing. *)
Theorem X26_pickBest_winner (localeCompare : string → string → R)
    (candidates : list SchoolCandidate) :
  (pickBest localeCompare candidates = None ↔ candidates = []) ∧
  ∀ w fl, pickBest localeCompare candidates = Some (w, fl) →
    w ∈ candidates ∧
    ("anchor_used_heuristic_no_enrollment" ∈ fl ↔
     hasPositiveEnrollment w = false) ∧
    ("anchor_missing_grade_span" ∈ fl ↔
     gradeLow w = None ∧ gradeHigh w = None) ∧
    ∀ f, f ∈ fl →
      f ∈ ["anchor_used_heuristic_no_enrollment"; "anchor_may_be_charter";
           "anchor_missing_grade_span"].
Proof.
  split.
  - split.
    + intros Hnone. destruct candidates as [|c l]; [done|].
      destruct (pickBest_is_Some localeCompare (c :: l)) as [x Hx]; [done|].
      congruence.
    + intros ->. apply pickBest_nil.
  - intros w fl H. split; [by eapply pickBest_elem|].
    destruct (pickBest_inv _ _ _ _ H) as [_ ->].
    rewrite lacksEnrollment_spec.
    destruct (hasPositiveEnrollment w), (likelyCharter w),
      (gradeLow w), (gradeHigh w); simpl;
      (split; [|split]);
      rewrite ?elem_of_cons, ?elem_of_nil; try intros f;
      rewrite ?elem_of_cons, ?elem_of_nil; naive_solver.
Qed.

(** X27. The winner of [pickBest] is a likely charter or alternative
    school only when every candidate is one, and the flag
    "anchor_may_be_charter" is raised exactly then. *)
Theorem X27_pickBest_charter (localeCompare : string → string → R)
    (candidates : list SchoolCandidate) (w : SchoolCandidate)
    (fl : list string) :
  pickBest localeCompare candidates = Some (w, fl) →
  (likelyCharter w = true ↔ ∀ c, c ∈ candidates → likelyCharter c = true) ∧
  ("anchor_may_be_charter" ∈ fl ↔ likelyCharter w = true).
Proof.
  intros H. pose proof (pickBest_elem _ _ _ _ H) as Hin.
  destruct (pickBest_inv _ _ _ _ H) as [(pool & Hw & Hpool) ->].
  apply rank_head_elem in Hw. split.
  - split; [|intros Hall; by apply Hall].
    intros Hch c Hc.
    destruct Hpool as [[-> _]|[[-> _]|(-> & _ & Hnil)]].
    + apply list_elem_of_filter in Hw as [_ Hw].
      apply list_elem_of_filter in Hw as [Hw _]. congruence.
    + apply list_elem_of_filter in Hw as [Hw _]. congruence.
    + destruct (likelyCharter c) eqn:E; [done|].
      by destruct (filter_nil_not_elem_of _ _ c Hnil E).
  - destruct (lacksEnrollment w), (likelyCharter w),
      (gradeLow w), (gradeHigh w); simpl;
      rewrite ?elem_of_cons, ?elem_of_nil; naive_solver.
Qed.

Lemma X27_pickBest_charter_witness :
  ∃ w fl,
    pickBest sampleCompare sampleCandidates = Some (w, fl) ∧
    (likelyCharter w = true ↔
     ∀ c, c ∈ sampleCandidates → likelyCharter c = true) ∧
    ("anchor_may_be_charter" ∈ fl ↔ likelyCharter w = true).
Proof.
  destruct sampleCandidates_pick as (w & fl & H). exists w, fl.
  split; [exact H|].
  exact (X27_pickBest_charter sampleCompare sampleCandidates w fl H).
Defined.

(** X28. When some candidate that is not a likely charter has a
    positive enrollment, the winner of [pickBest] is such a candidate,
    its enrollment is the largest among the candidates that are not
    likely charters, and neither the heuristic flag nor the charter flag
    is raised.  (The comparison of names is assumed to order any two
    names one way or the other.) *)
Theorem X28_pickBest_largest (localeCompare : string → string → R)
    (candidates : list SchoolCandidate) (w c : SchoolCandidate)
    (fl : list string) :
  (∀ a b, localeCompare a b <= 0 ∨ localeCompare b a <= 0) →
  pickBest localeCompare candidates = Some (w, fl) →
  c ∈ candidates → likelyCharter c = false → hasPositiveEnrollment c = true →
  likelyCharter w = false ∧
  ("anchor_used_heuristic_no_enrollment" ∉ fl) ∧
  ("anchor_may_be_charter" ∉ fl) ∧
  ∃ e, enrollment w = Some e ∧ 0 < e ∧
    ∀ c' e', c' ∈ candidates → likelyCharter c' = false →
             enrollment c' = Some e' → e' <= e.
Proof.
  intros Hlc H Hc Hnc Hpos.
  destruct (pickBest_inv _ _ _ _ H) as [(pool & Hw & Hpool) ->].
  assert (c ∈ filter (λ c, hasPositiveEnrollment c = true)
                (filter (λ c, likelyCharter c = false) candidates)) as Hcin.
  { apply list_elem_of_filter. split; [done|]. by apply list_elem_of_filter. }
  destruct Hpool as [[-> _]|[(_ & Hnil & _)|(_ & Hnil & _)]];
    [|rewrite Hnil in Hcin; by apply elem_of_nil in Hcin..].
  pose proof (rank_head_elem _ _ _ Hw) as Hwin.
  apply list_elem_of_filter in Hwin as [Hwpos Hwin].
  apply list_elem_of_filter in Hwin as [Hwnc Hwin].
  pose proof Hwpos as Hwpos'.
  apply hasPositiveEnrollment_spec in Hwpos' as (e & He & Hepos).
  rewrite lacksEnrollment_spec, Hwpos, Hwnc. simpl.
  split; [done|].
  split.
  { destruct (gradeLow w), (gradeHigh w);
      rewrite ?elem_of_cons, ?elem_of_nil; naive_solver. }
  split.
  { destruct (gradeLow w), (gradeHigh w);
      rewrite ?elem_of_cons, ?elem_of_nil; naive_solver. }
  exists e. split; [done|]. split; [done|].
  intros c' e' Hc' Hnc' He'.
  destruct (hasPositiveEnrollment c') eqn:Hpos'.
  - assert (c' ∈ filter (λ c, hasPositiveEnrollment c = true)
                   (filter (λ c, likelyCharter c = false) candidates)) as Hin'.
    { apply list_elem_of_filter. split; [done|].
      by apply list_elem_of_filter. }
    pose proof (rank_head_max _ _ _ _ Hlc Hw Hin') as Hmax.
    rewrite He, He' in Hmax. simpl in Hmax. done.
  - unfold hasPositiveEnrollment in Hpos'. rewrite He' in Hpos'.
    destruct (Rgt_dec e' 0); [done|]. lra.
Qed.

Lemma X28_pickBest_largest_witness :
  ∃ w fl,
    pickBest sampleCompare sampleCandidates = Some (w, fl) ∧
    likelyCharter w = false ∧
    ("anchor_used_heuristic_no_enrollment" ∉ fl) ∧
    ("anchor_may_be_charter" ∉ fl) ∧
    ∃ e, enrollment w = Some e ∧ 0 < e ∧
      ∀ c' e', c' ∈ sampleCandidates → likelyCharter c' = false →
               enrollment c' = Some e' → e' <= e.
Proof.
  destruct sampleCandidates_pick as (w & fl & H). exists w, fl.
  split; [exact H|].
  assert (classical ∈ sampleCandidates) as Hc
    by (unfold sampleCandidates; apply elem_of_cons; right; by left).
  assert (hasPositiveEnrollment classical = true) as Hpos.
  { unfold hasPositiveEnrollment. simpl.
    destruct (Rgt_dec 1200 0); [done|lra]. }
  exact (X28_pickBest_largest sampleCompare sampleCandidates w classical fl
           sampleCompare_total H Hc eq_refl Hpos).
Defined.


(** X30. When the fallback point and the candidate schools of a district
    have latitudes between -90 and 90, so has the anchor that is built:
    rounding to six decimals does not leave the range.  The distance from
    such an anchor to any point with such a latitude therefore lies
    between 0 and half the circumference of the sphere (numbers as
    reals). *)
Theorem X30_buildAnchor_latitude (localeCompare : string → string → R)
    (fb : FallbackInfo) (candidates : list SchoolCandidate)
    (a : anchors.DistrictAnchor) :
  -90 <= fb_lat fb <= 90 →
  (∀ c, c ∈ candidates → -90 <= lat c <= 90) →
  buildAnchor localeCompare fb candidates = Some a →
  validLat (anchorPoint a) ∧
  ∀ b, validLat b →
    0 <= milesBetween (anchorPoint a) b <= PI * EARTH_RADIUS_MILES.
Proof.
  intros Hfb Hcs Ha.
  assert (validLat (anchorPoint a)) as Hvalid.
  { destruct (buildAnchor_spec localeCompare fb candidates)
      as (a' & Ha' & _ & _ & _ & _ & Hsch).
    rewrite Ha in Ha'. injection Ha' as <-.
    unfold validLat, anchorPoint. simpl.
    destruct (anchors.anchorSchool a) as [sch|].
    - destruct Hsch as (w & Hw & _ & -> & _).
      apply round6_latitude. by apply Hcs.
    - destruct Hsch as (_ & -> & _). by apply round6_latitude. }
  split; [done|]. intros b Hb. by apply DistanceMore.milesBetween_range.
Qed.

Lemma X30_buildAnchor_latitude_witness :
  ∃ a,
    buildAnchor sampleCompare sampleFallback sampleCandidates = Some a ∧
    validLat (anchorPoint a) ∧
    ∀ b, validLat b →
      0 <= milesBetween (anchorPoint a) b <= PI * EARTH_RADIUS_MILES.
Proof.
  destruct (buildAnchor_spec sampleCompare sampleFallback sampleCandidates)
    as (a & Ha & _).
  exists a. split; [exact Ha|].
  assert (-90 <= fb_lat sampleFallback <= 90) as Hfb by (simpl; lra).
  assert (∀ c, c ∈ sampleCandidates → -90 <= lat c <= 90) as Hcs.
  { intros c. unfold sampleCandidates.
    rewrite !elem_of_cons, elem_of_nil.
    intros [->|[->|[->|[->|[]]]]]; simpl; lra. }
  exact (X30_buildAnchor_latitude sampleCompare sampleFallback
           sampleCandidates a Hfb Hcs Ha).
Defined.

End AnchorFacts.
